(** * Mixed-radix (Cooley-Tukey) FFT plans of liquid-dsp

    A shallow embedding of [src/fft/src/fft_mixed_radix.c]: the plan builder
    [FFT(_create_plan_mixed_radix)], the executor [FFT(_execute_mixed_radix)]
    and the destroyer [FFT(_destroy_plan_mixed_radix)].

    - [unsigned int] values are integers in [Z] with the 32-bit wrap-around
      written out ([uint]);
    - [T] / [TC] (float and float complex) are the real numbers and pairs of
      real numbers: arithmetic is exact, rounding is not modelled;
    - the C heap is a finite map from block identifiers to objects; a pointer
      is the identifier of a block, [NULL] is block 0, which [malloc] never
      returns;
    - [exit(1)] is the outcome [Exit 1], an access outside an allocated object
      is the outcome [Fault]; what is printed to [stderr] or [stdout] is not
      modelled;
    - the generic dispatcher of the library ([FFT(_create_plan)],
      [FFT(_execute)], [FFT(_destroy_plan)]) and the constants of
      [liquid.internal.h] are not part of this file of the library: they are
      the methods of the class [Liquid]. *)

From Stdlib Require Import ZArith Znumtheory Reals Lra Lia Ring.
From stdpp Require Import gmap list.

Open Scope Z_scope.

(** ** Machine integers *)

(** [unsigned int] arithmetic is arithmetic modulo [2^32]. *)
Definition uint (z : Z) : Z := z mod 2 ^ 32.
Definition uadd (a b : Z) : Z := uint (a + b).
Definition umul (a b : Z) : Z := uint (a * b).

(** ** Exact complex numbers, standing for [TC] *)

Definition T : Type := R.
Definition TC : Type := (R * R)%type.

Definition Cre (z : TC) : R := fst z.
Definition Cim (z : TC) : R := snd z.
Definition C0 : TC := (0, 0)%R.
Definition C1 : TC := (1, 0)%R.
(** [_Complex_I] *)
Definition Complex_I : TC := (0, 1)%R.
Definition Cadd (a b : TC) : TC := (Cre a + Cre b, Cim a + Cim b)%R.
Definition Copp (a : TC) : TC := (- Cre a, - Cim a)%R.
Definition Csub (a b : TC) : TC := (Cre a - Cre b, Cim a - Cim b)%R.
Definition Cmul (a b : TC) : TC :=
  (Cre a * Cre b - Cim a * Cim b, Cre a * Cim b + Cim a * Cre b)%R.
(** a complex number times, or divided by, a real one: componentwise *)
Definition Cmul_real (a : TC) (r : T) : TC := (Cre a * r, Cim a * r)%R.
Definition Cdiv_real (a : TC) (r : T) : TC := (Cre a / r, Cim a / r)%R.
(** [cexpf]: the complex exponential *)
Definition cexpf (z : TC) : TC :=
  (exp (Cre z) * cos (Cim z), exp (Cre z) * sin (Cim z))%R.
(** [M_PI] *)
Definition M_PI : T := PI.

(** ** The heap *)

Abbreviation ptr := nat.
Definition NULL : ptr := 0%nat.

(** The function a plan's [execute] field points to. *)
Inductive execute_fn : Type :=
  | execute_unset
  | execute_mixed_radix_fn.

(** [data.mixedradix] of [struct FFT(plan_s)]. *)
Module MixedRadix.
Record t : Type := mk {
  Q : Z;
  P : Z;
  t0 : ptr;
  t1 : ptr;
  x : ptr
}.
Definition zero : t := mk 0 0 NULL NULL NULL.
Definition set_Q (v : Z) (d : t) : t := mk v (P d) (t0 d) (t1 d) (x d).
Definition set_P (v : Z) (d : t) : t := mk (Q d) v (t0 d) (t1 d) (x d).
Definition set_t0 (v : ptr) (d : t) : t := mk (Q d) (P d) v (t1 d) (x d).
Definition set_t1 (v : ptr) (d : t) : t := mk (Q d) (P d) (t0 d) v (x d).
Definition set_x (v : ptr) (d : t) : t := mk (Q d) (P d) (t0 d) (t1 d) v.
End MixedRadix.

(** [struct FFT(plan_s)], declared in [liquid.internal.h]: the fields the
    mixed-radix code reads and writes. *)
Module Plan.
Record plan_s : Type := mk {
  nfft : Z;
  x : ptr;
  y : ptr;
  flags : Z;
  kind : Z;
  direction : Z;
  method : Z;
  execute : execute_fn;
  data : MixedRadix.t;
  num_subplans : Z;
  subplans : ptr;
  twiddle : ptr
}.
Definition set_data (f : MixedRadix.t -> MixedRadix.t) (r : plan_s) : plan_s :=
  mk (nfft r) (x r) (y r) (flags r) (kind r) (direction r) (method r)
     (execute r) (f (data r)) (num_subplans r) (subplans r) (twiddle r).
Definition set_num_subplans (v : Z) (r : plan_s) : plan_s :=
  mk (nfft r) (x r) (y r) (flags r) (kind r) (direction r) (method r)
     (execute r) (data r) v (subplans r) (twiddle r).
Definition set_subplans (v : ptr) (r : plan_s) : plan_s :=
  mk (nfft r) (x r) (y r) (flags r) (kind r) (direction r) (method r)
     (execute r) (data r) (num_subplans r) v (twiddle r).
Definition set_twiddle (v : ptr) (r : plan_s) : plan_s :=
  mk (nfft r) (x r) (y r) (flags r) (kind r) (direction r) (method r)
     (execute r) (data r) (num_subplans r) (subplans r) v.
End Plan.

(** What a block holds: a plan record, an array of [TC], or an array of plan
    pointers ([FFT(plan) *]). *)
Inductive obj : Type :=
  | OPlan (r : Plan.plan_s)
  | OArr (a : list TC)
  | OPtrs (a : list ptr).

Abbreviation heap := (gmap ptr obj).

(** ** Computations on the heap *)

Inductive outcome (A : Type) : Type :=
  | Ret (a : A) (h : heap)
  | Exit (status : Z) (h : heap)
  | Fault.
Arguments Ret {A} a h.
Arguments Exit {A} status h.
Arguments Fault {A}.

Definition M (A : Type) : Type := heap -> outcome A.

Definition ret {A} (a : A) : M A := fun h => Ret a h.
Definition bind {A B} (m : M A) (k : A -> M B) : M B := fun h =>
  match m h with
  | Ret a h' => k a h'
  | Exit s h' => Exit s h'
  | Fault => Fault
  end.

Declare Scope heap_scope.
Delimit Scope heap_scope with heap.
Notation "'let*' x := m 'in' k" := (bind m (fun x => k))
  (at level 10, x name, m at level 100, k at level 200) : heap_scope.
Notation "m ;;; k" := (bind m (fun _ => k))
  (at level 100, k at level 200, right associativity) : heap_scope.
Open Scope heap_scope.

(** [exit(status)] *)
Definition exit {A} (status : Z) : M A := fun h => Exit status h.

(** [malloc]: a block that is neither [NULL] nor in use.  An allocation never
    fails (the source does not test what [malloc] returns); the contents of a
    new block, indeterminate in C, are [init]. *)
Definition malloc (init : obj) : M ptr := fun h =>
  let b := fresh ({[NULL]} ∪ dom h) in Ret b (<[b := init]> h).

Definition malloc_TC (n : Z) : M ptr := malloc (OArr (replicate (Z.to_nat n) C0)).
Definition malloc_plans (n : Z) : M ptr := malloc (OPtrs (replicate (Z.to_nat n) NULL)).

(** [free] *)
Definition free (b : ptr) : M unit := fun h =>
  match h !! b with
  | Some _ => Ret tt (delete b h)
  | None => Fault
  end.

(** [_q->field] *)
Definition get {A} (q : ptr) (field : Plan.plan_s -> A) : M A := fun h =>
  match h !! q with
  | Some (OPlan r) => Ret (field r) h
  | _ => Fault
  end.

(** [_q->field = v], as the update [upd] of the record *)
Definition set (q : ptr) (upd : Plan.plan_s -> Plan.plan_s) : M unit := fun h =>
  match h !! q with
  | Some (OPlan r) => Ret tt (<[q := OPlan (upd r)]> h)
  | _ => Fault
  end.

(** [b[i]] *)
Definition read (b : ptr) (i : Z) : M TC := fun h =>
  match h !! b with
  | Some (OArr a) =>
      if 0 <=? i then
        match a !! Z.to_nat i with
        | Some v => Ret v h
        | None => Fault
        end
      else Fault
  | _ => Fault
  end.

(** [b[i] = v] *)
Definition write (b : ptr) (i : Z) (v : TC) : M unit := fun h =>
  match h !! b with
  | Some (OArr a) =>
      if (0 <=? i) && (i <? Z.of_nat (length a))
      then Ret tt (<[b := OArr (<[Z.to_nat i := v]> a)]> h)
      else Fault
  | _ => Fault
  end.

(** [b[i]] and [b[i] = v] on an array of plan pointers *)
Definition read_plan (b : ptr) (i : Z) : M ptr := fun h =>
  match h !! b with
  | Some (OPtrs a) =>
      if 0 <=? i then
        match a !! Z.to_nat i with
        | Some v => Ret v h
        | None => Fault
        end
      else Fault
  | _ => Fault
  end.

Definition write_plan (b : ptr) (i : Z) (v : ptr) : M unit := fun h =>
  match h !! b with
  | Some (OPtrs a) =>
      if (0 <=? i) && (i <? Z.of_nat (length a))
      then Ret tt (<[b := OPtrs (<[Z.to_nat i := v]> a)]> h)
      else Fault
  | _ => Fault
  end.

(** [memmove(dst, src, n*sizeof(TC))] *)
Definition memmove (dst src : ptr) (n : Z) : M unit := fun h =>
  match h !! dst, h !! src with
  | Some (OArr d), Some (OArr s) =>
      if (0 <=? n) && (n <=? Z.of_nat (length s)) && (n <=? Z.of_nat (length d))
      then Ret tt (<[dst := OArr (take (Z.to_nat n) s ++ drop (Z.to_nat n) d)]> h)
      else Fault
  | _, _ => Fault
  end.

(** [for (i = lo; i < hi; i++) body]: [cnt] is the number of values of [i]
    left to visit. *)
Fixpoint for_loop (cnt : nat) (i : Z) (body : Z -> M unit) : M unit :=
  match cnt with
  | O => ret tt
  | S c => body i ;;; for_loop c (uadd i 1) body
  end.

Definition for_ (lo hi : Z) (body : Z -> M unit) : M unit :=
  for_loop (Z.to_nat (hi - lo)) lo body.

(** ** What the file takes from the rest of the library *)

Class Liquid : Type := {
  FFT_FORWARD : Z;
  FFT_REVERSE : Z;
  LIQUID_FFT_DFT_1D : Z;
  LIQUID_FFT_METHOD_MIXED_RADIX : Z;
  (** [FFT(_create_plan)(nfft, x, y, dir, flags)] *)
  fft_create_plan : Z -> ptr -> ptr -> Z -> Z -> M ptr;
  (** [FFT(_execute)(q)] *)
  fft_execute : ptr -> M unit;
  (** [FFT(_destroy_plan)(q)] *)
  fft_destroy_plan : ptr -> M unit
}.

(** ** The builder *)

(** The scan [for (i=2; i<nfft; i++) if ((nfft % i)==0) { Q = i; break; }]
    from [i] on, with [cnt] values of [i] left below [nfft]; the result is the
    final value of [Q]. *)
Fixpoint first_factor_from (cnt : nat) (i nfft : Z) : Z :=
  match cnt with
  | O => 0
  | S c => if nfft mod i =? 0 then i else first_factor_from c (uadd i 1) nfft
  end.

Definition first_factor (nfft : Z) : Z :=
  first_factor_from (Z.to_nat (nfft - 2)) 2 nfft.

(** [d = (q->direction == FFT_FORWARD) ? -1.0 : 1.0] *)
Definition twiddle_sign `{Liquid} (direction : Z) : T :=
  if direction =? FFT_FORWARD then (-1)%R else 1%R.

(** [cexpf(_Complex_I*d*2*M_PI*(T)i / (T)(q->nfft))] *)
Definition twiddle_factor (d : T) (i nfft : Z) : TC :=
  cexpf (Cdiv_real
           (Cmul_real (Cmul_real (Cmul_real (Cmul_real Complex_I d) 2%R) M_PI) (IZR i))
           (IZR nfft)).

Section Code.
Context `{Liquid}.

(** The record is allocated with the eight fields the source assigns first;
    the fields it assigns later hold 0 and [NULL] until then. *)
Definition create_plan_mixed_radix (_nfft : Z) (_x _y : ptr) (_dir _flags : Z)
  : M ptr :=
  let* q := malloc (OPlan (Plan.mk
              _nfft _x _y _flags LIQUID_FFT_DFT_1D
              (if _dir =? FFT_FORWARD then FFT_FORWARD else FFT_REVERSE)
              LIQUID_FFT_METHOD_MIXED_RADIX
              execute_mixed_radix_fn
              MixedRadix.zero 0 NULL NULL)) in
  let* nfft := get q Plan.nfft in
  let Q := first_factor nfft in
  if Q =? 0 then exit 1 else
  let P := nfft / Q in
  set q (Plan.set_data (MixedRadix.set_Q Q)) ;;;
  set q (Plan.set_data (MixedRadix.set_P P)) ;;;
  let t_len := if Q >? P then Q else P in
  let* t0 := malloc_TC t_len in
  set q (Plan.set_data (MixedRadix.set_t0 t0)) ;;;
  let* t1 := malloc_TC t_len in
  set q (Plan.set_data (MixedRadix.set_t1 t1)) ;;;
  let* nfft := get q Plan.nfft in
  let* x := malloc_TC nfft in
  set q (Plan.set_data (MixedRadix.set_x x)) ;;;
  set q (Plan.set_num_subplans 2) ;;;
  let* num_subplans := get q Plan.num_subplans in
  let* subplans := malloc_plans num_subplans in
  set q (Plan.set_subplans subplans) ;;;
  let* d := get q Plan.data in
  let* direction := get q Plan.direction in
  let* flags := get q Plan.flags in
  let* s0 := fft_create_plan (MixedRadix.P d) (MixedRadix.t0 d) (MixedRadix.t1 d)
                             direction flags in
  let* subplans := get q Plan.subplans in
  write_plan subplans 0 s0 ;;;
  let* d := get q Plan.data in
  let* direction := get q Plan.direction in
  let* flags := get q Plan.flags in
  let* s1 := fft_create_plan (MixedRadix.Q d) (MixedRadix.t0 d) (MixedRadix.t1 d)
                             direction flags in
  let* subplans := get q Plan.subplans in
  write_plan subplans 1 s1 ;;;
  let* nfft := get q Plan.nfft in
  let* twiddle := malloc_TC nfft in
  set q (Plan.set_twiddle twiddle) ;;;
  let* direction := get q Plan.direction in
  let d := twiddle_sign direction in
  let* nfft := get q Plan.nfft in
  for_ 0 nfft (fun i =>
    let* twiddle := get q Plan.twiddle in
    let* nfft := get q Plan.nfft in
    write twiddle i (twiddle_factor d i nfft)) ;;;
  ret q.

(** ** The destroyer *)

Definition destroy_plan_mixed_radix (_q : ptr) : M unit :=
  let* subplans := get _q Plan.subplans in
  let* s0 := read_plan subplans 0 in
  fft_destroy_plan s0 ;;;
  let* subplans := get _q Plan.subplans in
  let* s1 := read_plan subplans 1 in
  fft_destroy_plan s1 ;;;
  let* subplans := get _q Plan.subplans in
  free subplans ;;;
  let* d := get _q Plan.data in
  free (MixedRadix.t0 d) ;;;
  let* d := get _q Plan.data in
  free (MixedRadix.t1 d) ;;;
  let* d := get _q Plan.data in
  free (MixedRadix.x d) ;;;
  let* twiddle := get _q Plan.twiddle in
  free twiddle ;;;
  free _q.

(** ** The executor *)

(** The index expressions of the two passes. *)
Definition decimate_index (Q k i : Z) : Z := uadd (umul Q k) i.
Definition twiddle_index (i k : Z) : Z := umul i k.
Definition row_index (Q i k : Z) : Z := uadd (umul Q i) k.
Definition transpose_index (P k i : Z) : Z := uadd (umul k P) i.

Definition execute_mixed_radix (_q : ptr) : M unit :=
  let* d := get _q Plan.data in
  let P := MixedRadix.P d in
  let Q := MixedRadix.Q d in
  let t0 := MixedRadix.t0 d in
  let t1 := MixedRadix.t1 d in
  let x := MixedRadix.x d in
  let* twiddle := get _q Plan.twiddle in
  let* _x := get _q Plan.x in
  let* nfft := get _q Plan.nfft in
  memmove x _x nfft ;;;
  for_ 0 Q (fun i =>
    for_ 0 P (fun k =>
      let* v := read x (decimate_index Q k i) in
      write t0 k v) ;;;
    let* subplans := get _q Plan.subplans in
    let* s0 := read_plan subplans 0 in
    fft_execute s0 ;;;
    for_ 0 P (fun k =>
      let* a := read t1 k in
      let* w := read twiddle (twiddle_index i k) in
      write x (decimate_index Q k i) (Cmul a w))) ;;;
  for_ 0 P (fun i =>
    for_ 0 Q (fun k =>
      let* v := read x (row_index Q i k) in
      write t0 k v) ;;;
    let* subplans := get _q Plan.subplans in
    let* s1 := read_plan subplans 1 in
    fft_execute s1 ;;;
    for_ 0 Q (fun k =>
      let* v := read t1 k in
      let* _y := get _q Plan.y in
      write _y (transpose_index P k i) v)).
End Code.

(** ** The reference transform *)

(** Sum of [f 0], ..., [f (n-1)]. *)
Fixpoint Csum (n : nat) (f : nat -> TC) : TC :=
  match n with
  | O => C0
  | S k => Cadd (Csum k f) (f k)
  end.

(** [cos t + i sin t] *)
Definition cis (t : R) : TC := (cos t, sin t).

(** [exp(sign * 2 pi i * e / n)] *)
Definition root (sign : R) (n e : nat) : TC :=
  cis (sign * 2 * PI * INR e / INR n)%R.

(** The direct, quadratic DFT of the spec:
    [X m = sum over j < n of x j * exp(sign * 2 pi i * m * j / n)]. *)
Definition dft_direct (sign : R) (n : nat) (x : nat -> TC) (m : nat) : TC :=
  Csum n (fun j => Cmul (x j) (root sign n (m * j))).

(** The samples of a buffer, as a sequence. *)
Definition elems (a : list TC) (i : nat) : TC := nth i a C0.

(** The real number [n], as a complex one. *)
Definition Cnat (n : nat) : TC := (INR n, 0%R).

(** ** What the builder and the executor expect of the rest of the library *)

(** [subplan_ok s n i o d F h]: in the heap [h], [s] is a plan of size [n],
    reading the buffer [i], writing the buffer [o], of direction [d], that
    owns the blocks [F].  A factory builds such plans out of fresh blocks and
    leaves every other block alone; executing one writes the [n]-point DFT of
    the first [n] samples of [i] to [o] and changes nothing else outside
    [F]. *)
Class LiquidSpec `{Liquid}
    (subplan_ok : ptr -> Z -> ptr -> ptr -> Z -> gset ptr -> heap -> Prop) : Prop := {
  FFT_FORWARD_neq_REVERSE : FFT_FORWARD ≠ FFT_REVERSE;
  subplan_ok_frame : forall s n i o d F h h',
    subplan_ok s n i o d F h ->
    (forall b, b ∈ F -> h' !! b = h !! b) ->
    subplan_ok s n i o d F h';
  subplan_ok_dom : forall s n i o d F h,
    subplan_ok s n i o d F h -> F ⊆ dom h;
  fft_create_plan_spec : forall n i o d fl h,
    2 <= n < 2 ^ 32 ->
    d = FFT_FORWARD \/ d = FFT_REVERSE ->
    i ∈ dom h -> o ∈ dom h ->
    exists s h' F,
      fft_create_plan n i o d fl h = Ret s h' /\
      subplan_ok s n i o d F h' /\
      F ## dom h /\
      (forall b, b ∈ dom h -> h' !! b = h !! b);
  fft_execute_spec : forall s n i o d F h a b,
    subplan_ok s n i o d F h ->
    h !! i = Some (OArr a) -> h !! o = Some (OArr b) ->
    i <> o -> i ∉ F -> o ∉ F ->
    (Z.to_nat n <= length a)%nat -> (Z.to_nat n <= length b)%nat ->
    exists h' b',
      fft_execute s h = Ret tt h' /\
      h' !! o = Some (OArr b') /\
      length b' = length b /\
      (forall k, (k < Z.to_nat n)%nat ->
         b' !! k = Some (dft_direct (twiddle_sign d) (Z.to_nat n) (elems a) k)) /\
      subplan_ok s n i o d F h' /\
      (forall p, p <> o -> p ∉ F -> h' !! p = h !! p)
}.

Section Invariants.
Context `{Liquid}.
Variable subplan_ok : ptr -> Z -> ptr -> ptr -> Z -> gset ptr -> heap -> Prop.

(** The blocks a plan owns: its record, its buffers, its table of sub-plans,
    its twiddle factors and what the two sub-plans own. *)
Definition owned (q : ptr) (r : Plan.plan_s) (F0 F1 : gset ptr) : gset ptr :=
  {[ q; MixedRadix.t0 (Plan.data r); MixedRadix.t1 (Plan.data r);
     MixedRadix.x (Plan.data r); Plan.subplans r; Plan.twiddle r ]} ∪ F0 ∪ F1.

(** The blocks [execute] may write to. *)
Definition scratch (r : Plan.plan_s) (F0 F1 : gset ptr) : gset ptr :=
  {[ MixedRadix.t0 (Plan.data r); MixedRadix.t1 (Plan.data r);
     MixedRadix.x (Plan.data r); Plan.y r ]} ∪ F0 ∪ F1.

(** A fully built plan: [q] points to the record [r]; the sub-plans own
    [F0] and [F1]. *)
Record plan_ok (q : ptr) (r : Plan.plan_s) (F0 F1 : gset ptr) (h : heap) : Prop := {
  ok_record : h !! q = Some (OPlan r);
  ok_nfft : Plan.nfft r < 2 ^ 32;
  ok_P : 2 <= MixedRadix.P (Plan.data r);
  ok_Q : 2 <= MixedRadix.Q (Plan.data r);
  ok_PQ : MixedRadix.P (Plan.data r) * MixedRadix.Q (Plan.data r) = Plan.nfft r;
  ok_direction : Plan.direction r = FFT_FORWARD \/ Plan.direction r = FFT_REVERSE;
  ok_t0 : exists a, h !! MixedRadix.t0 (Plan.data r) = Some (OArr a) /\
    Z.of_nat (length a) = Z.max (MixedRadix.P (Plan.data r)) (MixedRadix.Q (Plan.data r));
  ok_t1 : exists a, h !! MixedRadix.t1 (Plan.data r) = Some (OArr a) /\
    Z.of_nat (length a) = Z.max (MixedRadix.P (Plan.data r)) (MixedRadix.Q (Plan.data r));
  ok_x : exists a, h !! MixedRadix.x (Plan.data r) = Some (OArr a) /\
    Z.of_nat (length a) = Plan.nfft r;
  ok_twiddle : exists a, h !! Plan.twiddle r = Some (OArr a) /\
    Z.of_nat (length a) = Plan.nfft r /\
    forall i, 0 <= i < Plan.nfft r ->
      a !! Z.to_nat i =
        Some (twiddle_factor (twiddle_sign (Plan.direction r)) i (Plan.nfft r));
  ok_subplans : exists s0 s1, h !! Plan.subplans r = Some (OPtrs [s0; s1]) /\
    subplan_ok s0 (MixedRadix.P (Plan.data r))
      (MixedRadix.t0 (Plan.data r)) (MixedRadix.t1 (Plan.data r))
      (Plan.direction r) F0 h /\
    subplan_ok s1 (MixedRadix.Q (Plan.data r))
      (MixedRadix.t0 (Plan.data r)) (MixedRadix.t1 (Plan.data r))
      (Plan.direction r) F1 h;
  ok_distinct :
    NoDup [q; MixedRadix.t0 (Plan.data r); MixedRadix.t1 (Plan.data r);
           MixedRadix.x (Plan.data r); Plan.subplans r; Plan.twiddle r];
  ok_disjoint :
    F0 ## F1 /\
    forall b, b ∈ [q; MixedRadix.t0 (Plan.data r); MixedRadix.t1 (Plan.data r);
                   MixedRadix.x (Plan.data r); Plan.subplans r; Plan.twiddle r] ->
              b ∉ F0 ∪ F1
}.

(** The caller's buffers: arrays [a] (input) and [b] (output) of at least
    [nfft] samples, outside what the plan owns. *)
Record buffers_ok (q : ptr) (r : Plan.plan_s) (F0 F1 : gset ptr) (h : heap)
    (a b : list TC) : Prop := {
  ok_in : h !! Plan.x r = Some (OArr a);
  ok_out : h !! Plan.y r = Some (OArr b);
  ok_in_length : Plan.nfft r <= Z.of_nat (length a);
  ok_out_length : Plan.nfft r <= Z.of_nat (length b);
  ok_in_caller : Plan.x r ∉ owned q r F0 F1;
  ok_out_caller : Plan.y r ∉ owned q r F0 F1
}.
End Invariants.

(** ** Intermediate values and states of the executor *)

(** The two signs of the exponent. *)
Definition is_sign (sign : R) : Prop := sign = (-1)%R \/ sign = 1%R.

(** What pass 1 leaves at position [q * k + i] of the staging buffer: the
    [k]-th coefficient of the [p]-point transform of the samples
    [i], [q + i], [2 q + i], ..., times the twiddle factor of [i * k]. *)
Definition pass1 (sign : R) (p q : nat) (x : nat -> TC) (i k : nat) : TC :=
  Cmul (dft_direct sign p (fun j => x (q * j + i)%nat) k) (root sign (p * q) (i * k)).

(** What pass 2 writes to position [k * p + i] of the output: the [k]-th
    coefficient of the [q]-point transform of row [i] of the staging buffer. *)
Definition pass2 (sign : R) (p q : nat) (x : nat -> TC) (i k : nat) : TC :=
  dft_direct sign q (fun j => pass1 sign p q x j i) k.

(** Entry [pos j := val j] for [j0 <= j < j0 + cnt], in this order. *)
Fixpoint scatter (pos : nat -> nat) (val : nat -> TC) (cnt j0 : nat) (l : list TC)
  : list TC :=
  match cnt with
  | O => l
  | S c => scatter pos val c (S j0) (<[pos j0 := val j0]> l)
  end.

(** The staging buffer after [i] rounds of pass 1: the columns below [i] hold
    their transform, the others the input. *)
Definition stage1 (sign : R) (p q : nat) (x : nat -> TC) (i j : nat) : TC :=
  if (j mod q <? i)%nat then pass1 sign p q x (j mod q) (j / q) else x j.

(** The output buffer [b] after [i] rounds of pass 2. *)
Definition stage2 (sign : R) (p q : nat) (x : nat -> TC) (b : list TC) (i m : nat)
  : option TC :=
  if (m <? p * q)%nat && (m mod p <? i)%nat
  then Some (pass2 sign p q x (m mod p) (m / p))
  else b !! m.

(** The heap while [execute] runs on the plan [r] from the heap [h0]: the
    contents of the staging buffer, of the two scratch buffers and of the
    output buffer; every block outside [scratch] is as in [h0]; the sub-plans
    [s0] and [s1] are intact. *)
Definition exec_state `{Liquid}
    (subplan_ok : ptr -> Z -> ptr -> ptr -> Z -> gset ptr -> heap -> Prop)
    (r : Plan.plan_s) (F0 F1 : gset ptr) (s0 s1 : ptr) (h0 : heap)
    (cx ct0 ct1 cy : list TC) (h : heap) : Prop :=
  h !! MixedRadix.x (Plan.data r) = Some (OArr cx) /\
  h !! MixedRadix.t0 (Plan.data r) = Some (OArr ct0) /\
  h !! MixedRadix.t1 (Plan.data r) = Some (OArr ct1) /\
  h !! Plan.y r = Some (OArr cy) /\
  (forall p, p ∉ scratch r F0 F1 -> h !! p = h0 !! p) /\
  subplan_ok s0 (MixedRadix.P (Plan.data r))
    (MixedRadix.t0 (Plan.data r)) (MixedRadix.t1 (Plan.data r))
    (Plan.direction r) F0 h /\
  subplan_ok s1 (MixedRadix.Q (Plan.data r))
    (MixedRadix.t0 (Plan.data r)) (MixedRadix.t1 (Plan.data r))
    (Plan.direction r) F1 h.

(** The invariants of the two outer loops of [execute], after [i] rounds. *)
Definition pass1_inv `{Liquid}
    (subplan_ok : ptr -> Z -> ptr -> ptr -> Z -> gset ptr -> heap -> Prop)
    (r : Plan.plan_s) (F0 F1 : gset ptr) (s0 s1 : ptr) (h0 : heap)
    (a b : list TC) (i : nat) (h : heap) : Prop :=
  let p := Z.to_nat (MixedRadix.P (Plan.data r)) in
  let q := Z.to_nat (MixedRadix.Q (Plan.data r)) in
  exists cx ct0 ct1,
    exec_state subplan_ok r F0 F1 s0 s1 h0 cx ct0 ct1 b h /\
    length cx = (p * q)%nat /\
    Z.of_nat (length ct0) = Z.max (MixedRadix.P (Plan.data r)) (MixedRadix.Q (Plan.data r)) /\
    Z.of_nat (length ct1) = Z.max (MixedRadix.P (Plan.data r)) (MixedRadix.Q (Plan.data r)) /\
    forall j, (j < p * q)%nat ->
      cx !! j = Some (stage1 (twiddle_sign (Plan.direction r)) p q (elems a) i j).

Definition pass2_inv `{Liquid}
    (subplan_ok : ptr -> Z -> ptr -> ptr -> Z -> gset ptr -> heap -> Prop)
    (r : Plan.plan_s) (F0 F1 : gset ptr) (s0 s1 : ptr) (h0 : heap)
    (a b : list TC) (i : nat) (h : heap) : Prop :=
  let p := Z.to_nat (MixedRadix.P (Plan.data r)) in
  let q := Z.to_nat (MixedRadix.Q (Plan.data r)) in
  exists cx ct0 ct1 cy,
    exec_state subplan_ok r F0 F1 s0 s1 h0 cx ct0 ct1 cy h /\
    length cx = (p * q)%nat /\
    Z.of_nat (length ct0) = Z.max (MixedRadix.P (Plan.data r)) (MixedRadix.Q (Plan.data r)) /\
    Z.of_nat (length ct1) = Z.max (MixedRadix.P (Plan.data r)) (MixedRadix.Q (Plan.data r)) /\
    length cy = length b /\
    (forall j, (j < p * q)%nat ->
      cx !! j = Some (stage1 (twiddle_sign (Plan.direction r)) p q (elems a) q j)) /\
    forall m, cy !! m = stage2 (twiddle_sign (Plan.direction r)) p q (elems a) b i m.

(** [N] has a divisor in [[2, N)]. *)
Definition composite (N : Z) : Prop := exists d, 2 <= d < N /\ (d | N).

(** The record the builder allocates first. *)
Definition initial_plan `{Liquid} (_nfft : Z) (_x _y : ptr) (_dir _flags : Z)
  : Plan.plan_s :=
  Plan.mk _nfft _x _y _flags LIQUID_FFT_DFT_1D
    (if _dir =? FFT_FORWARD then FFT_FORWARD else FFT_REVERSE)
    LIQUID_FFT_METHOD_MIXED_RADIX execute_mixed_radix_fn
    MixedRadix.zero 0 NULL NULL.

(** The record of a plan the builder returns. *)
Definition built_plan `{Liquid} (_nfft : Z) (_x _y : ptr) (_dir _flags : Z)
    (t0 t1 x subplans twiddle : ptr) : Plan.plan_s :=
  Plan.mk _nfft _x _y _flags LIQUID_FFT_DFT_1D
    (if _dir =? FFT_FORWARD then FFT_FORWARD else FFT_REVERSE)
    LIQUID_FFT_METHOD_MIXED_RADIX execute_mixed_radix_fn
    (MixedRadix.mk (first_factor _nfft) (_nfft / first_factor _nfft) t0 t1 x)
    2 subplans twiddle.

(** ** A reference [Liquid]

    An implementation of the interface in which every plan of the factory is a
    record that [FFT(_execute)] runs as the direct DFT.  The theorems below
    hold for every implementation that meets [LiquidSpec]; this one shows that
    there is one, and instantiates them. *)

Definition dft_plan (nfft : Z) (x y : ptr) (dir flags : Z) : Plan.plan_s :=
  Plan.mk nfft x y flags 0 dir 0 execute_unset MixedRadix.zero 0 NULL NULL.

Definition dft_create_plan (nfft : Z) (x y : ptr) (dir flags : Z) : M ptr :=
  malloc (OPlan (dft_plan nfft x y dir flags)).

Definition dft_sign (dir : Z) : R := if dir =? 1 then (-1)%R else 1%R.

Definition dft_execute (q : ptr) : M unit := fun h =>
  match h !! q with
  | Some (OPlan r) =>
      match h !! Plan.x r, h !! Plan.y r with
      | Some (OArr a), Some (OArr b) =>
          let n := Z.to_nat (Plan.nfft r) in
          if (n <=? length a)%nat && (n <=? length b)%nat
          then Ret tt (<[Plan.y r :=
                          OArr (map (dft_direct (dft_sign (Plan.direction r)) n (elems a))
                                    (seq 0 n) ++ drop n b)]> h)
          else Fault
      | _, _ => Fault
      end
  | _ => Fault
  end.

Definition dft_destroy_plan (q : ptr) : M unit := free q.

Definition reference : Liquid := {|
  FFT_FORWARD := 1;
  FFT_REVERSE := -1;
  LIQUID_FFT_DFT_1D := 0;
  LIQUID_FFT_METHOD_MIXED_RADIX := 1;
  fft_create_plan := dft_create_plan;
  fft_execute := dft_execute;
  fft_destroy_plan := dft_destroy_plan
|}.

Definition dft_plan_ok (s : ptr) (n : Z) (i o : ptr) (d : Z) (F : gset ptr) (h : heap)
  : Prop :=
  F = {[ s ]} /\ exists fl, h !! s = Some (OPlan (dft_plan n i o d fl)).

(** ** Two plans of size 6

    The heap the builder returns for a forward plan of size 6 from block 1 to
    block 2, over the reference implementation, with the unit impulse in
    block 1; then for an inverse plan of size 6 from block 2 to block 3. *)

Definition impulse6 : list TC := [C1; C0; C0; C0; C0; C0].

Definition forward6 : Plan.plan_s :=
  Plan.mk 6 1%nat 2%nat 0 0 1 1 execute_mixed_radix_fn
    (MixedRadix.mk 2 3 5%nat 6%nat 7%nat) 2 8%nat 11%nat.

Definition inverse6 : Plan.plan_s :=
  Plan.mk 6 2%nat 3%nat 0 0 (-1) 1 execute_mixed_radix_fn
    (MixedRadix.mk 2 3 13%nat 14%nat 15%nat) 2 16%nat 19%nat.

Definition caller_heap : heap :=
  <[1%nat := OArr impulse6]> (
  <[2%nat := OArr (replicate 6 C0)]> (
  <[3%nat := OArr (replicate 6 C0)]> ∅)).

Definition twiddles6 (d : T) : list TC :=
  map (fun i => twiddle_factor d i 6) [0; 1; 2; 3; 4; 5].

Definition forward_heap : heap :=
  <[11%nat := OArr (twiddles6 (-1)%R)]> (
  <[4%nat := OPlan forward6]> (
  <[8%nat := OPtrs [9%nat; 10%nat]]> (
  <[10%nat := OPlan (dft_plan 2 5%nat 6%nat 1 0)]> (
  <[9%nat := OPlan (dft_plan 3 5%nat 6%nat 1 0)]> (
  <[7%nat := OArr (replicate 6 C0)]> (
  <[6%nat := OArr (replicate 3 C0)]> (
  <[5%nat := OArr (replicate 3 C0)]> caller_heap))))))).

Definition round_trip_heap : heap :=
  <[19%nat := OArr (twiddles6 1%R)]> (
  <[12%nat := OPlan inverse6]> (
  <[16%nat := OPtrs [17%nat; 18%nat]]> (
  <[18%nat := OPlan (dft_plan 2 13%nat 14%nat (-1) 0)]> (
  <[17%nat := OPlan (dft_plan 3 13%nat 14%nat (-1) 0)]> (
  <[15%nat := OArr (replicate 6 C0)]> (
  <[14%nat := OArr (replicate 3 C0)]> (
  <[13%nat := OArr (replicate 3 C0)]> forward_heap))))))).

(** The positions of the output buffer that pass 2 of [execute] writes, in
    the order of its two loops: [k*P+i] for [i] in [[0, P)] and, for each
    [i], [k] in [[0, Q)]. *)
Definition pass2_writes (P Q : Z) : list Z :=
  seqZ 0 P ≫= (fun i => (fun k => transpose_index P k i) <$> seqZ 0 Q).

(** ** What the destroyer expects of the rest of the library *)

(** [FFT(_destroy_plan)] frees the blocks a plan of the factory owns and
    leaves every other block alone. *)
Class LiquidDestroySpec `{Liquid}
    (subplan_ok : ptr -> Z -> ptr -> ptr -> Z -> gset ptr -> heap -> Prop) : Prop := {
  fft_destroy_plan_spec : forall s n i o d F h,
    subplan_ok s n i o d F h ->
    exists h',
      fft_destroy_plan s h = Ret tt h' /\
      (forall b, b ∈ F -> h' !! b = None) /\
      (forall b, b ∉ F -> h' !! b = h !! b)
}.

(** The factory allocates the blocks the plan it returns owns, and no
    other. *)
Class LiquidAllocSpec `{Liquid}
    (subplan_ok : ptr -> Z -> ptr -> ptr -> Z -> gset ptr -> heap -> Prop) : Prop := {
  fft_create_plan_alloc : forall n i o d fl h,
    2 <= n < 2 ^ 32 ->
    d = FFT_FORWARD \/ d = FFT_REVERSE ->
    i ∈ dom h -> o ∈ dom h ->
    exists s h' F,
      fft_create_plan n i o d fl h = Ret s h' /\
      subplan_ok s n i o d F h' /\
      F ## dom h /\
      (forall b, b ∈ dom h -> h' !! b = h !! b) /\
      dom h' = dom h ∪ F
}.

(** ** Callers of the executor *)

(** [n] calls of [execute] on the same plan, one after the other. *)
Fixpoint execute_times `{Liquid} (n : nat) (_q : ptr) : M unit :=
  match n with
  | O => ret tt
  | S k => execute_mixed_radix _q ;;; execute_times k _q
  end.

(** A mixed-radix plan seen as the factory's plans are by [LiquidSpec]: [s]
    is a built plan of size [n], reading [i], writing [o], of direction [d],
    that owns the blocks [F]. *)
Definition mixed_radix_ok `{Liquid}
    (subplan_ok : ptr -> Z -> ptr -> ptr -> Z -> gset ptr -> heap -> Prop)
    (s : ptr) (n : Z) (i o : ptr) (d : Z) (F : gset ptr) (h : heap) : Prop :=
  exists r F0 F1,
    plan_ok subplan_ok s r F0 F1 h /\
    Plan.nfft r = n /\ Plan.x r = i /\ Plan.y r = o /\ Plan.direction r = d /\
    F = owned s r F0 F1.

(** The plan of size 6 the builder returns when the output buffer is the
    input buffer, block 1, and its heap. *)
Definition inplace6 : Plan.plan_s :=
  Plan.mk 6 1%nat 1%nat 0 0 1 1 execute_mixed_radix_fn
    (MixedRadix.mk 2 3 5%nat 6%nat 7%nat) 2 8%nat 11%nat.

Definition inplace_heap : heap := <[4%nat := OPlan inplace6]> forward_heap.

(** The impulse at position 1, whose transform tells the two directions
    apart, and the heap of the two plans of size 6 with it in block 2, the
    input buffer of the inverse plan. *)
Definition shifted6 : list TC := [C0; C1; C0; C0; C0; C0].

Definition shifted_heap : heap := <[2%nat := OArr shifted6]> round_trip_heap.

(** The heap of the forward plan with an output buffer of 8 samples, the
    last two of them not 0. *)
Definition long_output : list TC := replicate 6 C0 ++ [C1; Complex_I].

Definition long_output_heap : heap := <[2%nat := OArr long_output]> forward_heap.

(** The heap of the forward plan with the constant signal 1 as input. *)
Definition ones_heap : heap := <[1%nat := OArr (replicate 6 C1)]> forward_heap.

(** ** The positions the two passes read *)

(** The positions of the staging buffer that pass 1 of [execute] reads, and
    then writes back, in the order of its loops: [Q*k+i] for [i] in [[0, Q)]
    and, for each [i], [k] in [[0, P)]. *)
Definition pass1_reads (P Q : Z) : list Z :=
  seqZ 0 Q ≫= (fun i => (fun k => decimate_index Q k i) <$> seqZ 0 P).

(** The positions of the staging buffer that pass 2 reads: [Q*i+k] for [i]
    in [[0, P)] and, for each [i], [k] in [[0, Q)]. *)
Definition pass2_reads (P Q : Z) : list Z :=
  seqZ 0 P ≫= (fun i => (fun k => row_index Q i k) <$> seqZ 0 Q).

(** ** The executor on a machine that records its array accesses

    To speak of the loads and stores of a run, and not only of the heap it
    ends in, the body of [execute_mixed_radix] is written once more over the
    operations it uses, taken as an interface.  On the operations of [M] it
    is [execute_mixed_radix] itself, by computation
    ([execute_mixed_radix_on_plain]); on the operations that also append
    each array access to a log it gives the trace of the run. *)

(** An access to an array: a load of an element, a store to an element, the
    block copy of [memmove]. *)
Inductive access : Type :=
  | Load (b : ptr) (i : Z)
  | Store (b : ptr) (i : Z)
  | Copy (dst src : ptr) (n : Z).

(** The operations [execute] is written with. *)
Class Machine (m : Type -> Type) : Type := {
  m_ret : forall {A : Type}, A -> m A;
  m_bind : forall {A B : Type}, m A -> (A -> m B) -> m B;
  m_get : forall {A : Type}, ptr -> (Plan.plan_s -> A) -> m A;
  m_read : ptr -> Z -> m TC;
  m_write : ptr -> Z -> TC -> m unit;
  m_read_plan : ptr -> Z -> m ptr;
  m_memmove : ptr -> ptr -> Z -> m unit;
  m_fft_execute : ptr -> m unit
}.

Declare Scope machine_scope.
Delimit Scope machine_scope with machine.
Notation "'let*' x := m 'in' k" := (m_bind m (fun x => k))
  (at level 10, x name, m at level 100, k at level 200) : machine_scope.
Notation "m ;;; k" := (m_bind m (fun _ => k))
  (at level 100, k at level 200, right associativity) : machine_scope.

Section OnAMachine.
Context {m : Type -> Type} {mach : Machine m}.

Fixpoint for_loop_on (cnt : nat) (i : Z) (body : Z -> m unit) : m unit :=
  match cnt with
  | O => m_ret tt
  | S c => (body i ;;; for_loop_on c (uadd i 1) body)%machine
  end.

Definition for_on (lo hi : Z) (body : Z -> m unit) : m unit :=
  for_loop_on (Z.to_nat (hi - lo)) lo body.

(** [FFT(_execute_mixed_radix)], statement for statement as
    [execute_mixed_radix]. *)
Definition execute_mixed_radix_on (_q : ptr) : m unit :=
  (let* d := m_get _q Plan.data in
   let P := MixedRadix.P d in
   let Q := MixedRadix.Q d in
   let t0 := MixedRadix.t0 d in
   let t1 := MixedRadix.t1 d in
   let x := MixedRadix.x d in
   let* twiddle := m_get _q Plan.twiddle in
   let* _x := m_get _q Plan.x in
   let* nfft := m_get _q Plan.nfft in
   m_memmove x _x nfft ;;;
   for_on 0 Q (fun i =>
     for_on 0 P (fun k =>
       let* v := m_read x (decimate_index Q k i) in
       m_write t0 k v) ;;;
     let* subplans := m_get _q Plan.subplans in
     let* s0 := m_read_plan subplans 0 in
     m_fft_execute s0 ;;;
     for_on 0 P (fun k =>
       let* a := m_read t1 k in
       let* w := m_read twiddle (twiddle_index i k) in
       m_write x (decimate_index Q k i) (Cmul a w))) ;;;
   for_on 0 P (fun i =>
     for_on 0 Q (fun k =>
       let* v := m_read x (row_index Q i k) in
       m_write t0 k v) ;;;
     let* subplans := m_get _q Plan.subplans in
     let* s1 := m_read_plan subplans 1 in
     m_fft_execute s1 ;;;
     for_on 0 Q (fun k =>
       let* v := m_read t1 k in
       let* _y := m_get _q Plan.y in
       m_write _y (transpose_index P k i) v)))%machine.
End OnAMachine.

(** The operations of [M]. *)
Definition plain_machine `{Liquid} : Machine M := {|
  m_ret := @ret;
  m_bind := @bind;
  m_get := @get;
  m_read := read;
  m_write := write;
  m_read_plan := read_plan;
  m_memmove := memmove;
  m_fft_execute := fft_execute
|}.

(** The operations of [M] with a log of the accesses made so far: each
    operation does what it does in [M] and, when it returns, appends the
    access it made.  What a sub-plan does inside [FFT(_execute)] is not
    recorded. *)
Definition TM (A : Type) : Type := list access -> M (A * list access).

Definition traced_machine `{Liquid} : Machine TM := {|
  m_ret := fun A a l => ret (a, l);
  m_bind := fun A B mt kt l => bind (mt l) (fun al => kt (fst al) (snd al));
  m_get := fun A q f l => bind (get q f) (fun a => ret (a, l));
  m_read := fun b i l => bind (read b i) (fun v => ret (v, l ++ [Load b i]));
  m_write := fun b i v l => bind (write b i v) (fun u => ret (u, l ++ [Store b i]));
  m_read_plan := fun b i l => bind (read_plan b i) (fun s => ret (s, l ++ [Load b i]));
  m_memmove := fun d s n l => bind (memmove d s n) (fun u => ret (u, l ++ [Copy d s n]));
  m_fft_execute := fun s l => bind (fft_execute s) (fun u => ret (u, l))
|}.

(** [execute] with its accesses recorded, from the empty log. *)
Definition execute_traced `{Liquid} (_q : ptr) : M (unit * list access) :=
  @execute_mixed_radix_on TM traced_machine _q [].

(** An outcome of the machine with the log, without the log; [mt] does what
    [m] does when the log is left out. *)
Definition forget {A : Type} (o : outcome (A * list access)) : outcome A :=
  match o with
  | Ret al h => Ret (fst al) h
  | Exit s h => Exit s h
  | Fault => Fault
  end.

Definition erases {A : Type} (mt : TM A) (m : M A) : Prop :=
  forall l h, forget (mt l h) = m h.

(** The indices of the stores to the block [b], and of the loads from it, in
    the order of the log. *)
Definition stores_to (b : ptr) (log : list access) : list Z :=
  omap (fun e => match e with
                 | Store b' i => if decide (b' = b) then Some i else None
                 | _ => None
                 end) log.

Definition loads_from (b : ptr) (log : list access) : list Z :=
  omap (fun e => match e with
                 | Load b' i => if decide (b' = b) then Some i else None
                 | _ => None
                 end) log.

(** The accesses of round [i] of pass 1 and of pass 2, and of a whole run,
    on the plan [r]. *)
Definition round1_trace (r : Plan.plan_s) (i : Z) : list access :=
  (seqZ 0 (MixedRadix.P (Plan.data r)) ≫= (fun k =>
     [Load (MixedRadix.x (Plan.data r)) (decimate_index (MixedRadix.Q (Plan.data r)) k i);
      Store (MixedRadix.t0 (Plan.data r)) k]))
  ++ [Load (Plan.subplans r) 0]
  ++ (seqZ 0 (MixedRadix.P (Plan.data r)) ≫= (fun k =>
     [Load (MixedRadix.t1 (Plan.data r)) k;
      Load (Plan.twiddle r) (twiddle_index i k);
      Store (MixedRadix.x (Plan.data r)) (decimate_index (MixedRadix.Q (Plan.data r)) k i)])).

Definition round2_trace (r : Plan.plan_s) (i : Z) : list access :=
  (seqZ 0 (MixedRadix.Q (Plan.data r)) ≫= (fun k =>
     [Load (MixedRadix.x (Plan.data r)) (row_index (MixedRadix.Q (Plan.data r)) i k);
      Store (MixedRadix.t0 (Plan.data r)) k]))
  ++ [Load (Plan.subplans r) 1]
  ++ (seqZ 0 (MixedRadix.Q (Plan.data r)) ≫= (fun k =>
     [Load (MixedRadix.t1 (Plan.data r)) k;
      Store (Plan.y r) (transpose_index (MixedRadix.P (Plan.data r)) k i)])).

Definition execute_trace (r : Plan.plan_s) : list access :=
  [Copy (MixedRadix.x (Plan.data r)) (Plan.x r) (Plan.nfft r)]
  ++ (seqZ 0 (MixedRadix.Q (Plan.data r)) ≫= round1_trace r)
  ++ (seqZ 0 (MixedRadix.P (Plan.data r)) ≫= round2_trace r).

(** [mt], run from the heap [h] with any log, does what [m] does from [h]
    and, when [m] returns, has appended [w] to the log. *)
Definition logs {A : Type} (mt : TM A) (m : M A) (h : heap) (w : list access) : Prop :=
  forall l,
    mt l h = match m h with
             | Ret a h' => Ret (a, l ++ w) h'
             | Exit s h' => Exit s h'
             | Fault => Fault
             end.

(** From every heap that meets [I], [mt] logs [w] next to [m]; when [m]
    returns, the heap meets [I] again and the value returned meets [V]. *)
Definition traces {A : Type} (I : heap -> Prop) (mt : TM A) (m : M A)
    (w : list access) (V : A -> Prop) : Prop :=
  forall h, I h ->
    logs mt m h w /\ forall a h', m h = Ret a h' -> I h' /\ V a.

(** The heaps of a run of [execute] on the plan [r]: the four buffers are
    arrays, the scratch buffers have their size, the rest of the plan is as
    in [h0]. *)
Definition running `{Liquid}
    (subplan_ok : ptr -> Z -> ptr -> ptr -> Z -> gset ptr -> heap -> Prop)
    (r : Plan.plan_s) (F0 F1 : gset ptr) (s0 s1 : ptr) (h0 h : heap) : Prop :=
  exists cx ct0 ct1 cy,
    exec_state subplan_ok r F0 F1 s0 s1 h0 cx ct0 ct1 cy h /\
    Z.of_nat (length ct0) = Z.max (MixedRadix.P (Plan.data r)) (MixedRadix.Q (Plan.data r)) /\
    Z.of_nat (length ct1) = Z.max (MixedRadix.P (Plan.data r)) (MixedRadix.Q (Plan.data r)).

(** * Exact complex arithmetic *)

Lemma TC_ring : ring_theory C0 C1 Cadd Cmul Csub Copp (@eq TC).
Proof.
  constructor; intros;
    repeat match goal with z : TC |- _ => destruct z end;
    unfold Cadd, Cmul, Csub, Copp, C0, C1, Cre, Cim; simpl; f_equal; ring.
Qed.

Add Ring TC_ring_inst : TC_ring.

Lemma Cmul_integral (a b : TC) : Cmul a b = C0 -> a = C0 \/ b = C0.
Proof.
  destruct a as [a1 a2], b as [b1 b2]. unfold Cmul, C0, Cre, Cim; simpl.
  intros E. injection E as E1 E2.
  assert (Hn : ((a1 * a1 + a2 * a2) * (b1 * b1 + b2 * b2) = 0)%R).
  { replace ((a1 * a1 + a2 * a2) * (b1 * b1 + b2 * b2))%R
      with ((a1 * b1 - a2 * b2) * (a1 * b1 - a2 * b2)
            + (a1 * b2 + a2 * b1) * (a1 * b2 + a2 * b1))%R by ring.
    rewrite E1, E2. ring. }
  apply Rmult_integral in Hn. destruct Hn as [Hn | Hn].
  - left. assert (a1 = 0 /\ a2 = 0)%R as [-> ->]; [|reflexivity].
    split; nra.
  - right. assert (b1 = 0 /\ b2 = 0)%R as [-> ->]; [|reflexivity].
    split; nra.
Qed.

(** * Sums *)

Lemma Csum_ext n f g :
  (forall i, (i < n)%nat -> f i = g i) -> Csum n f = Csum n g.
Proof.
  induction n as [|n IH]; intros E; simpl; [reflexivity|].
  rewrite IH, (E n) by (intros; try apply E; lia). reflexivity.
Qed.

Lemma Csum_zero n f : (forall i, (i < n)%nat -> f i = C0) -> Csum n f = C0.
Proof.
  induction n as [|n IH]; intros E; simpl; [reflexivity|].
  rewrite IH, (E n) by (intros; try apply E; lia). ring.
Qed.

Lemma Csum_add n f g :
  Csum n (fun i => Cadd (f i) (g i)) = Cadd (Csum n f) (Csum n g).
Proof. induction n as [|n IH]; simpl; [|rewrite IH]; ring. Qed.

Lemma Csum_mul_l n c f :
  Csum n (fun i => Cmul c (f i)) = Cmul c (Csum n f).
Proof. induction n as [|n IH]; simpl; [|rewrite IH]; ring. Qed.

Lemma Csum_mul_r n c f :
  Csum n (fun i => Cmul (f i) c) = Cmul (Csum n f) c.
Proof. induction n as [|n IH]; simpl; [|rewrite IH]; ring. Qed.

Lemma Csum_app n m f :
  Csum (n + m) f = Cadd (Csum n f) (Csum m (fun i => f (n + i)%nat)).
Proof.
  induction m as [|m IH].
  - rewrite Nat.add_0_r. simpl. ring.
  - rewrite Nat.add_succ_r. simpl. rewrite IH. ring.
Qed.

Lemma Csum_swap n m (f : nat -> nat -> TC) :
  Csum n (fun i => Csum m (fun j => f i j)) =
  Csum m (fun j => Csum n (fun i => f i j)).
Proof.
  induction n as [|n IH]; simpl.
  - symmetry. apply Csum_zero. reflexivity.
  - rewrite IH, <- Csum_add. reflexivity.
Qed.

(** The indices below [p * q], read as [q * j + i] with [i < q] and [j < p]. *)
Lemma Csum_decimate p q f :
  Csum (p * q) f = Csum q (fun i => Csum p (fun j => f (q * j + i)%nat)).
Proof.
  induction p as [|p IH].
  - simpl. symmetry. apply Csum_zero. reflexivity.
  - replace (S p * q)%nat with (p * q + q)%nat by lia.
    rewrite Csum_app, IH. simpl. rewrite Csum_add. f_equal.
    apply Csum_ext. intros i _. f_equal. lia.
Qed.

(** A sum with one non-zero term. *)
Lemma Csum_single n j f :
  (j < n)%nat -> (forall i, (i < n)%nat -> i <> j -> f i = C0) ->
  Csum n f = f j.
Proof.
  induction n as [|n IH]; intros Hj E; [lia|]. simpl.
  destruct (decide (j = n)) as [->|Hne].
  - rewrite Csum_zero; [ring|]. intros i Hi. apply E; lia.
  - rewrite IH, (E n) by (try intros; try apply E; lia). ring.
Qed.

Lemma Csum_const n c : Csum n (fun _ => c) = Cmul (Cnat n) c.
Proof.
  induction n as [|n IH].
  - simpl. unfold Cnat. simpl. destruct c. unfold Cmul, C0, Cre, Cim. simpl. f_equal; ring.
  - change (Csum (S n) (fun _ => c)) with (Cadd (Csum n (fun _ => c)) c).
    rewrite IH. unfold Cnat. rewrite S_INR. destruct c.
    unfold Cmul, Cadd, Cre, Cim. simpl. f_equal; ring.
Qed.

(** * Roots of unity *)

Lemma cis_0 : cis 0 = C1.
Proof. unfold cis, C1. rewrite cos_0, sin_0. reflexivity. Qed.

Lemma cis_add a b : cis (a + b) = Cmul (cis a) (cis b).
Proof.
  unfold cis, Cmul, Cre, Cim. simpl. rewrite cos_plus, sin_plus. f_equal; ring.
Qed.

Lemma cis_turns (k : nat) : cis (2 * INR k * PI) = C1.
Proof.
  unfold cis, C1.
  replace (2 * INR k * PI)%R with (0 + 2 * INR k * PI)%R by ring.
  rewrite cos_period, sin_period, cos_0, sin_0. reflexivity.
Qed.

Lemma cis_neg_turns (k : nat) : cis (- (2 * INR k * PI)) = C1.
Proof.
  unfold cis, C1. rewrite cos_neg, sin_neg.
  replace (2 * INR k * PI)%R with (0 + 2 * INR k * PI)%R by ring.
  rewrite cos_period, sin_period, cos_0, sin_0. f_equal. ring.
Qed.

(** The only turn in [(-2 pi, 2 pi)] that is the identity is [0]. *)
Lemma cis_eq_1 t : (- (2 * PI) < t < 2 * PI)%R -> cis t = C1 -> t = 0%R.
Proof.
  intros Ht E. unfold cis, C1 in E. injection E as Ec Es.
  pose proof PI_RGT_0 as Hpi.
  destruct (Rle_dec 0 t) as [Hpos | Hneg].
  - destruct (sin_eq_O_2PI_0 t Hpos ltac:(lra) Es) as [E | [E | E]]; [exact E | | lra].
    rewrite E, cos_PI in Ec. lra.
  - assert (Es' : sin (- t) = 0%R) by (rewrite sin_neg, Es; ring).
    destruct (sin_eq_O_2PI_0 (- t) ltac:(lra) ltac:(lra) Es') as [E | [E | E]]; [lra | | lra].
    rewrite <- cos_neg, E, cos_PI in Ec. lra.
Qed.

Lemma root_0 sign n : root sign n 0 = C1.
Proof.
  unfold root. simpl.
  replace (sign * 2 * PI * 0 / INR n)%R with 0%R by (unfold Rdiv; ring).
  apply cis_0.
Qed.

Lemma root_add sign n a b :
  root sign n (a + b) = Cmul (root sign n a) (root sign n b).
Proof.
  unfold root. rewrite <- cis_add. f_equal. rewrite plus_INR.
  unfold Rdiv. ring.
Qed.

Lemma root_period sign n k :
  is_sign sign -> (0 < n)%nat -> root sign n (n * k) = C1.
Proof.
  intros Hs Hn. unfold root. rewrite mult_INR.
  assert (INR n <> 0%R) by (apply not_0_INR; lia).
  destruct Hs as [-> | ->].
  - replace (-1 * 2 * PI * (INR n * INR k) / INR n)%R
      with (- (2 * INR k * PI))%R by (field; assumption).
    apply cis_neg_turns.
  - replace (1 * 2 * PI * (INR n * INR k) / INR n)%R
      with (2 * INR k * PI)%R by (field; assumption).
    apply cis_turns.
Qed.

(** [exp(2 pi i e / p) = exp(2 pi i (q e) / (p q))] *)
Lemma root_scale sign p q e :
  (0 < p)%nat -> (0 < q)%nat -> root sign p e = root sign (p * q) (q * e).
Proof.
  intros Hp Hq. unfold root. f_equal. rewrite !mult_INR.
  assert (INR p <> 0%R) by (apply not_0_INR; lia).
  assert (INR q <> 0%R) by (apply not_0_INR; lia).
  field. split; assumption.
Qed.

Lemma root_scale' sign p q e :
  (0 < p)%nat -> (0 < q)%nat -> root sign q e = root sign (p * q) (p * e).
Proof.
  intros Hp Hq. rewrite (Nat.mul_comm p q). apply root_scale; assumption.
Qed.

(** * The Cooley-Tukey decomposition *)

Theorem cooley_tukey sign p q x i k :
  is_sign sign -> (0 < p)%nat -> (0 < q)%nat ->
  pass2 sign p q x i k = dft_direct sign (p * q) x (k * p + i).
Proof.
  intros Hs Hp Hq. unfold pass2, pass1, dft_direct.
  rewrite Csum_decimate. apply Csum_ext. intros j _.
  rewrite <- Csum_mul_r, <- Csum_mul_r. apply Csum_ext. intros n _.
  replace ((k * p + i) * (q * n + j))%nat
    with (p * q * (k * n) + (p * (k * j) + (q * (i * n) + j * i)))%nat by lia.
  rewrite !root_add, root_period by (try assumption; lia).
  rewrite <- (root_scale sign p q), <- (root_scale' sign p q) by assumption.
  ring.
Qed.

(** * The inverse of the transform, up to the factor [n] *)

Lemma cis_geometric t n :
  Cmul (Csub (cis t) C1) (Csum n (fun m => cis (INR m * t))) =
  Csub (cis (INR n * t)) C1.
Proof.
  induction n as [|n IH].
  - simpl. rewrite Rmult_0_l, cis_0. ring.
  - change (Csum (S n) (fun m => cis (INR m * t)))
      with (Cadd (Csum n (fun m => cis (INR m * t))) (cis (INR n * t))).
    replace (Cmul (Csub (cis t) C1) (Cadd (Csum n (fun m => cis (INR m * t))) (cis (INR n * t))))
      with (Cadd (Cmul (Csub (cis t) C1) (Csum n (fun m => cis (INR m * t))))
                 (Cmul (Csub (cis t) C1) (cis (INR n * t)))) by ring.
    rewrite IH, S_INR.
    replace ((INR n + 1) * t)%R with (INR n * t + t)%R by ring.
    rewrite cis_add. ring.
Qed.

Lemma root_orthogonal n j l :
  (j < n)%nat -> (l < n)%nat -> j <> l ->
  Csum n (fun m => Cmul (root (-1) n (m * l)) (root 1 n (j * m))) = C0.
Proof.
  intros Hj Hl Hne.
  assert (Hn : INR n <> 0%R) by (apply not_0_INR; lia).
  assert (Hn' : (0 < INR n)%R) by (apply lt_0_INR; lia).
  set (t := (2 * PI * (INR j - INR l) / INR n)%R).
  rewrite (Csum_ext _ _ (fun m => cis (INR m * t))).
  2:{ intros m _. unfold root. rewrite <- cis_add. f_equal.
      rewrite !mult_INR. unfold t. field. assumption. }
  pose proof (cis_geometric t n) as G.
  replace (INR n * t)%R with (2 * PI * (INR j - INR l))%R in G
    by (unfold t; field; assumption).
  assert (E1 : cis (2 * PI * (INR j - INR l)) = C1).
  { destruct (Nat.lt_ge_cases l j) as [Hlt | Hge].
    - replace (2 * PI * (INR j - INR l))%R with (2 * INR (j - l) * PI)%R
        by (rewrite minus_INR by lia; ring).
      apply cis_turns.
    - replace (2 * PI * (INR j - INR l))%R with (- (2 * INR (l - j) * PI))%R
        by (rewrite minus_INR by lia; ring).
      apply cis_neg_turns. }
  rewrite E1 in G. replace (Csub C1 C1) with C0 in G by ring.
  apply Cmul_integral in G. destruct G as [G | G]; [exfalso | exact G].
  assert (E : cis t = C1).
  { replace (cis t) with (Cadd (Csub (cis t) C1) C1) by ring. rewrite G. ring. }
  apply cis_eq_1 in E.
  - unfold t in E. pose proof PI_RGT_0.
    assert (INR j - INR l = 0)%R.
    { apply (Rmult_eq_reg_l (2 * PI / INR n)); [|
        apply Rmult_integral_contrapositive_currified;
        [lra | apply Rinv_neq_0_compat; assumption]].
      rewrite Rmult_0_r, <- E. field. assumption. }
    apply Hne, INR_eq. lra.
  - pose proof PI_RGT_0 as Hpi.
    assert (Hjn : (INR j < INR n)%R) by (apply lt_INR; assumption).
    assert (Hln : (INR l < INR n)%R) by (apply lt_INR; assumption).
    pose proof (pos_INR j). pose proof (pos_INR l).
    assert (Hb : (-1 < (INR j - INR l) / INR n < 1)%R).
    { split.
      - apply (Rmult_lt_reg_r (INR n)); [assumption|].
        unfold Rdiv. rewrite Rmult_assoc, Rinv_l by assumption. lra.
      - apply (Rmult_lt_reg_r (INR n)); [assumption|].
        unfold Rdiv. rewrite Rmult_assoc, Rinv_l by assumption. lra. }
    unfold t. replace (2 * PI * (INR j - INR l) / INR n)%R
      with (2 * PI * ((INR j - INR l) / INR n))%R by (field; assumption).
    split; nra.
Qed.

Lemma root_inverse_pair n j m :
  (0 < n)%nat -> Cmul (root (-1) n (m * j)) (root 1 n (j * m)) = C1.
Proof.
  intros Hn. unfold root. rewrite <- cis_add.
  replace (-1 * 2 * PI * INR (m * j) / INR n + 1 * 2 * PI * INR (j * m) / INR n)%R
    with 0%R; [apply cis_0|].
  rewrite (Nat.mul_comm m j). unfold Rdiv. ring.
Qed.

(** The inverse transform of the forward transform is [n] times the input. *)
Theorem dft_inverse n x j :
  (j < n)%nat ->
  dft_direct 1 n (dft_direct (-1) n x) j = Cmul (Cnat n) (x j).
Proof.
  intros Hj. unfold dft_direct.
  rewrite (Csum_ext _ _
    (fun m => Csum n (fun l => Cmul (x l) (Cmul (root (-1) n (m * l)) (root 1 n (j * m)))))).
  2:{ intros m _. rewrite <- Csum_mul_r. apply Csum_ext. intros l _. ring. }
  rewrite Csum_swap.
  rewrite (Csum_ext _ _
    (fun l => Cmul (x l) (Csum n (fun m => Cmul (root (-1) n (m * l)) (root 1 n (j * m)))))).
  2:{ intros l _. apply Csum_mul_l. }
  rewrite (Csum_single n j) by
    (try assumption; intros l Hl Hne; rewrite root_orthogonal by (try assumption; congruence); ring).
  rewrite (Csum_ext _ _ (fun _ => C1)) by (intros; apply root_inverse_pair; lia).
  rewrite Csum_const. ring.
Qed.

(** * Steps of a computation *)

Lemma uint_small z : 0 <= z < 2 ^ 32 -> uint z = z.
Proof. intros Hz. unfold uint. apply Z.mod_small. exact Hz. Qed.

Lemma uint_range z : 0 <= uint z < 2 ^ 32.
Proof. unfold uint. apply Z.mod_pos_bound. lia. Qed.

Lemma bind_Ret {A B} (m : M A) (k : A -> M B) h a h' :
  m h = Ret a h' -> bind m k h = k a h'.
Proof. intros E. unfold bind. rewrite E. reflexivity. Qed.

Lemma bind_Exit {A B} (m : M A) (k : A -> M B) h s h' :
  m h = Exit s h' -> bind m k h = Exit s h'.
Proof. intros E. unfold bind. rewrite E. reflexivity. Qed.

Lemma get_ok {A} q (f : Plan.plan_s -> A) h r :
  h !! q = Some (OPlan r) -> get q f h = Ret (f r) h.
Proof. intros E. unfold get. rewrite E. reflexivity. Qed.

Lemma set_ok q upd h r :
  h !! q = Some (OPlan r) -> set q upd h = Ret tt (<[q := OPlan (upd r)]> h).
Proof. intros E. unfold set. rewrite E. reflexivity. Qed.

Lemma read_ok b i h a v :
  h !! b = Some (OArr a) -> 0 <= i -> a !! Z.to_nat i = Some v ->
  read b i h = Ret v h.
Proof.
  intros E Hi Ev. unfold read. rewrite E.
  destruct (Z.leb_spec 0 i); [|lia]. rewrite Ev. reflexivity.
Qed.

Lemma write_ok b i v h a :
  h !! b = Some (OArr a) -> 0 <= i < Z.of_nat (length a) ->
  write b i v h = Ret tt (<[b := OArr (<[Z.to_nat i := v]> a)]> h).
Proof.
  intros E Hi. unfold write. rewrite E.
  destruct (Z.leb_spec 0 i); [|lia].
  destruct (Z.ltb_spec i (Z.of_nat (length a))); [|lia]. reflexivity.
Qed.

Lemma read_plan_ok b i h a v :
  h !! b = Some (OPtrs a) -> 0 <= i -> a !! Z.to_nat i = Some v ->
  read_plan b i h = Ret v h.
Proof.
  intros E Hi Ev. unfold read_plan. rewrite E.
  destruct (Z.leb_spec 0 i); [|lia]. rewrite Ev. reflexivity.
Qed.

Lemma write_plan_ok b i v h a :
  h !! b = Some (OPtrs a) -> 0 <= i < Z.of_nat (length a) ->
  write_plan b i v h = Ret tt (<[b := OPtrs (<[Z.to_nat i := v]> a)]> h).
Proof.
  intros E Hi. unfold write_plan. rewrite E.
  destruct (Z.leb_spec 0 i); [|lia].
  destruct (Z.ltb_spec i (Z.of_nat (length a))); [|lia]. reflexivity.
Qed.

Lemma memmove_ok dst src n h d s :
  h !! dst = Some (OArr d) -> h !! src = Some (OArr s) ->
  0 <= n -> n <= Z.of_nat (length s) -> n <= Z.of_nat (length d) ->
  memmove dst src n h =
    Ret tt (<[dst := OArr (take (Z.to_nat n) s ++ drop (Z.to_nat n) d)]> h).
Proof.
  intros Ed Es H0 H1 H2. unfold memmove. rewrite Ed, Es.
  destruct (Z.leb_spec 0 n); [|lia].
  destruct (Z.leb_spec n (Z.of_nat (length s))); [|lia].
  destruct (Z.leb_spec n (Z.of_nat (length d))); [|lia]. reflexivity.
Qed.

Lemma malloc_ok init h :
  exists b, malloc init h = Ret b (<[b := init]> h) /\ b <> NULL /\ h !! b = None.
Proof.
  unfold malloc. set (b := fresh ({[NULL]} ∪ dom h)).
  pose proof (is_fresh ({[NULL]} ∪ dom h)) as Hf. fold b in Hf.
  exists b. split; [reflexivity|]. split.
  - intros ->. apply Hf. set_solver.
  - apply not_elem_of_dom. set_solver.
Qed.

(** * Loops *)

(** The rule of the invariant, for a loop that starts at [0]. *)
Lemma for_loop_from (Inv : nat -> heap -> Prop) body cnt j0 h :
  Z.of_nat (j0 + cnt) < 2 ^ 32 ->
  Inv j0 h ->
  (forall j h1, (j0 <= j < j0 + cnt)%nat -> Inv j h1 ->
     exists h2, body (Z.of_nat j) h1 = Ret tt h2 /\ Inv (S j) h2) ->
  exists h', for_loop cnt (Z.of_nat j0) body h = Ret tt h' /\ Inv (j0 + cnt)%nat h'.
Proof.
  revert j0 h. induction cnt as [|c IH]; intros j0 h Hb H0 Hstep.
  - exists h. rewrite Nat.add_0_r. split; [reflexivity | assumption].
  - destruct (Hstep j0 h ltac:(lia) H0) as (h1 & E1 & H1).
    simpl. rewrite (bind_Ret _ _ _ _ _ E1).
    unfold uadd. rewrite uint_small by lia.
    replace (Z.of_nat j0 + 1) with (Z.of_nat (S j0)) by lia.
    destruct (IH (S j0) h1) as (h' & E' & H'); [lia | assumption | |].
    + intros j h2 Hj. apply Hstep. lia.
    + exists h'. split; [exact E'|]. replace (j0 + S c)%nat with (S j0 + c)%nat by lia.
      exact H'.
Qed.

Lemma for_rule (Inv : nat -> heap -> Prop) body hi h :
  0 <= hi < 2 ^ 32 ->
  Inv O h ->
  (forall j h1, (j < Z.to_nat hi)%nat -> Inv j h1 ->
     exists h2, body (Z.of_nat j) h1 = Ret tt h2 /\ Inv (S j) h2) ->
  exists h', for_ 0 hi body h = Ret tt h' /\ Inv (Z.to_nat hi) h'.
Proof.
  intros Hhi H0 Hstep. unfold for_. rewrite Z.sub_0_r.
  apply (for_loop_from Inv body (Z.to_nat hi) O h); [lia | assumption |].
  intros j h1 Hj. apply Hstep. lia.
Qed.

(** A loop whose body stores one entry of one array. *)
Lemma for_loop_scatter dst pos val body cnt j0 h l :
  Z.of_nat (j0 + cnt) < 2 ^ 32 ->
  h !! dst = Some (OArr l) ->
  (forall j l', (j0 <= j < j0 + cnt)%nat -> length l' = length l ->
     body (Z.of_nat j) (<[dst := OArr l']> h) =
       Ret tt (<[dst := OArr (<[pos j := val j]> l')]> h)) ->
  for_loop cnt (Z.of_nat j0) body h =
    Ret tt (<[dst := OArr (scatter pos val cnt j0 l)]> h).
Proof.
  revert j0 h l. induction cnt as [|c IH]; intros j0 h l Hb Hl Hstep.
  - simpl. unfold ret. rewrite insert_id by assumption. reflexivity.
  - pose proof (Hstep j0 l ltac:(lia) eq_refl) as E.
    rewrite (insert_id h dst (OArr l)) in E by assumption.
    simpl. rewrite (bind_Ret _ _ _ _ _ E).
    unfold uadd. rewrite uint_small by lia.
    replace (Z.of_nat j0 + 1) with (Z.of_nat (S j0)) by lia.
    rewrite (IH (S j0) _ (<[pos j0 := val j0]> l)).
    + rewrite insert_insert_eq. reflexivity.
    + lia.
    + apply lookup_insert_eq.
    + intros j l' Hj Hlen. rewrite !insert_insert_eq. apply Hstep; [lia|].
      rewrite Hlen. apply length_insert.
Qed.

Lemma for_scatter dst pos val body hi h l :
  0 <= hi < 2 ^ 32 ->
  h !! dst = Some (OArr l) ->
  (forall j l', (j < Z.to_nat hi)%nat -> length l' = length l ->
     body (Z.of_nat j) (<[dst := OArr l']> h) =
       Ret tt (<[dst := OArr (<[pos j := val j]> l')]> h)) ->
  for_ 0 hi body h = Ret tt (<[dst := OArr (scatter pos val (Z.to_nat hi) O l)]> h).
Proof.
  intros Hhi Hl Hstep. unfold for_. rewrite Z.sub_0_r.
  apply (for_loop_scatter dst pos val body (Z.to_nat hi) O h l); [lia | assumption |].
  intros j l' Hj. apply Hstep. lia.
Qed.

Lemma scatter_length pos val cnt j0 l :
  length (scatter pos val cnt j0 l) = length l.
Proof.
  revert j0 l. induction cnt as [|c IH]; intros j0 l; simpl; [reflexivity|].
  rewrite IH. apply length_insert.
Qed.

Lemma scatter_lookup_out pos val cnt j0 l i :
  (forall j, (j0 <= j < j0 + cnt)%nat -> pos j <> i) ->
  scatter pos val cnt j0 l !! i = l !! i.
Proof.
  revert j0 l. induction cnt as [|c IH]; intros j0 l Hne; simpl; [reflexivity|].
  rewrite IH by (intros; apply Hne; lia).
  apply list_lookup_insert_ne. apply Hne. lia.
Qed.

Lemma scatter_lookup_in pos val cnt j0 l j :
  (forall j1 j2, (j0 <= j1 < j0 + cnt)%nat -> (j0 <= j2 < j0 + cnt)%nat ->
     pos j1 = pos j2 -> j1 = j2) ->
  (j0 <= j < j0 + cnt)%nat -> (pos j < length l)%nat ->
  scatter pos val cnt j0 l !! pos j = Some (val j).
Proof.
  revert j0 l. induction cnt as [|c IH]; intros j0 l Hinj Hj Hlen; [lia|]. simpl.
  destruct (decide (j = j0)) as [-> | Hne].
  - rewrite scatter_lookup_out.
    + apply list_lookup_insert_eq. exact Hlen.
    + intros j Hj' E. apply Hinj in E; lia.
  - apply IH.
    + intros j1 j2 H1 H2. apply Hinj; lia.
    + lia.
    + rewrite length_insert. exact Hlen.
Qed.

(** * Index arithmetic of the executor *)

Lemma decimate_index_nat P Q k i :
  0 <= P -> 0 <= Q -> P * Q < 2 ^ 32 ->
  (k < Z.to_nat P)%nat -> (i < Z.to_nat Q)%nat ->
  decimate_index Q (Z.of_nat k) (Z.of_nat i) = Z.of_nat (Z.to_nat Q * k + i) /\
  (Z.to_nat Q * k + i < Z.to_nat P * Z.to_nat Q)%nat.
Proof.
  intros HP HQ Hb Hk Hi. unfold decimate_index, uadd, umul.
  assert (Z.to_nat Q * k + i < Z.to_nat P * Z.to_nat Q)%nat by nia.
  split; [|assumption].
  rewrite (uint_small (Q * Z.of_nat k)) by nia.
  rewrite uint_small by nia. lia.
Qed.

Lemma row_index_nat P Q i k :
  0 <= P -> 0 <= Q -> P * Q < 2 ^ 32 ->
  (i < Z.to_nat P)%nat -> (k < Z.to_nat Q)%nat ->
  row_index Q (Z.of_nat i) (Z.of_nat k) = Z.of_nat (Z.to_nat Q * i + k) /\
  (Z.to_nat Q * i + k < Z.to_nat P * Z.to_nat Q)%nat.
Proof. intros. apply (decimate_index_nat P Q i k); assumption. Qed.

Lemma twiddle_index_nat P Q i k :
  0 <= P -> 0 <= Q -> P * Q < 2 ^ 32 ->
  (i < Z.to_nat Q)%nat -> (k < Z.to_nat P)%nat ->
  twiddle_index (Z.of_nat i) (Z.of_nat k) = Z.of_nat (i * k) /\
  (i * k < Z.to_nat P * Z.to_nat Q)%nat.
Proof.
  intros HP HQ Hb Hi Hk. unfold twiddle_index, umul.
  assert (i * k < Z.to_nat P * Z.to_nat Q)%nat by nia.
  rewrite uint_small by nia. lia.
Qed.

Lemma transpose_index_nat P Q k i :
  0 <= P -> 0 <= Q -> P * Q < 2 ^ 32 ->
  (k < Z.to_nat Q)%nat -> (i < Z.to_nat P)%nat ->
  transpose_index P (Z.of_nat k) (Z.of_nat i) = Z.of_nat (k * Z.to_nat P + i) /\
  (k * Z.to_nat P + i < Z.to_nat P * Z.to_nat Q)%nat.
Proof.
  intros HP HQ Hb Hk Hi. unfold transpose_index, uadd, umul.
  assert (k * Z.to_nat P + i < Z.to_nat P * Z.to_nat Q)%nat by nia.
  split; [|assumption].
  rewrite (uint_small (Z.of_nat k * P)) by nia.
  rewrite uint_small by nia. lia.
Qed.

Lemma strided_inj q i k1 k2 : (0 < q)%nat -> (q * k1 + i = q * k2 + i)%nat -> k1 = k2.
Proof. intros Hq E. nia. Qed.

Lemma divmod_strided q k i : (i < q)%nat ->
  ((q * k + i) mod q = i /\ (q * k + i) / q = k)%nat.
Proof.
  intros Hi. split.
  - rewrite Nat.add_comm, Nat.mul_comm, Nat.Div0.mod_add. apply Nat.mod_small. exact Hi.
  - rewrite Nat.add_comm, Nat.mul_comm, Nat.div_add by lia.
    rewrite Nat.div_small by exact Hi. reflexivity.
Qed.

Lemma divmod_transposed p k i : (i < p)%nat ->
  ((k * p + i) mod p = i /\ (k * p + i) / p = k)%nat.
Proof.
  intros Hi. rewrite (Nat.mul_comm k p). apply divmod_strided. exact Hi.
Qed.

(** * Samples and twiddle factors *)

Lemma elems_lookup (l : list TC) i v : l !! i = Some v -> elems l i = v.
Proof. intros E. unfold elems. apply nth_lookup_Some. exact E. Qed.

Lemma lookup_elems (l : list TC) i : (i < length l)%nat -> l !! i = Some (elems l i).
Proof.
  intros Hi. destruct (lookup_lt_is_Some_2 l i Hi) as [v E].
  rewrite E. f_equal. symmetry. apply elems_lookup. exact E.
Qed.

Lemma dft_direct_ext sign n x x' m :
  (forall j, (j < n)%nat -> x j = x' j) ->
  dft_direct sign n x m = dft_direct sign n x' m.
Proof.
  intros E. unfold dft_direct. apply Csum_ext. intros j Hj. rewrite E by exact Hj.
  reflexivity.
Qed.

Lemma twiddle_factor_root d e n :
  twiddle_factor d (Z.of_nat e) (Z.of_nat n) = root d n e.
Proof.
  unfold twiddle_factor, root, cexpf, cis, Cdiv_real, Cmul_real, Complex_I, M_PI, Cre, Cim.
  simpl. rewrite <- !INR_IZR_INZ.
  replace (0 * d * 2 * PI * INR e / INR n)%R with 0%R by (unfold Rdiv; ring).
  rewrite exp_0. f_equal.
  - rewrite Rmult_1_l. f_equal. unfold Rdiv. ring.
  - rewrite Rmult_1_l. f_equal. unfold Rdiv. ring.
Qed.

Lemma twiddle_sign_is_sign `{Liquid} d : is_sign (twiddle_sign d).
Proof. unfold twiddle_sign, is_sign. destruct (d =? FFT_FORWARD); auto. Qed.

(** * The executor *)

Lemma not_in_scratch p r F0 F1 :
  p ∉ scratch r F0 F1 <->
  p <> MixedRadix.t0 (Plan.data r) /\ p <> MixedRadix.t1 (Plan.data r) /\
  p <> MixedRadix.x (Plan.data r) /\ p <> Plan.y r /\ p ∉ F0 /\ p ∉ F1.
Proof. unfold scratch. set_solver. Qed.

Lemma plan_separate `{Liquid} subplan_ok q r F0 F1 h a b :
  plan_ok subplan_ok q r F0 F1 h -> buffers_ok q r F0 F1 h a b ->
  NoDup [q; MixedRadix.t0 (Plan.data r); MixedRadix.t1 (Plan.data r);
         MixedRadix.x (Plan.data r); Plan.subplans r; Plan.twiddle r; Plan.y r] /\
  Forall (fun p => p ∉ F0 /\ p ∉ F1)
    [q; MixedRadix.t0 (Plan.data r); MixedRadix.t1 (Plan.data r);
     MixedRadix.x (Plan.data r); Plan.subplans r; Plan.twiddle r; Plan.y r] /\
  F0 ## F1.
Proof.
  intros Hok Hbuf.
  pose proof (ok_distinct _ _ _ _ _ _ Hok) as Hnd.
  pose proof (ok_disjoint _ _ _ _ _ _ Hok) as [Hd Hn].
  pose proof (ok_out_caller _ _ _ _ _ _ _ Hbuf) as Hy.
  clear Hok Hbuf. unfold owned in Hy.
  split; [|split; [|exact Hd]].
  - change (NoDup ([q; MixedRadix.t0 (Plan.data r); MixedRadix.t1 (Plan.data r);
         MixedRadix.x (Plan.data r); Plan.subplans r; Plan.twiddle r] ++ [Plan.y r])).
    apply NoDup_app. split; [exact Hnd|]. split; [|apply NoDup_singleton].
    intros p Hp Hp'. apply list_elem_of_singleton in Hp'. subst p.
    clear Hnd Hn Hd. set_solver.
  - apply Forall_forall. intros p Hp. clear Hnd.
    destruct (decide (p = Plan.y r)) as [-> | Hne].
    + clear Hn Hp Hd. set_solver.
    + assert (p ∉ F0 ∪ F1); [apply Hn | clear Hn Hy Hd Hp; set_solver].
      clear Hn Hy Hd. set_solver.
Qed.

Section Execute.
Context `{Liquid}.
Context (subplan_ok : ptr -> Z -> ptr -> ptr -> Z -> gset ptr -> heap -> Prop).
Context {LS : LiquidSpec subplan_ok}.
Variables (q : ptr) (r : Plan.plan_s) (F0 F1 : gset ptr) (h0 : heap).
Variables (a b atw : list TC) (s0 s1 : ptr).

Local Abbreviation P := (MixedRadix.P (Plan.data r)).
Local Abbreviation Q := (MixedRadix.Q (Plan.data r)).
Local Abbreviation t0 := (MixedRadix.t0 (Plan.data r)).
Local Abbreviation t1 := (MixedRadix.t1 (Plan.data r)).
Local Abbreviation xs := (MixedRadix.x (Plan.data r)).
Local Abbreviation pn := (Z.to_nat P).
Local Abbreviation qn := (Z.to_nat Q).
Local Abbreviation sgn := (twiddle_sign (Plan.direction r)).
Local Abbreviation state := (exec_state subplan_ok r F0 F1 s0 s1 h0).

Hypothesis Hok : plan_ok subplan_ok q r F0 F1 h0.
Hypothesis Hbuf : buffers_ok q r F0 F1 h0 a b.
Hypothesis Hsp : h0 !! Plan.subplans r = Some (OPtrs [s0; s1]).
Hypothesis Htw : h0 !! Plan.twiddle r = Some (OArr atw).
Hypothesis Htw_val : forall i, 0 <= i < Plan.nfft r ->
  atw !! Z.to_nat i = Some (twiddle_factor sgn i (Plan.nfft r)).

Lemma exec_sizes :
  2 <= P < 2 ^ 32 /\ 2 <= Q < 2 ^ 32 /\ P * Q < 2 ^ 32 /\
  Plan.nfft r = Z.of_nat (pn * qn).
Proof. destruct Hok. repeat split; try lia; nia. Qed.

Ltac ne := first [assumption | apply not_eq_sym; assumption].

(** The seven blocks are distinct and outside what the sub-plans own. *)
Ltac separate :=
  let Hnd := fresh "Hnd" in
  destruct (plan_separate _ _ _ _ _ _ _ _ Hok Hbuf) as (Hnd & Hnf & Hd);
  repeat match goal with
  | Hx : Forall _ (_ :: _) |- _ => apply Forall_cons in Hx; destruct Hx as [[? ?] Hx]
  end;
  clear Hnf;
  repeat match goal with
  | Hx : NoDup (_ :: _) |- _ => apply NoDup_cons in Hx; destruct Hx as [? Hx]
  end;
  clear Hnd;
  repeat match goal with
  | Hx : _ ∉ _ :: _ |- _ => apply not_elem_of_cons in Hx; destruct Hx as [? Hx]
  | Hx : _ ∉ [] |- _ => clear Hx
  end.

Lemma state_frame p cx ct0 ct1 cy h :
  state cx ct0 ct1 cy h ->
  p ∈ [q; Plan.subplans r; Plan.twiddle r] -> h !! p = h0 !! p.
Proof.
  intros (_ & _ & _ & _ & Hf & _) Hp. apply Hf. apply not_in_scratch. separate.
  rewrite !elem_of_cons in Hp.
  destruct Hp as [-> | [-> | [-> | Hp]]]; [| | | inversion Hp];
    repeat split; first [assumption | congruence].
Qed.

Lemma state_record cx ct0 ct1 cy h :
  state cx ct0 ct1 cy h -> h !! q = Some (OPlan r).
Proof.
  intros Hs. rewrite (state_frame q _ _ _ _ _ Hs) by (rewrite !elem_of_cons; tauto). apply Hok.
Qed.

Lemma state_subplans cx ct0 ct1 cy h :
  state cx ct0 ct1 cy h -> h !! Plan.subplans r = Some (OPtrs [s0; s1]).
Proof.
  intros Hs. rewrite (state_frame (Plan.subplans r) _ _ _ _ _ Hs) by (rewrite !elem_of_cons; tauto).
  exact Hsp.
Qed.

Lemma state_twiddle cx ct0 ct1 cy h :
  state cx ct0 ct1 cy h -> h !! Plan.twiddle r = Some (OArr atw).
Proof.
  intros Hs. rewrite (state_frame (Plan.twiddle r) _ _ _ _ _ Hs) by (rewrite !elem_of_cons; tauto).
  exact Htw.
Qed.

(** A store to one of the four buffers. *)
Lemma state_store_t0 cx ct0 ct1 cy h l :
  state cx ct0 ct1 cy h -> state cx l ct1 cy (<[t0 := OArr l]> h).
Proof.
  intros (Hx & H0 & H1 & Hy & Hf & Hs0 & Hs1). separate.
  unfold exec_state. rewrite lookup_insert_eq.
  rewrite !lookup_insert_ne by congruence.
  repeat split; try assumption.
  - intros p Hp. pose proof (proj1 (not_in_scratch _ _ _ _) Hp) as (? & ? & ? & ? & _).
    rewrite lookup_insert_ne by congruence. apply Hf, Hp.
  - eapply subplan_ok_frame; [exact Hs0|]. intros p Hp.
    apply lookup_insert_ne. congruence.
  - eapply subplan_ok_frame; [exact Hs1|]. intros p Hp.
    apply lookup_insert_ne. congruence.
Qed.

Lemma state_store_x cx ct0 ct1 cy h l :
  state cx ct0 ct1 cy h -> state l ct0 ct1 cy (<[xs := OArr l]> h).
Proof.
  intros (Hx & H0 & H1 & Hy & Hf & Hs0 & Hs1). separate.
  unfold exec_state. rewrite lookup_insert_eq.
  rewrite !lookup_insert_ne by congruence.
  repeat split; try assumption.
  - intros p Hp. pose proof (proj1 (not_in_scratch _ _ _ _) Hp) as (? & ? & ? & ? & _).
    rewrite lookup_insert_ne by congruence. apply Hf, Hp.
  - eapply subplan_ok_frame; [exact Hs0|]. intros p Hp.
    apply lookup_insert_ne. congruence.
  - eapply subplan_ok_frame; [exact Hs1|]. intros p Hp.
    apply lookup_insert_ne. congruence.
Qed.

Lemma state_store_y cx ct0 ct1 cy h l :
  state cx ct0 ct1 cy h -> state cx ct0 ct1 l (<[Plan.y r := OArr l]> h).
Proof.
  intros (Hx & H0 & H1 & Hy & Hf & Hs0 & Hs1). separate.
  unfold exec_state. rewrite lookup_insert_eq.
  rewrite !lookup_insert_ne by congruence.
  repeat split; try assumption.
  - intros p Hp. pose proof (proj1 (not_in_scratch _ _ _ _) Hp) as (? & ? & ? & ? & _).
    rewrite lookup_insert_ne by congruence. apply Hf, Hp.
  - eapply subplan_ok_frame; [exact Hs0|]. intros p Hp.
    apply lookup_insert_ne. congruence.
  - eapply subplan_ok_frame; [exact Hs1|]. intros p Hp.
    apply lookup_insert_ne. congruence.
Qed.

(** Running a sub-plan. *)
Lemma state_execute0 cx ct0 ct1 cy h :
  state cx ct0 ct1 cy h ->
  (pn <= length ct0)%nat -> (pn <= length ct1)%nat ->
  exists h' ct1',
    fft_execute s0 h = Ret tt h' /\
    state cx ct0 ct1' cy h' /\
    length ct1' = length ct1 /\
    forall k, (k < pn)%nat -> ct1' !! k = Some (dft_direct sgn pn (elems ct0) k).
Proof.
  intros (Hx & H0 & H1 & Hy & Hf & Hs0 & Hs1) Hl0 Hl1. separate.
  destruct (fft_execute_spec s0 P t0 t1 (Plan.direction r) F0 h ct0 ct1)
    as (h' & ct1' & E & H1' & Hlen & Hval & Hs0' & Hfr); try assumption; try congruence.
  exists h', ct1'. split; [exact E|]. split; [|split; assumption].
  unfold exec_state.
  rewrite (Hfr xs), (Hfr t0), (Hfr (Plan.y r)) by first [assumption | congruence].
  split; [assumption|]. split; [assumption|]. split; [assumption|].
  split; [assumption|]. split; [|split]; try assumption.
  - intros p Hp. pose proof (proj1 (not_in_scratch _ _ _ _) Hp) as (? & ? & ? & ? & ? & ?).
    rewrite Hfr by first [assumption | congruence]. apply Hf, Hp.
  - eapply subplan_ok_frame; [exact Hs1|]. intros p Hp.
    apply Hfr; [congruence | intros Hp'; apply (Hd p); assumption].
Qed.

Lemma state_execute1 cx ct0 ct1 cy h :
  state cx ct0 ct1 cy h ->
  (qn <= length ct0)%nat -> (qn <= length ct1)%nat ->
  exists h' ct1',
    fft_execute s1 h = Ret tt h' /\
    state cx ct0 ct1' cy h' /\
    length ct1' = length ct1 /\
    forall k, (k < qn)%nat -> ct1' !! k = Some (dft_direct sgn qn (elems ct0) k).
Proof.
  intros (Hx & H0 & H1 & Hy & Hf & Hs0 & Hs1) Hl0 Hl1. separate.
  destruct (fft_execute_spec s1 Q t0 t1 (Plan.direction r) F1 h ct0 ct1)
    as (h' & ct1' & E & H1' & Hlen & Hval & Hs1' & Hfr); try assumption; try congruence.
  exists h', ct1'. split; [exact E|]. split; [|split; assumption].
  unfold exec_state.
  rewrite (Hfr xs), (Hfr t0), (Hfr (Plan.y r)) by first [assumption | congruence].
  split; [assumption|]. split; [assumption|]. split; [assumption|].
  split; [assumption|]. split; [|split]; try assumption.
  - intros p Hp. pose proof (proj1 (not_in_scratch _ _ _ _) Hp) as (? & ? & ? & ? & ? & ?).
    rewrite Hfr by first [assumption | congruence]. apply Hf, Hp.
  - eapply subplan_ok_frame; [exact Hs0|]. intros p Hp.
    apply Hfr; [congruence | intros Hp'; apply (Hd p); assumption].
Qed.

(** ** The loops over [k] *)

Lemma gather_column_ok i cx ct0 ct1 cy h :
  state cx ct0 ct1 cy h -> (i < qn)%nat ->
  length cx = (pn * qn)%nat -> (pn <= length ct0)%nat ->
  for_ 0 P (fun k =>
    let* v := read xs (decimate_index Q k (Z.of_nat i)) in
    write t0 k v) h =
  Ret tt (<[t0 := OArr (scatter (fun k => k) (fun k => elems cx (qn * k + i)) pn O ct0)]> h).
Proof.
  intros Hs Hi Hlx Hl0. destruct exec_sizes as (HP & HQ & Hb & HN).
  pose proof Hs as (Hx & H0 & _).
  apply for_scatter; [clear - HP HQ; lia | exact H0 |].
  intros k l' Hk Hl'.
  destruct (decimate_index_nat P Q k i) as [Ei Hlt]; try (clear - HP HQ Hb Hk Hi; lia).
  separate.
  assert (Er : read xs (decimate_index Q (Z.of_nat k) (Z.of_nat i)) (<[t0 := OArr l']> h)
               = Ret (elems cx (qn * k + i)) (<[t0 := OArr l']> h)).
  { apply read_ok with cx.
    - rewrite lookup_insert_ne by ne. exact Hx.
    - rewrite Ei. apply Nat2Z.is_nonneg.
    - rewrite Ei, Nat2Z.id. apply lookup_elems. rewrite Hlx. exact Hlt. }
  rewrite (bind_Ret _ _ _ _ _ Er).
  rewrite (write_ok t0 _ _ _ l'); [| apply lookup_insert_eq | clear - Hk Hl' Hl0; lia].
  rewrite Nat2Z.id, insert_insert_eq. reflexivity.
Qed.

Lemma scatter_column_ok i cx ct0 ct1 cy h :
  state cx ct0 ct1 cy h -> (i < qn)%nat ->
  length cx = (pn * qn)%nat -> (pn <= length ct1)%nat ->
  for_ 0 P (fun k =>
    let* a := read t1 k in
    let* w := read (Plan.twiddle r) (twiddle_index (Z.of_nat i) k) in
    write xs (decimate_index Q k (Z.of_nat i)) (Cmul a w)) h =
  Ret tt (<[xs := OArr (scatter (fun k => qn * k + i)%nat
                          (fun k => Cmul (elems ct1 k) (root sgn (pn * qn) (i * k)))
                          pn O cx)]> h).
Proof.
  intros Hs Hi Hlx Hl1. destruct exec_sizes as (HP & HQ & Hb & HN).
  pose proof Hs as (Hx & H0 & H1 & _).
  pose proof (state_twiddle _ _ _ _ _ Hs) as Ht.
  apply for_scatter; [clear - HP HQ; lia | exact Hx |].
  intros k l' Hk Hl'.
  destruct (decimate_index_nat P Q k i) as [Ei Hlt]; try (clear - HP HQ Hb Hk Hi; lia).
  destruct (twiddle_index_nat P Q i k) as [Et Hlt']; try (clear - HP HQ Hb Hk Hi; lia).
  separate.
  assert (Er : read t1 (Z.of_nat k) (<[xs := OArr l']> h)
               = Ret (elems ct1 k) (<[xs := OArr l']> h)).
  { apply read_ok with ct1.
    - rewrite lookup_insert_ne by ne. exact H1.
    - apply Nat2Z.is_nonneg.
    - rewrite Nat2Z.id. apply lookup_elems. clear - Hk Hl1. lia. }
  rewrite (bind_Ret _ _ _ _ _ Er).
  assert (Ew : read (Plan.twiddle r) (twiddle_index (Z.of_nat i) (Z.of_nat k))
                 (<[xs := OArr l']> h)
               = Ret (root sgn (pn * qn) (i * k)) (<[xs := OArr l']> h)).
  { apply read_ok with atw.
    - rewrite lookup_insert_ne by ne. exact Ht.
    - rewrite Et. apply Nat2Z.is_nonneg.
    - rewrite Et, Htw_val by (rewrite HN; clear - Hlt'; lia).
      rewrite HN, twiddle_factor_root. reflexivity. }
  rewrite (bind_Ret _ _ _ _ _ Ew).
  rewrite (write_ok xs _ _ _ l'); [| apply lookup_insert_eq | rewrite Ei, Hl', Hlx; clear - Hlt; lia].
  rewrite Ei, Nat2Z.id, insert_insert_eq. reflexivity.
Qed.

Lemma gather_row_ok i cx ct0 ct1 cy h :
  state cx ct0 ct1 cy h -> (i < pn)%nat ->
  length cx = (pn * qn)%nat -> (qn <= length ct0)%nat ->
  for_ 0 Q (fun k =>
    let* v := read xs (row_index Q (Z.of_nat i) k) in
    write t0 k v) h =
  Ret tt (<[t0 := OArr (scatter (fun k => k) (fun k => elems cx (qn * i + k)) qn O ct0)]> h).
Proof.
  intros Hs Hi Hlx Hl0. destruct exec_sizes as (HP & HQ & Hb & HN).
  pose proof Hs as (Hx & H0 & _).
  apply for_scatter; [clear - HP HQ; lia | exact H0 |].
  intros k l' Hk Hl'.
  destruct (row_index_nat P Q i k) as [Ei Hlt]; try (clear - HP HQ Hb Hk Hi; lia).
  separate.
  assert (Er : read xs (row_index Q (Z.of_nat i) (Z.of_nat k)) (<[t0 := OArr l']> h)
               = Ret (elems cx (qn * i + k)) (<[t0 := OArr l']> h)).
  { apply read_ok with cx.
    - rewrite lookup_insert_ne by ne. exact Hx.
    - rewrite Ei. apply Nat2Z.is_nonneg.
    - rewrite Ei, Nat2Z.id. apply lookup_elems. rewrite Hlx. exact Hlt. }
  rewrite (bind_Ret _ _ _ _ _ Er).
  rewrite (write_ok t0 _ _ _ l'); [| apply lookup_insert_eq | clear - Hk Hl' Hl0; lia].
  rewrite Nat2Z.id, insert_insert_eq. reflexivity.
Qed.

Lemma transpose_row_ok i cx ct0 ct1 cy h :
  state cx ct0 ct1 cy h -> (i < pn)%nat ->
  (pn * qn <= length cy)%nat -> (qn <= length ct1)%nat ->
  for_ 0 Q (fun k =>
    let* v := read t1 k in
    let* _y := get q Plan.y in
    write _y (transpose_index P k (Z.of_nat i)) v) h =
  Ret tt (<[Plan.y r := OArr (scatter (fun k => k * pn + i)%nat
                                (fun k => elems ct1 k) qn O cy)]> h).
Proof.
  intros Hs Hi Hly Hl1. destruct exec_sizes as (HP & HQ & Hb & HN).
  pose proof Hs as (Hx & H0 & H1 & Hy & _).
  pose proof (state_record _ _ _ _ _ Hs) as Hr.
  apply for_scatter; [clear - HP HQ; lia | exact Hy |].
  intros k l' Hk Hl'.
  destruct (transpose_index_nat P Q k i) as [Ei Hlt]; try (clear - HP HQ Hb Hk Hi; lia).
  separate.
  assert (Er : read t1 (Z.of_nat k) (<[Plan.y r := OArr l']> h)
               = Ret (elems ct1 k) (<[Plan.y r := OArr l']> h)).
  { apply read_ok with ct1.
    - rewrite lookup_insert_ne by ne. exact H1.
    - apply Nat2Z.is_nonneg.
    - rewrite Nat2Z.id. apply lookup_elems. clear - Hk Hl1. lia. }
  rewrite (bind_Ret _ _ _ _ _ Er).
  assert (Eg : get q Plan.y (<[Plan.y r := OArr l']> h)
               = Ret (Plan.y r) (<[Plan.y r := OArr l']> h)).
  { apply get_ok. rewrite lookup_insert_ne by ne. exact Hr. }
  rewrite (bind_Ret _ _ _ _ _ Eg).
  rewrite (write_ok (Plan.y r) _ _ _ l'); [| apply lookup_insert_eq | rewrite Ei, Hl'; clear - Hlt Hly; lia].
  rewrite Ei, Nat2Z.id, insert_insert_eq. reflexivity.
Qed.

(** ** One round of each pass *)

Lemma pass1_round i h :
  (i < qn)%nat ->
  pass1_inv subplan_ok r F0 F1 s0 s1 h0 a b i h ->
  exists h',
    (for_ 0 P (fun k =>
       let* v := read xs (decimate_index Q k (Z.of_nat i)) in
       write t0 k v) ;;;
     let* subplans := get q Plan.subplans in
     let* s0 := read_plan subplans 0 in
     fft_execute s0 ;;;
     for_ 0 P (fun k =>
       let* a := read t1 k in
       let* w := read (Plan.twiddle r) (twiddle_index (Z.of_nat i) k) in
       write xs (decimate_index Q k (Z.of_nat i)) (Cmul a w))) h = Ret tt h' /\
    pass1_inv subplan_ok r F0 F1 s0 s1 h0 a b (S i) h'.
Proof.
  intros Hi (cx & ct0 & ct1 & Hs & Hlx & Hm0 & Hm1 & Hcx).
  destruct exec_sizes as (HP & HQ & Hb & HN).
  assert ((pn <= length ct0)%nat /\ (qn <= length ct0)%nat /\
          (pn <= length ct1)%nat /\ (qn <= length ct1)%nat) as (Hp0 & Hq0 & Hp1 & Hq1)
    by (clear - Hm0 Hm1 HP HQ; lia).
  pose proof (gather_column_ok i _ _ _ _ _ Hs Hi Hlx Hp0) as E1.
  set (ct0' := scatter (fun k => k) (fun k => elems cx (qn * k + i)) pn O ct0) in E1.
  assert (Hl0' : length ct0' = length ct0) by apply scatter_length.
  pose proof (state_store_t0 _ _ _ _ _ ct0' Hs) as Hs1.
  destruct (state_execute0 _ _ _ _ _ Hs1) as (h2 & ct1' & E2 & Hs2 & Hl1' & Hval);
    [rewrite Hl0'; exact Hp0 | exact Hp1 |].
  assert (Hp1' : (pn <= length ct1')%nat) by (rewrite Hl1'; exact Hp1).
  pose proof (scatter_column_ok i _ _ _ _ _ Hs2 Hi Hlx Hp1') as E3.
  set (cx' := scatter (fun k => (qn * k + i)%nat)
                (fun k => Cmul (elems ct1' k) (root sgn (pn * qn) (i * k))) pn O cx) in E3.
  exists (<[xs := OArr cx']> h2). split.
  - rewrite (bind_Ret _ _ _ _ _ E1).
    rewrite (bind_Ret _ _ _ _ _ (get_ok q Plan.subplans _ r (state_record _ _ _ _ _ Hs1))).
    rewrite (bind_Ret _ _ _ _ _
      (read_plan_ok _ 0 _ _ s0 (state_subplans _ _ _ _ _ Hs1) (Z.le_refl 0) eq_refl)).
    rewrite (bind_Ret _ _ _ _ _ E2). exact E3.
  - exists cx', ct0', ct1'. split; [apply state_store_x with cx; exact Hs2|].
    split; [unfold cx'; rewrite scatter_length; exact Hlx|].
    rewrite Hl0', Hl1'. do 2 (split; [assumption|]).
    intros j Hj. unfold stage1.
    assert (Hqn : (0 < qn)%nat) by (clear - HQ; lia).
    destruct (decide ((j mod qn)%nat = i)) as [Hmod | Hmod].
    + assert (Ej : j = (qn * (j / qn) + i)%nat)
        by (rewrite <- Hmod; apply Nat.div_mod; clear - Hqn; lia).
      assert (Hk : (j / qn < pn)%nat).
      { apply Nat.Div0.div_lt_upper_bound. rewrite Nat.mul_comm. exact Hj. }
      rewrite Hmod. destruct (Nat.ltb_spec i (S i)) as [_ | Hbad]; [|clear - Hbad; lia].
      rewrite Ej at 1. unfold cx'.
      rewrite (scatter_lookup_in (fun k => (qn * k + i)%nat) _ pn O cx (j / qn)%nat).
      * f_equal. unfold pass1. f_equal.
        rewrite (elems_lookup _ _ _ (Hval _ Hk)).
        apply dft_direct_ext. intros n Hn.
        assert (Hn' : (qn * n + i < pn * qn)%nat) by (clear - Hn Hi; nia).
        assert (E0 : ct0' !! n = Some (elems cx (qn * n + i))).
        { unfold ct0'.
          apply (scatter_lookup_in (fun k => k) (fun k => elems cx (qn * k + i)) pn O ct0 n).
          - intros ? ? _ _ E. exact E.
          - clear - Hn. lia.
          - clear - Hn Hp0. lia. }
        rewrite (elems_lookup _ _ _ E0), (elems_lookup _ _ _ (Hcx _ Hn')).
        unfold stage1. destruct (divmod_strided qn n i Hi) as [-> _].
        destruct (Nat.ltb_spec i i) as [Hbad | _]; [clear - Hbad; lia | reflexivity].
      * intros k1 k2 _ _ E. apply (strided_inj qn i); assumption.
      * clear - Hk. lia.
      * rewrite <- Ej, Hlx. exact Hj.
    + unfold cx'. rewrite scatter_lookup_out.
      * rewrite (Hcx _ Hj). unfold stage1.
        destruct (Nat.ltb_spec (j mod qn)%nat i) as [Hlt1 | Hlt1],
                 (Nat.ltb_spec (j mod qn)%nat (S i)) as [Hlt2 | Hlt2];
          first [reflexivity | exfalso; clear - Hmod Hlt1 Hlt2; lia].
      * intros k _ E. apply Hmod. rewrite <- E.
        apply (divmod_strided qn k i Hi).
Qed.

Lemma pass2_round i h :
  (i < pn)%nat ->
  pass2_inv subplan_ok r F0 F1 s0 s1 h0 a b i h ->
  exists h',
    (for_ 0 Q (fun k =>
       let* v := read xs (row_index Q (Z.of_nat i) k) in
       write t0 k v) ;;;
     let* subplans := get q Plan.subplans in
     let* s1 := read_plan subplans 1 in
     fft_execute s1 ;;;
     for_ 0 Q (fun k =>
       let* v := read t1 k in
       let* _y := get q Plan.y in
       write _y (transpose_index P k (Z.of_nat i)) v)) h = Ret tt h' /\
    pass2_inv subplan_ok r F0 F1 s0 s1 h0 a b (S i) h'.
Proof.
  intros Hi (cx & ct0 & ct1 & cy & Hs & Hlx & Hm0 & Hm1 & Hly & Hcx & Hcy).
  destruct exec_sizes as (HP & HQ & Hb & HN).
  assert ((pn <= length ct0)%nat /\ (qn <= length ct0)%nat /\
          (pn <= length ct1)%nat /\ (qn <= length ct1)%nat) as (Hp0 & Hq0 & Hp1 & Hq1)
    by (clear - Hm0 Hm1 HP HQ; lia).
  assert (Hlb : (pn * qn <= length b)%nat).
  { pose proof (ok_out_length _ _ _ _ _ _ _ Hbuf) as Hl. rewrite HN in Hl.
    clear - Hl. lia. }
  pose proof (gather_row_ok i _ _ _ _ _ Hs Hi Hlx Hq0) as E1.
  set (ct0' := scatter (fun k => k) (fun k => elems cx (qn * i + k)) qn O ct0) in E1.
  assert (Hl0' : length ct0' = length ct0) by apply scatter_length.
  pose proof (state_store_t0 _ _ _ _ _ ct0' Hs) as Hs1.
  destruct (state_execute1 _ _ _ _ _ Hs1) as (h2 & ct1' & E2 & Hs2 & Hl1' & Hval);
    [rewrite Hl0'; exact Hq0 | exact Hq1 |].
  assert (Hq1' : (qn <= length ct1')%nat) by (rewrite Hl1'; exact Hq1).
  assert (Hly' : (pn * qn <= length cy)%nat) by (rewrite Hly; exact Hlb).
  pose proof (transpose_row_ok i _ _ _ _ _ Hs2 Hi Hly' Hq1') as E3.
  set (cy' := scatter (fun k => (k * pn + i)%nat) (fun k => elems ct1' k) qn O cy) in E3.
  exists (<[Plan.y r := OArr cy']> h2). split.
  - rewrite (bind_Ret _ _ _ _ _ E1).
    rewrite (bind_Ret _ _ _ _ _ (get_ok q Plan.subplans _ r (state_record _ _ _ _ _ Hs1))).
    rewrite (bind_Ret _ _ _ _ _
      (read_plan_ok _ 1 _ _ s1 (state_subplans _ _ _ _ _ Hs1) ltac:(lia) eq_refl)).
    rewrite (bind_Ret _ _ _ _ _ E2). exact E3.
  - exists cx, ct0', ct1', cy'. split; [apply state_store_y with cy; exact Hs2|].
    split; [exact Hlx|]. rewrite Hl0', Hl1'. do 2 (split; [assumption|]).
    split; [unfold cy'; rewrite scatter_length; exact Hly|]. split; [exact Hcx|].
    intros m. unfold stage2.
    assert (Hpn : (0 < pn)%nat) by (clear - HP; lia).
    destruct (decide ((m < pn * qn)%nat /\ (m mod pn)%nat = i)) as [[Hm Hmod] | Hout].
    + assert (Em : m = (m / pn * pn + i)%nat).
      { rewrite <- Hmod, (Nat.mul_comm (m / pn)). apply Nat.div_mod. clear - Hpn; lia. }
      assert (Hk : (m / pn < qn)%nat).
      { apply Nat.Div0.div_lt_upper_bound. exact Hm. }
      destruct (Nat.ltb_spec m (pn * qn)) as [_ | Hbad]; [|clear - Hbad Hm; lia].
      rewrite Hmod. destruct (Nat.ltb_spec i (S i)) as [_ | Hbad]; [|clear - Hbad; lia].
      simpl. rewrite Em at 1. unfold cy'.
      rewrite (scatter_lookup_in (fun k => (k * pn + i)%nat) _ qn O cy (m / pn)%nat).
      * f_equal. unfold pass2.
        rewrite (elems_lookup _ _ _ (Hval _ Hk)).
        apply dft_direct_ext. intros n Hn.
        assert (Hn' : (qn * i + n < pn * qn)%nat) by (clear - Hn Hi; nia).
        assert (E0 : ct0' !! n = Some (elems cx (qn * i + n))).
        { unfold ct0'.
          apply (scatter_lookup_in (fun k => k) (fun k => elems cx (qn * i + k)) qn O ct0 n).
          - intros ? ? _ _ E. exact E.
          - clear - Hn. lia.
          - clear - Hn Hq0. lia. }
        rewrite (elems_lookup _ _ _ E0), (elems_lookup _ _ _ (Hcx _ Hn')).
        unfold stage1. destruct (divmod_strided qn i n Hn) as [-> ->].
        destruct (Nat.ltb_spec n qn) as [_ | Hbad]; [reflexivity | clear - Hbad Hn; lia].
      * intros k1 k2 _ _ E. clear - E Hpn. nia.
      * clear - Hk. lia.
      * rewrite <- Em, Hly. clear - Hm Hlb. lia.
    + unfold cy'. rewrite scatter_lookup_out.
      * rewrite Hcy. unfold stage2.
        destruct (Nat.ltb_spec m (pn * qn)) as [Hm | Hm]; [|reflexivity]. simpl.
        destruct (Nat.ltb_spec (m mod pn)%nat i) as [Hlt1 | Hlt1],
                 (Nat.ltb_spec (m mod pn)%nat (S i)) as [Hlt2 | Hlt2];
          first [reflexivity
                | exfalso; clear - Hlt1 Hlt2; lia
                | exfalso; apply Hout; split; [exact Hm|]; clear - Hlt1 Hlt2; lia].
      * intros k Hk E. apply Hout. rewrite <- E. split.
        -- clear - Hk Hi. nia.
        -- apply (divmod_transposed pn k i Hi).
Qed.

(** ** The whole run *)

Lemma execute_run :
  subplan_ok s0 P t0 t1 (Plan.direction r) F0 h0 ->
  subplan_ok s1 Q t0 t1 (Plan.direction r) F1 h0 ->
  exists h',
    execute_mixed_radix q h0 = Ret tt h' /\
    pass2_inv subplan_ok r F0 F1 s0 s1 h0 a b pn h'.
Proof.
  intros Hs0 Hs1. destruct exec_sizes as (HP & HQ & Hb & HN).
  pose proof Hok as [Hrec _ _ _ _ _ (ct0 & Ht0 & Hl0) (ct1 & Ht1 & Hl1) (cx & Hx & Hlx) _ _ _ _].
  pose proof Hbuf as [Hin Hout Hla Hlb _ _].
  assert (Hs : state cx ct0 ct1 b h0).
  { unfold exec_state. repeat split; assumption || reflexivity. }
  unfold execute_mixed_radix.
  rewrite (bind_Ret _ _ _ _ _ (get_ok q Plan.data _ r Hrec)).
  rewrite (bind_Ret _ _ _ _ _ (get_ok q Plan.twiddle _ r Hrec)).
  rewrite (bind_Ret _ _ _ _ _ (get_ok q Plan.x _ r Hrec)).
  rewrite (bind_Ret _ _ _ _ _ (get_ok q Plan.nfft _ r Hrec)).
  cbv zeta.
  assert (Em : memmove xs (Plan.x r) (Plan.nfft r) h0
               = Ret tt (<[xs := OArr (take (pn * qn) a)]> h0)).
  { rewrite (memmove_ok _ _ _ _ cx a Hx Hin) by (clear - HN Hla Hlx; lia).
    rewrite HN, Nat2Z.id, drop_ge, app_nil_r by (clear - HN Hlx; lia). reflexivity. }
  rewrite (bind_Ret _ _ _ _ _ Em).
  assert (Hlt : length (take (pn * qn) a) = (pn * qn)%nat).
  { rewrite length_take. clear - HN Hla. lia. }
  match goal with
  | |- context [bind (for_ 0 Q ?body) _] =>
      destruct (for_rule (pass1_inv subplan_ok r F0 F1 s0 s1 h0 a b) body Q
                  (<[xs := OArr (take (pn * qn) a)]> h0)) as (h1 & E1 & Hi1)
  end.
  - clear - HQ. lia.
  - exists (take (pn * qn) a), ct0, ct1.
    split; [apply state_store_x with cx; exact Hs|]. split; [exact Hlt|].
    do 2 (split; [assumption|]).
    intros j Hj. rewrite lookup_take_lt by exact Hj.
    unfold stage1. simpl. apply lookup_elems. clear - Hj HN Hla. lia.
  - intros j h1 Hj. apply pass1_round. exact Hj.
  - rewrite (bind_Ret _ _ _ _ _ E1).
    apply for_rule.
    + clear - HP. lia.
    + destruct Hi1 as (cx1 & ct01 & ct11 & Hst & Hlen & ? & ? & Hcx).
      exists cx1, ct01, ct11, b. do 4 (split; [assumption|]).
      split; [reflexivity|]. split; [exact Hcx|].
      intros m. unfold stage2.
      destruct (m <? pn * qn)%nat; reflexivity.
    + intros j h2 Hj. apply pass2_round. exact Hj.
Qed.

End Execute.

(** ** What [execute] does *)

Theorem execute_mixed_radix_spec `{Liquid} subplan_ok `{!LiquidSpec subplan_ok}
    q r F0 F1 h a b :
  plan_ok subplan_ok q r F0 F1 h ->
  buffers_ok q r F0 F1 h a b ->
  exists h' b',
    execute_mixed_radix q h = Ret tt h' /\
    h' !! Plan.y r = Some (OArr b') /\
    length b' = length b /\
    (forall m, (m < Z.to_nat (Plan.nfft r))%nat ->
       b' !! m = Some (dft_direct (twiddle_sign (Plan.direction r))
                         (Z.to_nat (Plan.nfft r)) (elems a) m)) /\
    (forall m, (Z.to_nat (Plan.nfft r) <= m)%nat -> b' !! m = b !! m) /\
    plan_ok subplan_ok q r F0 F1 h' /\
    (forall p, p ∉ scratch r F0 F1 -> h' !! p = h !! p).
Proof.
  intros Hok Hbuf.
  pose proof Hok as [Hrec Hn HP HQ HPQ Hdir _ _ _ (atw & Htw & Hltw & Htwv)
                     (s0 & s1 & Hsp & Hs0 & Hs1) Hnd Hdis].
  destruct (execute_run subplan_ok q r F0 F1 h a b atw s0 s1 Hok Hbuf Hsp Htw Htwv Hs0 Hs1)
    as (h' & E & cx & ct0 & ct1 & cy & Hst & Hlx & Hl0 & Hl1 & Hly & Hcx & Hcy).
  assert (HN : Z.to_nat (Plan.nfft r)
               = (Z.to_nat (MixedRadix.P (Plan.data r)) * Z.to_nat (MixedRadix.Q (Plan.data r)))%nat)
    by (rewrite <- HPQ; apply Z2Nat.inj_mul; lia).
  assert (Hpn : (0 < Z.to_nat (MixedRadix.P (Plan.data r)))%nat) by lia.
  assert (Hqn : (0 < Z.to_nat (MixedRadix.Q (Plan.data r)))%nat) by lia.
  exists h', cy. split; [exact E|].
  pose proof Hst as (Hx' & H0' & H1' & Hy' & Hfr & Hs0' & Hs1').
  split; [exact Hy'|]. split; [exact Hly|]. split; [|split; [|split]].
  - intros m Hm. rewrite Hcy. unfold stage2. rewrite HN in Hm |- *.
    destruct (Nat.ltb_spec m (Z.to_nat (MixedRadix.P (Plan.data r)) *
                              Z.to_nat (MixedRadix.Q (Plan.data r)))%nat) as [_ | Hbad];
      [|clear - Hm Hbad; lia].
    assert (Hmod : (m mod Z.to_nat (MixedRadix.P (Plan.data r))
                    < Z.to_nat (MixedRadix.P (Plan.data r)))%nat)
      by (apply Nat.mod_upper_bound; clear - Hpn; lia).
    apply Nat.ltb_lt in Hmod. rewrite Hmod. simpl. f_equal.
    rewrite cooley_tukey by (try apply twiddle_sign_is_sign; assumption).
    f_equal. rewrite (Nat.mul_comm (m / _)). symmetry. apply Nat.div_mod.
    clear - Hpn. lia.
  - intros m Hm. rewrite Hcy. unfold stage2. rewrite HN in Hm.
    destruct (Nat.ltb_spec m (Z.to_nat (MixedRadix.P (Plan.data r)) *
                              Z.to_nat (MixedRadix.Q (Plan.data r)))%nat) as [Hbad | _];
      [clear - Hm Hbad; lia | reflexivity].
  - constructor; try assumption.
    + eapply state_record; eassumption.
    + exists ct0. split; assumption.
    + exists ct1. split; assumption.
    + exists cx. split; [assumption|]. rewrite Hlx, <- HN. lia.
    + exists atw. split; [|split; assumption].
      eapply state_twiddle; eassumption.
    + exists s0, s1. split; [|split; assumption].
      eapply state_subplans; eassumption.
  - exact Hfr.
Qed.

(** * The factor scan *)

Lemma first_factor_from_spec cnt i N :
  2 <= i -> i + Z.of_nat cnt = N -> N < 2 ^ 32 ->
  let Q := first_factor_from cnt i N in
  (Q = 0 /\ forall j, i <= j < N -> N mod j <> 0) \/
  (i <= Q < N /\ N mod Q = 0 /\ forall j, i <= j < Q -> N mod j <> 0).
Proof.
  revert i. induction cnt as [|c IH]; intros i Hi Hc HN; simpl.
  - left. split; [reflexivity|]. intros j Hj. lia.
  - destruct (Z.eqb_spec (N mod i) 0) as [E | E].
    + right. split; [lia|]. split; [exact E|]. intros j Hj. lia.
    + unfold uadd. rewrite uint_small by lia.
      destruct (IH (i + 1) ltac:(lia) ltac:(lia) HN) as [[E0 Hno] | (Hr & Hd & Hno)].
      * left. split; [exact E0|]. intros j Hj.
        destruct (Z.eq_dec j i) as [-> | Hne]; [exact E | apply Hno; lia].
      * right. split; [lia|]. split; [exact Hd|]. intros j Hj.
        destruct (Z.eq_dec j i) as [-> | Hne]; [exact E | apply Hno; lia].
Qed.

Lemma first_factor_spec N :
  0 <= N < 2 ^ 32 ->
  (first_factor N = 0 /\ forall j, 2 <= j < N -> N mod j <> 0) \/
  (2 <= first_factor N < N /\ N mod first_factor N = 0 /\
   forall j, 2 <= j < first_factor N -> N mod j <> 0).
Proof.
  intros HN. unfold first_factor.
  destruct (Z_lt_le_dec N 2) as [Hlt | Hge].
  - replace (Z.to_nat (N - 2)) with O by lia. simpl.
    left. split; [reflexivity|]. intros j Hj. lia.
  - apply first_factor_from_spec; lia.
Qed.

Lemma mod_divide_iff N j : 2 <= j -> N mod j = 0 <-> (j | N).
Proof. intros Hj. apply Z.mod_divide. lia. Qed.

Lemma first_factor_zero N :
  0 <= N < 2 ^ 32 -> first_factor N = 0 <-> ~ composite N.
Proof.
  intros HN. destruct (first_factor_spec N HN) as [[E Hno] | (Hr & Hd & Hno)].
  - split; [|intros _; exact E]. intros _ (d & Hd & Hdiv).
    apply (Hno d Hd). apply mod_divide_iff; [lia | exact Hdiv].
  - split; [lia|]. intros Hc. exfalso. apply Hc.
    exists (first_factor N). split; [exact Hr|]. apply mod_divide_iff; [lia | exact Hd].
Qed.

Lemma first_factor_composite N :
  0 <= N < 2 ^ 32 -> composite N ->
  2 <= first_factor N < N /\ (first_factor N | N) /\
  (forall j, 2 <= j < first_factor N -> ~ (j | N)) /\
  2 <= N / first_factor N < 2 ^ 32 /\
  N / first_factor N * first_factor N = N.
Proof.
  intros HN Hc. destruct (first_factor_spec N HN) as [[E Hno] | (Hr & Hd & Hno)].
  - exfalso. apply (first_factor_zero N HN) in E. exact (E Hc).
  - assert (Hdiv : (first_factor N | N)) by (apply mod_divide_iff; [lia | exact Hd]).
    split; [exact Hr|]. split; [exact Hdiv|]. split.
    + intros j Hj Hjd. apply (Hno j Hj). apply mod_divide_iff; [lia | exact Hjd].
    + destruct Hdiv as [p Hp]. set (Q := first_factor N) in *.
      assert (E : N / Q = p) by (rewrite Hp; apply Z.div_mul; lia).
      rewrite E. split; [nia | lia].
Qed.

Lemma no_small_divisor_rel_prime n p :
  1 <= n < p ->
  (forall g, 2 <= g <= n -> (g | n) -> ~ (g | p)) ->
  rel_prime n p.
Proof.
  intros Hn Hno. apply Zis_gcd_intro; try apply Z.divide_1_l.
  intros x Hxn Hxp. apply Z.divide_abs_l.
  assert (Hgn : (Z.abs x | n)) by (apply Z.divide_abs_l; exact Hxn).
  assert (Hgp : (Z.abs x | p)) by (apply Z.divide_abs_l; exact Hxp).
  assert (Hle : Z.abs x <= n) by (apply Z.divide_pos_le; [lia | exact Hgn]).
  destruct (Z_lt_le_dec (Z.abs x) 2) as [Hlt | Hge].
  - assert (Z.abs x <> 0).
    { intros E0. rewrite E0 in Hgn. apply Z.divide_0_l in Hgn. lia. }
    replace (Z.abs x) with 1 by lia. apply Z.divide_refl.
  - exfalso. exact (Hno (Z.abs x) ltac:(lia) Hgn Hgp).
Qed.

(** The smallest divisor above 1 is a prime number. *)
Lemma first_factor_prime N :
  0 <= N < 2 ^ 32 -> composite N -> prime (first_factor N).
Proof.
  intros HN Hc.
  destruct (first_factor_composite N HN Hc) as (Hr & Hdiv & Hmin & _).
  apply prime_intro; [lia|]. intros n Hn.
  apply no_small_divisor_rel_prime; [exact Hn|].
  intros g Hg _ Hgq. apply (Hmin g ltac:(lia)).
  eapply Z.divide_trans; eassumption.
Qed.

(** Without a divisor in [[2, N)]: a prime number, or a number below 4. *)
Lemma not_composite_iff N : 0 <= N -> ~ composite N <-> prime N \/ N < 4.
Proof.
  intros HN. split.
  - intros Hnc. destruct (Z_lt_le_dec N 4) as [Hlt | Hge]; [right; exact Hlt | left].
    apply prime_intro; [lia|]. intros n Hn.
    apply no_small_divisor_rel_prime; [exact Hn|].
    intros g Hg _ HgN. apply Hnc. exists g. split; [lia | exact HgN].
  - intros [Hp | Hlt] (d & Hd & Hdiv).
    + destruct Hp as [_ Hrel]. destruct (Hrel d ltac:(lia)) as [_ _ Hg].
      specialize (Hg d (Z.divide_refl d) Hdiv).
      apply Z.divide_1_r_nonneg in Hg; lia.
    + assert (d <= N) by (apply Z.divide_pos_le; [lia | exact Hdiv]).
      assert (N = 3 /\ d = 2) as [-> ->] by lia.
      destruct Hdiv as [k Hk]. lia.
Qed.

(** * The builder *)

Lemma lookup_None_ne (h : heap) b c v : h !! b = None -> h !! c = Some v -> b <> c.
Proof. intros Hb Hc ->. rewrite Hb in Hc. discriminate. Qed.

Lemma create_plan_exits `{Liquid} _nfft _x _y _dir _flags h :
  first_factor _nfft = 0 ->
  exists q,
    create_plan_mixed_radix _nfft _x _y _dir _flags h =
      Exit 1 (<[q := OPlan (initial_plan _nfft _x _y _dir _flags)]> h) /\
    q <> NULL /\ h !! q = None.
Proof.
  intros E. unfold create_plan_mixed_radix.
  destruct (malloc_ok (OPlan (initial_plan _nfft _x _y _dir _flags)) h)
    as (q & Eq & Hq & Hfresh).
  exists q. split; [|split; assumption].
  unfold initial_plan in Eq. rewrite (bind_Ret _ _ _ _ _ Eq).
  rewrite (bind_Ret _ _ _ _ _ (get_ok q Plan.nfft _ _ (lookup_insert_eq _ _ _))).
  simpl. rewrite E. reflexivity.
Qed.

Lemma get_insert {A} q (f : Plan.plan_s -> A) r (h : heap) :
  get q f (<[q := OPlan r]> h) = Ret (f r) (<[q := OPlan r]> h).
Proof. apply get_ok. apply lookup_insert_eq. Qed.

Lemma set_insert q upd r (h : heap) :
  set q upd (<[q := OPlan r]> h) = Ret tt (<[q := OPlan (upd r)]> h).
Proof.
  rewrite (set_ok q upd _ r) by apply lookup_insert_eq.
  rewrite insert_insert_eq. reflexivity.
Qed.

(** An allocation next to the record [q]. *)
Lemma malloc_insert init q v (h : heap) :
  exists b,
    malloc init (<[q := v]> h) = Ret b (<[q := v]> (<[b := init]> h)) /\
    b <> NULL /\ b <> q /\ h !! b = None.
Proof.
  destruct (malloc_ok init (<[q := v]> h)) as (b & E & Hb & Hf).
  assert (Hne : b <> q) by (intros ->; rewrite lookup_insert_eq in Hf; discriminate).
  exists b. rewrite lookup_insert_ne in Hf by (apply not_eq_sym; exact Hne).
  split; [|repeat split; assumption].
  rewrite E. f_equal. apply insert_insert_ne. exact Hne.
Qed.

Lemma preserved_insert (h hk : heap) c v :
  (forall b, b ∈ dom h -> hk !! b = h !! b) -> h !! c = None ->
  forall b, b ∈ dom h -> <[c := v]> hk !! b = h !! b.
Proof.
  intros Hfr Hc b Hb. rewrite lookup_insert_ne; [apply Hfr, Hb|].
  intros ->. apply elem_of_dom in Hb. rewrite Hc in Hb. destruct Hb as [? Hb].
  discriminate.
Qed.

Lemma preserved_trans (h hk hk' : heap) :
  (forall b, b ∈ dom h -> hk !! b = h !! b) ->
  (forall b, b ∈ dom hk -> hk' !! b = hk !! b) ->
  forall b, b ∈ dom h -> hk' !! b = h !! b.
Proof.
  intros H1 H2 b Hb. rewrite H2; [apply H1, Hb|].
  apply elem_of_dom. rewrite H1 by exact Hb. apply elem_of_dom. exact Hb.
Qed.

Lemma preserved_lookup (h h' : heap) b v :
  (forall b, b ∈ dom h -> h' !! b = h !! b) -> h !! b = Some v -> h' !! b = Some v.
Proof.
  intros Hfr Hb. rewrite Hfr; [exact Hb|]. apply elem_of_dom. eexists. exact Hb.
Qed.

Lemma disjoint_lookup (F : gset ptr) (h : heap) b v :
  F ## dom h -> h !! b = Some v -> b ∉ F.
Proof.
  intros Hd Hb Hin. apply (Hd b Hin). apply elem_of_dom. eexists. exact Hb.
Qed.

Lemma subset_lookup_None (F : gset ptr) (h : heap) b :
  F ⊆ dom h -> h !! b = None -> b ∉ F.
Proof.
  intros Hs Hb Hin. apply Hs in Hin. apply elem_of_dom in Hin.
  rewrite Hb in Hin. destruct Hin as [? Hin]. discriminate.
Qed.

Ltac fields :=
  cbn beta iota zeta delta
    [Plan.nfft Plan.x Plan.y Plan.flags Plan.kind Plan.direction Plan.method
     Plan.execute Plan.data Plan.num_subplans Plan.subplans Plan.twiddle
     Plan.set_data Plan.set_num_subplans Plan.set_subplans Plan.set_twiddle
     MixedRadix.Q MixedRadix.P MixedRadix.t0 MixedRadix.t1 MixedRadix.x MixedRadix.zero
     MixedRadix.set_Q MixedRadix.set_P MixedRadix.set_t0 MixedRadix.set_t1
     MixedRadix.set_x initial_plan].

Ltac step E := rewrite (bind_Ret _ _ _ _ _ E); fields.

Ltac ne := first [assumption | apply not_eq_sym; assumption].

Ltac lk :=
  repeat first [rewrite lookup_insert_eq | rewrite lookup_insert_ne by ne];
  first [reflexivity | assumption].

Lemma twiddle_table_lookup d N i :
  0 <= i < N ->
  scatter (fun k => k) (fun k => twiddle_factor d (Z.of_nat k) N) (Z.to_nat N) O
          (replicate (Z.to_nat N) C0) !! Z.to_nat i =
  Some (twiddle_factor d i N).
Proof.
  intros Hi.
  rewrite (scatter_lookup_in (fun k => k)
             (fun k => twiddle_factor d (Z.of_nat k) N) (Z.to_nat N) O
             (replicate (Z.to_nat N) C0) (Z.to_nat i)).
  - rewrite Z2Nat.id by lia. reflexivity.
  - intros ? ? _ _ E. exact E.
  - lia.
  - rewrite length_replicate. lia.
Qed.

Lemma NoDup_six (a b c d e f : ptr) :
  a <> b -> a <> c -> a <> d -> a <> e -> a <> f ->
  b <> c -> b <> d -> b <> e -> b <> f ->
  c <> d -> c <> e -> c <> f -> d <> e -> d <> f -> e <> f ->
  NoDup [a; b; c; d; e; f].
Proof.
  intros. repeat (apply NoDup_cons_2;
    [rewrite ?not_elem_of_cons; repeat split; try assumption; apply not_elem_of_nil|]).
  apply NoDup_nil_2.
Qed.

Lemma create_plan_builds `{Liquid} subplan_ok `{!LiquidSpec subplan_ok}
    _nfft _x _y _dir _flags h :
  0 <= _nfft < 2 ^ 32 -> composite _nfft ->
  exists q h' t0 t1 x subplans twiddle F0 F1,
    create_plan_mixed_radix _nfft _x _y _dir _flags h = Ret q h' /\
    plan_ok subplan_ok q
      (built_plan _nfft _x _y _dir _flags t0 t1 x subplans twiddle) F0 F1 h' /\
    owned q (built_plan _nfft _x _y _dir _flags t0 t1 x subplans twiddle) F0 F1
      ## dom h /\
    (forall b, b ∈ dom h -> h' !! b = h !! b).
Proof.
  intros HN Hc.
  destruct (first_factor_composite _ HN Hc) as (HQ & HQd & HQmin & HP & HPQ).
  unfold built_plan.
  set (Q := first_factor _nfft) in *. set (P := _nfft / Q) in *.
  set (dir := if _dir =? FFT_FORWARD then FFT_FORWARD else FFT_REVERSE).
  assert (Hdir : dir = FFT_FORWARD \/ dir = FFT_REVERSE)
    by (unfold dir; destruct (_dir =? FFT_FORWARD); auto).
  unfold create_plan_mixed_radix.
  destruct (malloc_ok (OPlan (initial_plan _nfft _x _y _dir _flags)) h)
    as (q & Eq & Hq & Hhq).
  unfold initial_plan in Eq. rewrite (bind_Ret _ _ _ _ _ Eq). clear Eq. fold dir.
  step (get_insert q Plan.nfft
          (Plan.mk _nfft _x _y _flags LIQUID_FFT_DFT_1D dir LIQUID_FFT_METHOD_MIXED_RADIX
             execute_mixed_radix_fn MixedRadix.zero 0 NULL NULL) h).
  fold Q. destruct (Z.eqb_spec Q 0) as [E0 | _]; [lia|]. fold P.
  rewrite (bind_Ret _ _ _ _ _ (set_insert _ _ _ _)); fields.
  rewrite (bind_Ret _ _ _ _ _ (set_insert _ _ _ _)); fields.
  set (t_len := if Q >? P then Q else P).
  assert (Ht_len : t_len = Z.max P Q) by (unfold t_len; destruct (Z.gtb_spec Q P); lia).
  (* t0 *)
  unfold malloc_TC at 1.
  match goal with |- context [<[q := ?v]> h] =>
    destruct (malloc_insert (OArr (replicate (Z.to_nat t_len) C0)) q v h)
      as (t0 & E & Ht0 & Ht0q & Hht0) end.
  rewrite (bind_Ret _ _ _ _ _ E); fields. clear E.
  rewrite (bind_Ret _ _ _ _ _ (set_insert _ _ _ _)); fields.
  (* t1 *)
  unfold malloc_TC at 1.
  match goal with |- context [<[q := ?v]> ?g] =>
    destruct (malloc_insert (OArr (replicate (Z.to_nat t_len) C0)) q v g)
      as (t1 & E & Ht1 & Ht1q & Hht1) end.
  rewrite (bind_Ret _ _ _ _ _ E); fields. clear E.
  rewrite (bind_Ret _ _ _ _ _ (set_insert _ _ _ _)); fields.
  assert (Ht10 : t1 <> t0) by (intros ->; rewrite lookup_insert_eq in Hht1; discriminate).
  rewrite lookup_insert_ne in Hht1 by ne.
  (* the staging buffer *)
  rewrite (bind_Ret _ _ _ _ _ (get_insert _ _ _ _)); fields.
  unfold malloc_TC at 1.
  match goal with |- context [<[q := ?v]> ?g] =>
    destruct (malloc_insert (OArr (replicate (Z.to_nat _nfft) C0)) q v g)
      as (xs & E & Hxs & Hxsq & Hhxs) end.
  rewrite (bind_Ret _ _ _ _ _ E); fields. clear E.
  rewrite (bind_Ret _ _ _ _ _ (set_insert _ _ _ _)); fields.
  assert (Hxs1 : xs <> t1) by (intros ->; rewrite lookup_insert_eq in Hhxs; discriminate).
  rewrite lookup_insert_ne in Hhxs by ne.
  assert (Hxs0 : xs <> t0) by (intros ->; rewrite lookup_insert_eq in Hhxs; discriminate).
  rewrite lookup_insert_ne in Hhxs by ne.
  (* the table of sub-plans *)
  rewrite (bind_Ret _ _ _ _ _ (set_insert _ _ _ _)); fields.
  rewrite (bind_Ret _ _ _ _ _ (get_insert _ _ _ _)); fields.
  unfold malloc_plans.
  match goal with |- context [<[q := ?v]> ?g] =>
    destruct (malloc_insert (OPtrs (replicate (Z.to_nat 2) NULL)) q v g)
      as (sp & E & Hsp & Hspq & Hhsp) end.
  rewrite (bind_Ret _ _ _ _ _ E); fields. clear E.
  rewrite (bind_Ret _ _ _ _ _ (set_insert _ _ _ _)); fields.
  assert (Hspx : sp <> xs) by (intros ->; rewrite lookup_insert_eq in Hhsp; discriminate).
  rewrite lookup_insert_ne in Hhsp by ne.
  assert (Hsp1 : sp <> t1) by (intros ->; rewrite lookup_insert_eq in Hhsp; discriminate).
  rewrite lookup_insert_ne in Hhsp by ne.
  assert (Hsp0 : sp <> t0) by (intros ->; rewrite lookup_insert_eq in Hhsp; discriminate).
  rewrite lookup_insert_ne in Hhsp by ne.
  change (replicate (Z.to_nat 2) NULL) with [NULL; NULL].
  match goal with |- context [<[q := OPlan ?r]> ?g] =>
    set (rA := r); set (HA := <[q := OPlan r]> g) end.
  assert (HAq : HA !! q = Some (OPlan rA)) by (unfold HA; lk).
  assert (HAt0 : HA !! t0 = Some (OArr (replicate (Z.to_nat t_len) C0))) by (unfold HA; lk).
  assert (HAt1 : HA !! t1 = Some (OArr (replicate (Z.to_nat t_len) C0))) by (unfold HA; lk).
  assert (HAxs : HA !! xs = Some (OArr (replicate (Z.to_nat _nfft) C0))) by (unfold HA; lk).
  assert (HAsp : HA !! sp = Some (OPtrs [NULL; NULL])) by (unfold HA; lk).
  assert (FrA : forall b, b ∈ dom h -> HA !! b = h !! b).
  { unfold HA. repeat (apply preserved_insert; [|assumption]). reflexivity. }
  (* the sub-plan of size P *)
  step (get_ok q Plan.data HA rA HAq).
  step (get_ok q Plan.direction HA rA HAq).
  step (get_ok q Plan.flags HA rA HAq).
  destruct (fft_create_plan_spec P t0 t1 dir _flags HA)
    as (s0 & h5 & F0 & E & Hs0 & HF0 & Hfr5);
    [exact HP | exact Hdir | apply elem_of_dom; eexists; exact HAt0
    | apply elem_of_dom; eexists; exact HAt1 |].
  step E. clear E.
  pose proof (preserved_lookup _ _ _ _ Hfr5 HAq) as H5q.
  pose proof (preserved_lookup _ _ _ _ Hfr5 HAt0) as H5t0.
  pose proof (preserved_lookup _ _ _ _ Hfr5 HAt1) as H5t1.
  pose proof (preserved_lookup _ _ _ _ Hfr5 HAxs) as H5xs.
  pose proof (preserved_lookup _ _ _ _ Hfr5 HAsp) as H5sp.
  pose proof (preserved_trans _ _ _ FrA Hfr5) as Fr5.
  step (get_ok q Plan.subplans h5 rA H5q).
  rewrite (bind_Ret _ _ _ _ _ (write_plan_ok sp 0 s0 h5 [NULL; NULL] H5sp ltac:(simpl; lia))).
  change (<[Z.to_nat 0 := s0]> [NULL; NULL]) with [s0; NULL].
  set (h6 := <[sp := OPtrs [s0; NULL]]> h5).
  assert (H6q : h6 !! q = Some (OPlan rA)) by (unfold h6; lk).
  assert (H6t0 : h6 !! t0 = Some (OArr (replicate (Z.to_nat t_len) C0))) by (unfold h6; lk).
  assert (H6t1 : h6 !! t1 = Some (OArr (replicate (Z.to_nat t_len) C0))) by (unfold h6; lk).
  assert (H6xs : h6 !! xs = Some (OArr (replicate (Z.to_nat _nfft) C0))) by (unfold h6; lk).
  assert (H6sp : h6 !! sp = Some (OPtrs [s0; NULL])) by (unfold h6; lk).
  assert (Fr6 : forall b, b ∈ dom h -> h6 !! b = h !! b)
    by (unfold h6; apply preserved_insert; assumption).
  assert (HspF0 : sp ∉ F0) by (eapply disjoint_lookup; eassumption).
  assert (Hs0_6 : subplan_ok s0 P t0 t1 dir F0 h6).
  { eapply subplan_ok_frame; [exact Hs0|]. intros b Hb. unfold h6.
    apply lookup_insert_ne. intros ->. exact (HspF0 Hb). }
  (* the sub-plan of size Q *)
  step (get_ok q Plan.data h6 rA H6q).
  step (get_ok q Plan.direction h6 rA H6q).
  step (get_ok q Plan.flags h6 rA H6q).
  destruct (fft_create_plan_spec Q t0 t1 dir _flags h6)
    as (s1 & h7 & F1 & E & Hs1 & HF1 & Hfr7);
    [clear - HQ HN; lia | exact Hdir | apply elem_of_dom; eexists; exact H6t0
    | apply elem_of_dom; eexists; exact H6t1 |].
  step E. clear E.
  pose proof (preserved_lookup _ _ _ _ Hfr7 H6q) as H7q.
  pose proof (preserved_lookup _ _ _ _ Hfr7 H6t0) as H7t0.
  pose proof (preserved_lookup _ _ _ _ Hfr7 H6t1) as H7t1.
  pose proof (preserved_lookup _ _ _ _ Hfr7 H6xs) as H7xs.
  pose proof (preserved_lookup _ _ _ _ Hfr7 H6sp) as H7sp.
  pose proof (preserved_trans _ _ _ Fr6 Hfr7) as Fr7.
  pose proof (subplan_ok_dom _ _ _ _ _ _ _ Hs0_6) as HF0dom.
  assert (Hs0_7 : subplan_ok s0 P t0 t1 dir F0 h7).
  { eapply subplan_ok_frame; [exact Hs0_6|]. intros b Hb. apply Hfr7, HF0dom, Hb. }
  assert (HF01 : F0 ## F1).
  { intros b Hb0 Hb1. apply (HF1 b Hb1). apply HF0dom, Hb0. }
  step (get_ok q Plan.subplans h7 rA H7q).
  rewrite (bind_Ret _ _ _ _ _ (write_plan_ok sp 1 s1 h7 [s0; NULL] H7sp ltac:(simpl; lia))).
  change (<[Z.to_nat 1 := s1]> [s0; NULL]) with [s0; s1].
  set (h8 := <[sp := OPtrs [s0; s1]]> h7).
  assert (H8q : h8 !! q = Some (OPlan rA)) by (unfold h8; lk).
  assert (H8t0 : h8 !! t0 = Some (OArr (replicate (Z.to_nat t_len) C0))) by (unfold h8; lk).
  assert (H8t1 : h8 !! t1 = Some (OArr (replicate (Z.to_nat t_len) C0))) by (unfold h8; lk).
  assert (H8xs : h8 !! xs = Some (OArr (replicate (Z.to_nat _nfft) C0))) by (unfold h8; lk).
  assert (H8sp : h8 !! sp = Some (OPtrs [s0; s1])) by (unfold h8; lk).
  assert (Fr8 : forall b, b ∈ dom h -> h8 !! b = h !! b)
    by (unfold h8; apply preserved_insert; assumption).
  assert (HspF1 : sp ∉ F1) by (eapply disjoint_lookup; eassumption).
  assert (Hs0_8 : subplan_ok s0 P t0 t1 dir F0 h8).
  { eapply subplan_ok_frame; [exact Hs0_7|]. intros b Hb. unfold h8.
    apply lookup_insert_ne. intros ->. exact (HspF0 Hb). }
  assert (Hs1_8 : subplan_ok s1 Q t0 t1 dir F1 h8).
  { eapply subplan_ok_frame; [exact Hs1|]. intros b Hb. unfold h8.
    apply lookup_insert_ne. intros ->. exact (HspF1 Hb). }
  (* the twiddle factors *)
  step (get_ok q Plan.nfft h8 rA H8q).
  unfold malloc_TC.
  destruct (malloc_ok (OArr (replicate (Z.to_nat _nfft) C0)) h8) as (tw & E & Htw & Hh8tw).
  step E. clear E.
  assert (Htwq : tw <> q) by (eapply lookup_None_ne; eassumption).
  assert (Htw0 : tw <> t0) by (eapply lookup_None_ne; eassumption).
  assert (Htw1 : tw <> t1) by (eapply lookup_None_ne; eassumption).
  assert (Htwx : tw <> xs) by (eapply lookup_None_ne; eassumption).
  assert (Htws : tw <> sp) by (eapply lookup_None_ne; eassumption).
  assert (HtwF0 : tw ∉ F0).
  { eapply subset_lookup_None; [|exact Hh8tw]. eapply subplan_ok_dom. exact Hs0_8. }
  assert (HtwF1 : tw ∉ F1).
  { eapply subset_lookup_None; [|exact Hh8tw]. eapply subplan_ok_dom. exact Hs1_8. }
  assert (Hhtw : h !! tw = None).
  { destruct (h !! tw) as [v|] eqn:Ev; [|reflexivity].
    rewrite <- Hh8tw. symmetry. rewrite Fr8 by (apply elem_of_dom; eexists; exact Ev).
    exact Ev. }
  set (h9 := <[tw := OArr (replicate (Z.to_nat _nfft) C0)]> h8).
  assert (H9q : h9 !! q = Some (OPlan rA)) by (unfold h9; lk).
  rewrite (bind_Ret _ _ _ _ _ (set_ok q _ h9 rA H9q)); fields.
  match goal with |- context [<[q := OPlan ?r]> h9] =>
    set (rF := r); set (h10 := <[q := OPlan r]> h9) end.
  assert (H10q : h10 !! q = Some (OPlan rF)) by (unfold h10, h9; lk).
  assert (H10tw : h10 !! tw = Some (OArr (replicate (Z.to_nat _nfft) C0)))
    by (unfold h10, h9; lk).
  step (get_ok q Plan.direction h10 rF H10q).
  step (get_ok q Plan.nfft h10 rF H10q).
  subst rF rA. fields. cbn [Plan.set_twiddle Plan.nfft Plan.x Plan.y Plan.flags
    Plan.kind Plan.direction Plan.method Plan.execute Plan.data Plan.num_subplans
    Plan.subplans Plan.twiddle] in H10q.
  match goal with |- context [bind (for_ 0 _nfft ?body)] =>
    assert (Hbody : forall k l', (k < Z.to_nat _nfft)%nat ->
              length l' = length (replicate (Z.to_nat _nfft) C0) ->
              body (Z.of_nat k) (<[tw := OArr l']> h10) =
              Ret tt (<[tw := OArr (<[k := twiddle_factor (twiddle_sign dir)
                                               (Z.of_nat k) _nfft]> l')]> h10))
  end.
  { intros k l' Hk Hl'. cbv beta.
    pose proof H10q as Hq'.
    rewrite <- (lookup_insert_ne h10 tw q (OArr l')) in Hq' by ne.
    step (get_ok q Plan.twiddle _ _ Hq').
    step (get_ok q Plan.nfft _ _ Hq').
    rewrite (write_ok tw (Z.of_nat k) _ (<[tw := OArr l']> h10) l'
               (lookup_insert_eq h10 tw (OArr l')))
      by (rewrite Hl', length_replicate; clear - Hk; lia).
    rewrite Nat2Z.id, insert_insert_eq. reflexivity. }
  rewrite (bind_Ret _ _ _ _ _
    (for_scatter tw (fun k => k)
       (fun k => twiddle_factor (twiddle_sign dir) (Z.of_nat k) _nfft)
       _ _nfft h10 _ HN H10tw Hbody)).
  set (tbl := scatter _ _ _ _ _).
  exists q, (<[tw := OArr tbl]> h10), t0, t1, xs, sp, tw, F0, F1.
  split; [reflexivity|].
  set (hf := <[tw := OArr tbl]> h10).
  assert (Hfq : hf !! q = Some (OPlan (Plan.mk _nfft _x _y _flags LIQUID_FFT_DFT_1D dir
            LIQUID_FFT_METHOD_MIXED_RADIX execute_mixed_radix_fn
            (MixedRadix.mk Q P t0 t1 xs) 2 sp tw)))
    by (unfold hf, h10; lk).
  assert (Hft0 : hf !! t0 = Some (OArr (replicate (Z.to_nat t_len) C0)))
    by (unfold hf, h10, h9; lk).
  assert (Hft1 : hf !! t1 = Some (OArr (replicate (Z.to_nat t_len) C0)))
    by (unfold hf, h10, h9; lk).
  assert (Hfxs : hf !! xs = Some (OArr (replicate (Z.to_nat _nfft) C0)))
    by (unfold hf, h10, h9; lk).
  assert (Hfsp : hf !! sp = Some (OPtrs [s0; s1])) by (unfold hf, h10, h9; lk).
  assert (Hftw : hf !! tw = Some (OArr tbl)) by (unfold hf; lk).
  assert (HqF0 : q ∉ F0) by (eapply disjoint_lookup; eassumption).
  assert (Ht0F0 : t0 ∉ F0) by (eapply disjoint_lookup; eassumption).
  assert (Ht1F0 : t1 ∉ F0) by (eapply disjoint_lookup; eassumption).
  assert (HxsF0 : xs ∉ F0) by (eapply disjoint_lookup; eassumption).
  assert (HqF1 : q ∉ F1) by (eapply disjoint_lookup; eassumption).
  assert (Ht0F1 : t0 ∉ F1) by (eapply disjoint_lookup; eassumption).
  assert (Ht1F1 : t1 ∉ F1) by (eapply disjoint_lookup; eassumption).
  assert (HxsF1 : xs ∉ F1) by (eapply disjoint_lookup; eassumption).
  assert (Hfr_sub : forall (F : gset ptr) b, q ∉ F -> tw ∉ F -> b ∈ F -> hf !! b = h8 !! b).
  { intros F b HqF HtwF Hb. unfold hf, h10, h9.
    rewrite !lookup_insert_ne; [reflexivity| | |]; intros ->; contradiction. }
  split; [|split].
  - constructor; fields.
    + exact Hfq.
    + clear - HN. lia.
    + clear - HP. lia.
    + clear - HQ. lia.
    + exact HPQ.
    + exact Hdir.
    + exists (replicate (Z.to_nat t_len) C0). split; [exact Hft0|].
      rewrite length_replicate. clear - HP HQ Ht_len. lia.
    + exists (replicate (Z.to_nat t_len) C0). split; [exact Hft1|].
      rewrite length_replicate. clear - HP HQ Ht_len. lia.
    + exists (replicate (Z.to_nat _nfft) C0). split; [exact Hfxs|].
      rewrite length_replicate. clear - HN. lia.
    + exists tbl. split; [exact Hftw|]. split.
      * unfold tbl. rewrite scatter_length, length_replicate. clear - HN. lia.
      * intros i Hi. apply twiddle_table_lookup. exact Hi.
    + exists s0, s1. split; [exact Hfsp|]. split.
      * eapply subplan_ok_frame; [exact Hs0_8|]. intros b. apply Hfr_sub; assumption.
      * eapply subplan_ok_frame; [exact Hs1_8|]. intros b. apply Hfr_sub; assumption.
    + apply NoDup_six; ne.
    + split; [exact HF01|]. intros b Hb. rewrite !elem_of_cons in Hb.
      rewrite not_elem_of_union.
      destruct Hb as [-> | [-> | [-> | [-> | [-> | [-> | Hb]]]]]];
        [split; assumption .. | inversion Hb].
  - unfold owned; fields. apply elem_of_disjoint. intros b Hb Hdom.
    assert (HbA : HA !! b = h !! b) by (apply FrA, Hdom).
    assert (Hb6 : h6 !! b = h !! b) by (apply Fr6, Hdom).
    apply elem_of_dom in Hdom. destruct Hdom as [v Hv].
    rewrite Hv in HbA, Hb6.
    rewrite !elem_of_union, !elem_of_singleton in Hb.
    destruct Hb as [[[[[[[-> | ->] | ->] | ->] | ->] | ->] | Hb] | Hb];
      try (rewrite Hv in *; discriminate).
    + exact (disjoint_lookup _ _ _ _ HF0 HbA Hb).
    + exact (disjoint_lookup _ _ _ _ HF1 Hb6 Hb).
  - unfold hf, h10, h9. do 3 (apply preserved_insert; [|assumption]). exact Fr8.
Qed.

(** * The reference implementation meets the interface *)

Lemma reference_spec : @LiquidSpec reference dft_plan_ok.
Proof.
  constructor.
  - simpl. lia.
  - intros s n i o d F h h' [-> (fl & Hs)] Hfr. split; [reflexivity|].
    exists fl. rewrite Hfr by (apply elem_of_singleton; reflexivity). exact Hs.
  - intros s n i o d F h [-> (fl & Hs)] b Hb.
    apply elem_of_singleton in Hb. subst b. apply elem_of_dom. eexists. exact Hs.
  - intros n i o d fl h Hn Hd Hi Ho. simpl. unfold dft_create_plan.
    destruct (malloc_ok (OPlan (dft_plan n i o d fl)) h) as (s & E & Hs & Hf).
    exists s, (<[s := OPlan (dft_plan n i o d fl)]> h), {[ s ]}.
    split; [exact E|]. split; [|split].
    + split; [reflexivity|]. exists fl. apply lookup_insert_eq.
    + intros b Hb Hdom. apply elem_of_singleton in Hb. subst b.
      apply elem_of_dom in Hdom. rewrite Hf in Hdom. destruct Hdom as [? Hdom].
      discriminate.
    + intros b Hb. apply lookup_insert_ne. intros ->.
      apply elem_of_dom in Hb. rewrite Hf in Hb. destruct Hb as [? Hb]. discriminate.
  - intros s n i o d F h a b [-> (fl & Hs)] Hi Ho Hio HiF HoF Hla Hlb.
    simpl. unfold dft_execute. rewrite Hs. simpl. rewrite Hi, Ho.
    destruct (Nat.leb_spec (Z.to_nat n) (length a)) as [_ | Hbad]; [|lia].
    destruct (Nat.leb_spec (Z.to_nat n) (length b)) as [_ | Hbad]; [|lia].
    simpl. eexists _, _. split; [reflexivity|].
    split; [apply lookup_insert_eq|]. split; [|split; [|split]].
    + rewrite length_app, length_map, length_seq, length_drop. lia.
    + intros k Hk. rewrite lookup_app_l by (rewrite length_map, length_seq; exact Hk).
      rewrite list_lookup_fmap, lookup_seq_lt by exact Hk. reflexivity.
    + split; [reflexivity|]. exists fl. rewrite lookup_insert_ne; [exact Hs|].
      intros ->. apply HoF. apply elem_of_singleton. reflexivity.
    + intros p Hp _. apply lookup_insert_ne. apply not_eq_sym. exact Hp.
Qed.

(** * Plans and heaps *)

Lemma owned_in_dom `{Liquid} subplan_ok `{!LiquidSpec subplan_ok} q r F0 F1 h :
  plan_ok subplan_ok q r F0 F1 h -> owned q r F0 F1 ⊆ dom h.
Proof.
  intros [Hrec _ _ _ _ _ (c0 & H0 & _) (c1 & H1 & _) (cx & Hx & _) (tw & Htw & _)
          (s0 & s1 & Hsp & Hs0 & Hs1) _ _].
  apply subplan_ok_dom in Hs0, Hs1. unfold owned. intros b Hb.
  rewrite !elem_of_union, !elem_of_singleton in Hb.
  destruct Hb as [[[[[[[-> | ->] | ->] | ->] | ->] | ->] | Hb] | Hb];
    try (apply elem_of_dom; eexists; eassumption).
  - apply Hs0, Hb.
  - apply Hs1, Hb.
Qed.

(** A plan stays built as long as the blocks it owns keep their size and, but
    for the three buffers, their contents. *)
Lemma plan_ok_frame `{Liquid} subplan_ok `{!LiquidSpec subplan_ok} q r F0 F1 h h' :
  plan_ok subplan_ok q r F0 F1 h ->
  (forall b, b ∈ owned q r F0 F1 -> h' !! b = h !! b) ->
  plan_ok subplan_ok q r F0 F1 h'.
Proof.
  intros [Hrec Hk1 Hk2 Hk3 Hk4 Hk5 (c0 & Hc0 & Hl0) (c1 & Hc1 & Hl1) (cx & Hx & Hlx)
          (tw & Htw & Hltw & Hvtw) (s0 & s1 & Hsp & Hs0 & Hs1) Hnd Hdj] Hfr.
  assert (Hin : forall b, b ∈ [q; MixedRadix.t0 (Plan.data r); MixedRadix.t1 (Plan.data r);
                               MixedRadix.x (Plan.data r); Plan.subplans r; Plan.twiddle r] ->
                          h' !! b = h !! b).
  { intros b Hb. apply Hfr. unfold owned. rewrite !elem_of_cons in Hb.
    rewrite !elem_of_union, !elem_of_singleton.
    destruct Hb as [-> | [-> | [-> | [-> | [-> | [-> | Hb]]]]]]; [tauto .. | inversion Hb]. }
  constructor; try assumption.
  - rewrite Hin by (rewrite !elem_of_cons; tauto). exact Hrec.
  - exists c0. rewrite Hin by (rewrite !elem_of_cons; tauto). split; assumption.
  - exists c1. rewrite Hin by (rewrite !elem_of_cons; tauto). split; assumption.
  - exists cx. rewrite Hin by (rewrite !elem_of_cons; tauto). split; assumption.
  - exists tw. rewrite Hin by (rewrite !elem_of_cons; tauto). repeat split; assumption.
  - exists s0, s1. rewrite Hin by (rewrite !elem_of_cons; tauto).
    split; [assumption|]. split.
    + eapply subplan_ok_frame; [exact Hs0|]. intros b Hb. apply Hfr.
      unfold owned. rewrite !elem_of_union. tauto.
    + eapply subplan_ok_frame; [exact Hs1|]. intros b Hb. apply Hfr.
      unfold owned. rewrite !elem_of_union. tauto.
Qed.

(** * The two plans of size 6 *)

Example create_forward6 :
  @create_plan_mixed_radix reference 6 1%nat 2%nat 1 0 caller_heap
  = Ret 4%nat forward_heap.
Proof. vm_compute. reflexivity. Qed.

Example create_inverse6 :
  @create_plan_mixed_radix reference 6 2%nat 3%nat (-1) 0 forward_heap
  = Ret 12%nat round_trip_heap.
Proof. vm_compute. reflexivity. Qed.

Ltac lookup_by_computation := vm_compute; reflexivity.

Ltac concrete_plan_ok t0v xv twv s0 s1 :=
  constructor;
  [ lookup_by_computation | compute_done | compute_done | compute_done | compute_done
  | first [left; reflexivity | right; reflexivity]
  | exists t0v; split; [lookup_by_computation | reflexivity]
  | exists t0v; split; [lookup_by_computation | reflexivity]
  | exists xv; split; [lookup_by_computation | reflexivity]
  | exists twv; split; [lookup_by_computation|]; split; [reflexivity|];
    let i := fresh "i" in let Hi := fresh "Hi" in
    intros i Hi; change (0 <= i < 6) in Hi;
    assert (i = 0 \/ i = 1 \/ i = 2 \/ i = 3 \/ i = 4 \/ i = 5)
      as [-> | [-> | [-> | [-> | [-> | ->]]]]] by lia; reflexivity
  | exists s0, s1; split; [lookup_by_computation|];
    split; (split; [reflexivity | exists 0; lookup_by_computation])
  | apply NoDup_six; compute_done
  | split; [compute_done|];
    let b := fresh "b" in let Hb := fresh "Hb" in
    intros b Hb; rewrite !elem_of_cons in Hb;
    destruct Hb as [-> | [-> | [-> | [-> | [-> | [-> | Hb]]]]]];
    [compute_done .. | inversion Hb] ].

Lemma forward6_ok :
  @plan_ok reference dft_plan_ok 4%nat forward6 {[ 9%nat ]} {[ 10%nat ]} forward_heap.
Proof.
  concrete_plan_ok (replicate 3 C0) (replicate 6 C0) (twiddles6 (-1)%R) 9%nat 10%nat.
Qed.

Lemma forward6_ok' :
  @plan_ok reference dft_plan_ok 4%nat forward6 {[ 9%nat ]} {[ 10%nat ]} round_trip_heap.
Proof.
  concrete_plan_ok (replicate 3 C0) (replicate 6 C0) (twiddles6 (-1)%R) 9%nat 10%nat.
Qed.

Lemma inverse6_ok :
  @plan_ok reference dft_plan_ok 12%nat inverse6 {[ 17%nat ]} {[ 18%nat ]} round_trip_heap.
Proof.
  concrete_plan_ok (replicate 3 C0) (replicate 6 C0) (twiddles6 1%R) 17%nat 18%nat.
Qed.

Ltac concrete_buffers_ok :=
  constructor;
  [ lookup_by_computation | lookup_by_computation | compute_done | compute_done
  | compute_done | compute_done ].

Lemma forward6_buffers :
  buffers_ok 4%nat forward6 {[ 9%nat ]} {[ 10%nat ]} forward_heap
    impulse6 (replicate 6 C0).
Proof. concrete_buffers_ok. Qed.

Lemma forward6_buffers' :
  buffers_ok 4%nat forward6 {[ 9%nat ]} {[ 10%nat ]} round_trip_heap
    impulse6 (replicate 6 C0).
Proof. concrete_buffers_ok. Qed.

Lemma inverse6_buffers :
  buffers_ok 12%nat inverse6 {[ 17%nat ]} {[ 18%nat ]} round_trip_heap
    (replicate 6 C0) (replicate 6 C0).
Proof. concrete_buffers_ok. Qed.

(** * The executor: the transform it computes *)

Lemma twiddle_sign_forward `{Liquid} d : d = FFT_FORWARD -> twiddle_sign d = (-1)%R.
Proof. intros ->. unfold twiddle_sign. rewrite Z.eqb_refl. reflexivity. Qed.

Lemma twiddle_sign_reverse `{Liquid} subplan_ok `{!LiquidSpec subplan_ok} d :
  d = FFT_REVERSE -> twiddle_sign d = 1%R.
Proof.
  intros ->. unfold twiddle_sign.
  destruct (Z.eqb_spec FFT_REVERSE FFT_FORWARD) as [E | _]; [|reflexivity].
  exfalso. apply FFT_FORWARD_neq_REVERSE. symmetry. exact E.
Qed.

(** C1. On a built plan of direction FORWARD, of size [N = P * Q] with
    [P, Q >= 2], whose two sub-plans compute the [P]-point and the [Q]-point
    transforms from the first scratch buffer into the second, [execute]
    returns and leaves in the output buffer the direct [N]-point transform of
    the input buffer: [output[m]] is the sum over [n < N] of
    [input[n] * exp(-2 pi i m n / N)], in exact complex arithmetic. *)
Theorem execute_forward_is_direct_dft `{Liquid} subplan_ok `{!LiquidSpec subplan_ok}
    q r F0 F1 h a b :
  plan_ok subplan_ok q r F0 F1 h ->
  buffers_ok q r F0 F1 h a b ->
  Plan.direction r = FFT_FORWARD ->
  exists h' b',
    execute_mixed_radix q h = Ret tt h' /\
    h' !! Plan.y r = Some (OArr b') /\
    length b' = length b /\
    forall m, (m < Z.to_nat (Plan.nfft r))%nat ->
      b' !! m = Some (dft_direct (-1) (Z.to_nat (Plan.nfft r)) (elems a) m).
Proof.
  intros Hok Hbuf Hdir.
  destruct (execute_mixed_radix_spec subplan_ok q r F0 F1 h a b Hok Hbuf)
    as (h' & b' & E & Hy & Hlen & Hval & _).
  exists h', b'. rewrite (twiddle_sign_forward _ Hdir) in Hval.
  repeat split; assumption.
Qed.

Lemma execute_forward_is_direct_dft_witness :
  @plan_ok reference dft_plan_ok 4%nat forward6 {[ 9%nat ]} {[ 10%nat ]} forward_heap /\
  buffers_ok 4%nat forward6 {[ 9%nat ]} {[ 10%nat ]} forward_heap
    impulse6 (replicate 6 C0) /\
  Plan.direction forward6 = @FFT_FORWARD reference /\
  exists h' b',
    @execute_mixed_radix reference 4%nat forward_heap = Ret tt h' /\
    h' !! 2%nat = Some (OArr b') /\
    length b' = 6%nat /\
    forall m, (m < 6)%nat -> b' !! m = Some (dft_direct (-1) 6 (elems impulse6) m).
Proof.
  split; [exact forward6_ok|]. split; [exact forward6_buffers|].
  split; [reflexivity|].
  exact (@execute_forward_is_direct_dft reference dft_plan_ok reference_spec
           4%nat forward6 {[ 9%nat ]} {[ 10%nat ]} forward_heap impulse6 (replicate 6 C0)
           forward6_ok forward6_buffers eq_refl).
Defined.

(** The transform of the unit impulse is the constant sequence 1. *)
Lemma impulse6_spectrum m : dft_direct (-1) 6 (elems impulse6) m = C1.
Proof.
  unfold dft_direct. rewrite (Csum_single 6 0).
  - rewrite Nat.mul_0_r, root_0. unfold elems, impulse6. simpl. ring.
  - lia.
  - intros i Hi Hne. unfold elems, impulse6.
    destruct i as [|[|[|[|[|[|i]]]]]]; try lia; simpl; ring.
Qed.

Example execute_impulse6 :
  exists h',
    @execute_mixed_radix reference 4%nat forward_heap = Ret tt h' /\
    h' !! 2%nat = Some (OArr [C1; C1; C1; C1; C1; C1]).
Proof.
  destruct (@execute_mixed_radix_spec reference dft_plan_ok reference_spec
              4%nat forward6 {[ 9%nat ]} {[ 10%nat ]} forward_heap impulse6 (replicate 6 C0)
              forward6_ok forward6_buffers) as (h' & b' & E & Hy & Hl & Hv & _).
  change (Z.to_nat (Plan.nfft forward6)) with 6%nat in Hv.
  change (@twiddle_sign reference (Plan.direction forward6)) with (-1)%R in Hv.
  change (Plan.y forward6) with 2%nat in Hy.
  exists h'. split; [exact E|]. rewrite Hy. do 2 f_equal.
  apply list_eq. intros m. destruct (Nat.lt_ge_cases m 6) as [Hm | Hm].
  - rewrite (Hv m Hm), impulse6_spectrum.
    destruct m as [|[|[|[|[|[|m]]]]]]; try lia; reflexivity.
  - rewrite (lookup_ge_None_2 b') by (rewrite Hl, length_replicate; exact Hm).
    rewrite lookup_ge_None_2 by exact Hm. reflexivity.
Qed.

(** * The executor: what it leaves alone *)

Lemma not_owned_not_scratch q r F0 F1 p :
  p ∉ owned q r F0 F1 -> p <> Plan.y r -> p ∉ scratch r F0 F1.
Proof.
  unfold owned, scratch. rewrite !not_elem_of_union, !not_elem_of_singleton. tauto.
Qed.

Lemma plan_fields_not_scratch `{Liquid} subplan_ok q r F0 F1 h a b :
  plan_ok subplan_ok q r F0 F1 h -> buffers_ok q r F0 F1 h a b ->
  q ∉ scratch r F0 F1 /\ Plan.subplans r ∉ scratch r F0 F1 /\
  Plan.twiddle r ∉ scratch r F0 F1.
Proof.
  intros Hok Hbuf.
  destruct (plan_separate _ _ _ _ _ _ _ _ Hok Hbuf) as (Hnd & Hnf & _).
  repeat match goal with
  | Hx : Forall _ (_ :: _) |- _ => apply Forall_cons in Hx; destruct Hx as [[? ?] Hx]
  end.
  repeat match goal with
  | Hx : NoDup (_ :: _) |- _ => apply NoDup_cons in Hx; destruct Hx as [? Hx]
  end.
  repeat match goal with
  | Hx : _ ∉ _ :: _ |- _ => apply not_elem_of_cons in Hx; destruct Hx as [? Hx]
  end.
  repeat split; apply not_in_scratch; repeat split;
    first [assumption | apply not_eq_sym; assumption].
Qed.

(** C7. On a built plan whose output buffer is not its input buffer,
    [execute] writes only to the staging buffer, the two scratch buffers, the
    output buffer and what the sub-plans own: the input buffer, the twiddle
    factors, the plan record (size, direction, [P], [Q], pointers) and the
    table of sub-plans are as before, and so is every other block.  The plan
    is still built afterwards, so this holds for every later call as well. *)
Theorem execute_frame `{Liquid} subplan_ok `{!LiquidSpec subplan_ok}
    q r F0 F1 h a b :
  plan_ok subplan_ok q r F0 F1 h ->
  buffers_ok q r F0 F1 h a b ->
  Plan.x r <> Plan.y r ->
  exists h',
    execute_mixed_radix q h = Ret tt h' /\
    h' !! Plan.x r = Some (OArr a) /\
    h' !! Plan.twiddle r = h !! Plan.twiddle r /\
    h' !! q = Some (OPlan r) /\
    h' !! Plan.subplans r = h !! Plan.subplans r /\
    (forall p, p ∉ scratch r F0 F1 -> h' !! p = h !! p) /\
    plan_ok subplan_ok q r F0 F1 h' /\
    exists b', buffers_ok q r F0 F1 h' a b'.
Proof.
  intros Hok Hbuf Hxy.
  destruct (execute_mixed_radix_spec subplan_ok q r F0 F1 h a b Hok Hbuf)
    as (h' & b' & E & Hy & Hlen & _ & _ & Hok' & Hfr).
  destruct (plan_fields_not_scratch _ _ _ _ _ _ _ _ Hok Hbuf) as (Hq & Hsp & Htw).
  pose proof Hbuf as [Hin Hout Hla Hlb Hxo Hyo].
  assert (Hx : Plan.x r ∉ scratch r F0 F1) by (apply (not_owned_not_scratch q); assumption).
  exists h'. split; [exact E|].
  split; [rewrite (Hfr _ Hx); exact Hin|].
  split; [apply Hfr, Htw|].
  split; [rewrite (Hfr _ Hq); apply Hok|].
  split; [apply Hfr, Hsp|]. split; [exact Hfr|]. split; [exact Hok'|].
  exists b'. constructor; try assumption.
  - rewrite (Hfr _ Hx). exact Hin.
  - rewrite Hlen. exact Hlb.
Qed.

Lemma execute_frame_witness :
  @plan_ok reference dft_plan_ok 4%nat forward6 {[ 9%nat ]} {[ 10%nat ]} forward_heap /\
  buffers_ok 4%nat forward6 {[ 9%nat ]} {[ 10%nat ]} forward_heap
    impulse6 (replicate 6 C0) /\
  Plan.x forward6 <> Plan.y forward6 /\
  exists h',
    @execute_mixed_radix reference 4%nat forward_heap = Ret tt h' /\
    h' !! 1%nat = Some (OArr impulse6) /\
    h' !! 11%nat = forward_heap !! 11%nat /\
    h' !! 4%nat = Some (OPlan forward6) /\
    h' !! 8%nat = forward_heap !! 8%nat /\
    (forall p, p ∉ scratch forward6 {[ 9%nat ]} {[ 10%nat ]} ->
       h' !! p = forward_heap !! p) /\
    @plan_ok reference dft_plan_ok 4%nat forward6 {[ 9%nat ]} {[ 10%nat ]} h' /\
    exists b', buffers_ok 4%nat forward6 {[ 9%nat ]} {[ 10%nat ]} h' impulse6 b'.
Proof.
  split; [exact forward6_ok|]. split; [exact forward6_buffers|].
  assert (Hxy : Plan.x forward6 <> Plan.y forward6) by (simpl; lia).
  split; [exact Hxy|].
  exact (@execute_frame reference dft_plan_ok reference_spec
           4%nat forward6 {[ 9%nat ]} {[ 10%nat ]} forward_heap impulse6 (replicate 6 C0)
           forward6_ok forward6_buffers Hxy).
Defined.

(** * The executor: forward, then inverse *)

(** C5. A FORWARD plan from [x] to [y], then an INVERSE plan of the same size
    from [y] to [z]: the two runs return and leave [N * x[j]] at every
    position [j < N] of [z].  Nothing divides by [N]. *)
Theorem forward_then_inverse `{Liquid} subplan_ok `{!LiquidSpec subplan_ok}
    q1 r1 F0 F1 q2 r2 G0 G1 h a b c :
  plan_ok subplan_ok q1 r1 F0 F1 h ->
  buffers_ok q1 r1 F0 F1 h a b ->
  Plan.direction r1 = FFT_FORWARD ->
  plan_ok subplan_ok q2 r2 G0 G1 h ->
  buffers_ok q2 r2 G0 G1 h b c ->
  Plan.direction r2 = FFT_REVERSE ->
  Plan.nfft r2 = Plan.nfft r1 ->
  Plan.x r2 = Plan.y r1 ->
  owned q2 r2 G0 G1 ## scratch r1 F0 F1 ->
  Plan.y r2 ∉ owned q1 r1 F0 F1 ->
  exists h1 h2 c',
    execute_mixed_radix q1 h = Ret tt h1 /\
    execute_mixed_radix q2 h1 = Ret tt h2 /\
    h2 !! Plan.y r2 = Some (OArr c') /\
    forall j, (j < Z.to_nat (Plan.nfft r1))%nat ->
      c' !! j = Some (Cmul (Cnat (Z.to_nat (Plan.nfft r1))) (elems a j)).
Proof.
  intros Hok1 Hbuf1 Hd1 Hok2 Hbuf2 Hd2 HN Hxy Hsep Hz.
  destruct (execute_mixed_radix_spec subplan_ok q1 r1 F0 F1 h a b Hok1 Hbuf1)
    as (h1 & b' & E1 & Hy1 & Hlen1 & Hval1 & _ & _ & Hfr1).
  rewrite (twiddle_sign_forward _ Hd1) in Hval1.
  assert (Hok2' : plan_ok subplan_ok q2 r2 G0 G1 h1).
  { apply (plan_ok_frame subplan_ok q2 r2 G0 G1 h h1 Hok2).
    intros p Hp. apply Hfr1. intros Hp'. exact (Hsep p Hp Hp'). }
  pose proof Hbuf2 as [Hin2 Hout2 Hla2 Hlb2 Hxo2 Hyo2].
  assert (exists c1, h1 !! Plan.y r2 = Some (OArr c1) /\ length c1 = length c)
    as (c1 & Hc1 & Hlc1).
  { destruct (decide (Plan.y r2 = Plan.y r1)) as [Ey | Ny].
    - exists b'. rewrite Ey. split; [exact Hy1|].
      rewrite Ey, (ok_out _ _ _ _ _ _ _ Hbuf1) in Hout2.
      injection Hout2 as <-. exact Hlen1.
    - exists c. split; [|reflexivity]. rewrite Hfr1; [exact Hout2|].
      apply (not_owned_not_scratch q1); assumption. }
  assert (Hbuf2' : buffers_ok q2 r2 G0 G1 h1 b' c1).
  { constructor; try assumption.
    - rewrite Hxy. exact Hy1.
    - rewrite Hlen1. exact Hla2.
    - rewrite Hlc1. exact Hlb2. }
  destruct (execute_mixed_radix_spec subplan_ok q2 r2 G0 G1 h1 b' c1 Hok2' Hbuf2')
    as (h2 & c' & E2 & Hy2 & _ & Hval2 & _).
  rewrite (twiddle_sign_reverse subplan_ok _ Hd2), HN in Hval2.
  exists h1, h2, c'. split; [exact E1|]. split; [exact E2|]. split; [exact Hy2|].
  intros j Hj. rewrite (Hval2 j Hj). f_equal.
  rewrite <- (dft_inverse _ _ _ Hj). apply dft_direct_ext.
  intros m Hm. apply elems_lookup. apply Hval1. exact Hm.
Qed.

Lemma forward_then_inverse_witness :
  exists h1 h2 c',
    @execute_mixed_radix reference 4%nat round_trip_heap = Ret tt h1 /\
    @execute_mixed_radix reference 12%nat h1 = Ret tt h2 /\
    h2 !! 3%nat = Some (OArr c') /\
    forall j, (j < 6)%nat -> c' !! j = Some (Cmul (Cnat 6) (elems impulse6 j)).
Proof.
  apply (@forward_then_inverse reference dft_plan_ok reference_spec
           4%nat forward6 {[ 9%nat ]} {[ 10%nat ]}
           12%nat inverse6 {[ 17%nat ]} {[ 18%nat ]}
           round_trip_heap impulse6 (replicate 6 C0) (replicate 6 C0)
           forward6_ok' forward6_buffers' eq_refl
           inverse6_ok inverse6_buffers eq_refl eq_refl eq_refl).
  - unfold owned, scratch. simpl. set_solver.
  - unfold owned. simpl. set_solver.
Defined.

(** * The builder: what it returns *)

Lemma composite_or_not N :
  0 <= N < 2 ^ 32 -> (first_factor N = 0 /\ ~ composite N) \/ composite N.
Proof.
  intros HN. destruct (first_factor_spec N HN) as [[E Hno] | (Hr & Hd & Hno)].
  - left. split; [exact E|]. apply (first_factor_zero N HN). exact E.
  - right. exists (first_factor N). split; [exact Hr|].
    apply mod_divide_iff; [lia | exact Hd].
Qed.

(** What a returned plan is. *)
Lemma create_plan_returns `{Liquid} subplan_ok `{!LiquidSpec subplan_ok}
    _nfft _x _y _dir _flags h q h' :
  0 <= _nfft < 2 ^ 32 ->
  create_plan_mixed_radix _nfft _x _y _dir _flags h = Ret q h' ->
  composite _nfft /\
  exists t0 t1 x subplans twiddle F0 F1,
    plan_ok subplan_ok q
      (built_plan _nfft _x _y _dir _flags t0 t1 x subplans twiddle) F0 F1 h' /\
    owned q (built_plan _nfft _x _y _dir _flags t0 t1 x subplans twiddle) F0 F1
      ## dom h /\
    (forall b, b ∈ dom h -> h' !! b = h !! b).
Proof.
  intros HN E. destruct (composite_or_not _ HN) as [[E0 _] | Hc].
  - destruct (create_plan_exits _nfft _x _y _dir _flags h E0) as (q0 & E' & _).
    rewrite E' in E. discriminate.
  - split; [exact Hc|].
    destruct (create_plan_builds subplan_ok _nfft _x _y _dir _flags h HN Hc)
      as (q0 & h0 & t0 & t1 & x & sp & tw & F0 & F1 & E' & Hok & Hown & Hfr).
    rewrite E' in E. injection E as <- <-.
    exists t0, t1, x, sp, tw, F0, F1. split; [exact Hok|]. split; [exact Hown | exact Hfr].
Qed.

(** C2. When the builder returns a plan, the factor [Q] it stores is the
    smallest integer of [[2, N)] that divides [N], a prime number, and the
    factor [P] it stores is [N / Q], with [P * Q = N]. *)
Theorem builder_factors `{Liquid} subplan_ok `{!LiquidSpec subplan_ok}
    _nfft _x _y _dir _flags h q h' :
  0 <= _nfft < 2 ^ 32 ->
  create_plan_mixed_radix _nfft _x _y _dir _flags h = Ret q h' ->
  exists r,
    h' !! q = Some (OPlan r) /\
    2 <= MixedRadix.Q (Plan.data r) < _nfft /\
    (MixedRadix.Q (Plan.data r) | _nfft) /\
    (forall j, 2 <= j < MixedRadix.Q (Plan.data r) -> ~ (j | _nfft)) /\
    prime (MixedRadix.Q (Plan.data r)) /\
    MixedRadix.P (Plan.data r) = _nfft / MixedRadix.Q (Plan.data r) /\
    MixedRadix.P (Plan.data r) * MixedRadix.Q (Plan.data r) = _nfft.
Proof.
  intros HN E.
  destruct (create_plan_returns subplan_ok _ _ _ _ _ _ _ _ HN E)
    as (Hc & t0 & t1 & x & sp & tw & F0 & F1 & Hok & _).
  destruct (first_factor_composite _ HN Hc) as (HQ & Hd & Hmin & _ & HPQ).
  eexists. split; [apply Hok|]. simpl.
  split; [exact HQ|]. split; [exact Hd|]. split; [exact Hmin|].
  split; [apply first_factor_prime; assumption|]. split; [reflexivity | exact HPQ].
Qed.

Lemma builder_factors_witness :
  0 <= 6 < 2 ^ 32 /\
  @create_plan_mixed_radix reference 6 1%nat 2%nat 1 0 caller_heap
    = Ret 4%nat forward_heap /\
  exists r,
    forward_heap !! 4%nat = Some (OPlan r) /\
    2 <= MixedRadix.Q (Plan.data r) < 6 /\
    (MixedRadix.Q (Plan.data r) | 6) /\
    (forall j, 2 <= j < MixedRadix.Q (Plan.data r) -> ~ (j | 6)) /\
    prime (MixedRadix.Q (Plan.data r)) /\
    MixedRadix.P (Plan.data r) = 6 / MixedRadix.Q (Plan.data r) /\
    MixedRadix.P (Plan.data r) * MixedRadix.Q (Plan.data r) = 6.
Proof.
  assert (HN : 0 <= 6 < 2 ^ 32) by lia.
  split; [exact HN|]. split; [exact create_forward6|].
  exact (@builder_factors reference dft_plan_ok reference_spec
           6 1%nat 2%nat 1 0 caller_heap 4%nat forward_heap HN create_forward6).
Defined.

(** C3, as stated, fails: for the prime size 7 the builder does not return
    an error to its caller, it ends the process with status 1.  What the
    caller does after the call, here a store to its output buffer, is not
    run: the outcome of the whole is [Exit 1] and the buffer is as it was. *)
Lemma builder_failure_ends_process :
  (forall q h', @create_plan_mixed_radix reference 7 1%nat 2%nat 1 0 caller_heap
                  <> Ret q h') /\
  exists h',
    @create_plan_mixed_radix reference 7 1%nat 2%nat 1 0 caller_heap = Exit 1 h' /\
    (@create_plan_mixed_radix reference 7 1%nat 2%nat 1 0 ;;; write 2%nat 0 C1) caller_heap
      = Exit 1 h' /\
    h' !! 2%nat = caller_heap !! 2%nat.
Proof.
  split.
  - intros q h' E. vm_compute in E. discriminate E.
  - eexists. split; [vm_compute; reflexivity|]. split; [vm_compute; reflexivity|].
    vm_compute. reflexivity.
Qed.

(** C3, amended. The builder ends the process with status 1 exactly when [N]
    has no divisor in [[2, N)], that is when [N] is a prime number or is
    below 4; otherwise it returns a fully built plan.  The failure is the
    outcome [Exit 1] of [exit(1)]: the builder does not return, no value
    reaches the caller, and whatever the caller has sequenced after the call
    is skipped. *)
Theorem builder_fails_iff_no_factor `{Liquid} subplan_ok `{!LiquidSpec subplan_ok}
    _nfft _x _y _dir _flags h :
  0 <= _nfft < 2 ^ 32 ->
  ((exists h', create_plan_mixed_radix _nfft _x _y _dir _flags h = Exit 1 h')
     <-> ~ composite _nfft) /\
  ((forall q h', create_plan_mixed_radix _nfft _x _y _dir _flags h <> Ret q h')
     <-> ~ composite _nfft) /\
  (~ composite _nfft <-> prime _nfft \/ _nfft < 4) /\
  (composite _nfft ->
   exists q h' r F0 F1,
     create_plan_mixed_radix _nfft _x _y _dir _flags h = Ret q h' /\
     plan_ok subplan_ok q r F0 F1 h') /\
  (~ composite _nfft ->
   exists h',
     create_plan_mixed_radix _nfft _x _y _dir _flags h = Exit 1 h' /\
     forall (B : Type) (k : ptr -> M B),
       (let* p := create_plan_mixed_radix _nfft _x _y _dir _flags in k p) h = Exit 1 h').
Proof.
  intros HN.
  assert (Hbuilt : composite _nfft ->
    exists q h' r F0 F1,
      create_plan_mixed_radix _nfft _x _y _dir _flags h = Ret q h' /\
      plan_ok subplan_ok q r F0 F1 h').
  { intros Hc.
    destruct (create_plan_builds subplan_ok _nfft _x _y _dir _flags h HN Hc)
      as (q & h' & t0 & t1 & x & sp & tw & F0 & F1 & E & Hok & _).
    exists q, h', (built_plan _nfft _x _y _dir _flags t0 t1 x sp tw), F0, F1.
    split; assumption. }
  assert (Hexit : ~ composite _nfft ->
    exists h', create_plan_mixed_radix _nfft _x _y _dir _flags h = Exit 1 h').
  { intros Hnc. apply (first_factor_zero _ HN) in Hnc.
    destruct (create_plan_exits _nfft _x _y _dir _flags h Hnc) as (q & E & _).
    eexists. exact E. }
  split; [|split; [|split; [|split]]].
  - split; [|exact Hexit]. intros (h' & E) Hc.
    destruct (Hbuilt Hc) as (q & h'' & r & F0 & F1 & E' & _).
    rewrite E' in E. discriminate.
  - split.
    + intros Hno Hc. destruct (Hbuilt Hc) as (q & h' & r & F0 & F1 & E & _).
      exact (Hno q h' E).
    + intros Hnc q h' E. destruct (Hexit Hnc) as (h'' & E').
      rewrite E' in E. discriminate.
  - apply not_composite_iff. lia.
  - exact Hbuilt.
  - intros Hnc. destruct (Hexit Hnc) as (h' & E). exists h'. split; [exact E|].
    intros B k. apply bind_Exit. exact E.
Qed.

Lemma builder_fails_iff_no_factor_witness :
  0 <= 7 < 2 ^ 32 /\
  ((exists h', @create_plan_mixed_radix reference 7 1%nat 2%nat 1 0 caller_heap
                 = Exit 1 h') <-> ~ composite 7) /\
  ((forall q h', @create_plan_mixed_radix reference 7 1%nat 2%nat 1 0 caller_heap
                   <> Ret q h') <-> ~ composite 7) /\
  (~ composite 7 <-> prime 7 \/ 7 < 4) /\
  (composite 7 ->
   exists q h' r F0 F1,
     @create_plan_mixed_radix reference 7 1%nat 2%nat 1 0 caller_heap = Ret q h' /\
     @plan_ok reference dft_plan_ok q r F0 F1 h') /\
  (~ composite 7 ->
   exists h',
     @create_plan_mixed_radix reference 7 1%nat 2%nat 1 0 caller_heap = Exit 1 h' /\
     forall (B : Type) (k : ptr -> M B),
       (let* p := @create_plan_mixed_radix reference 7 1%nat 2%nat 1 0 in k p) caller_heap
         = Exit 1 h').
Proof.
  assert (HN : 0 <= 7 < 2 ^ 32) by lia.
  split; [exact HN|].
  exact (@builder_fails_iff_no_factor reference dft_plan_ok reference_spec
           7 1%nat 2%nat 1 0 caller_heap HN).
Defined.

(** * The builder: direction and twiddle factors *)

Lemma cis_unit t : (Cre (cis t) * Cre (cis t) + Cim (cis t) * Cim (cis t) = 1)%R.
Proof.
  unfold cis, Cre, Cim. simpl. pose proof (sin2_cos2 t) as E.
  unfold Rsqr in E. lra.
Qed.

(** C4. When the builder returns a plan, its twiddle table has [N] entries
    and entry [i] is [exp(sign * 2 pi i * i / N)], that is
    [cos t + i sin t] for [t = sign * 2 pi * i / N], where [sign] is [-1] if
    the stored direction is FORWARD and [+1] if it is REVERSE.  The entries
    have modulus 1 and entry 0 is 1: no factor [1/N] is folded in. *)
Theorem builder_twiddle_table `{Liquid} subplan_ok `{!LiquidSpec subplan_ok}
    _nfft _x _y _dir _flags h q h' :
  0 <= _nfft < 2 ^ 32 ->
  create_plan_mixed_radix _nfft _x _y _dir _flags h = Ret q h' ->
  exists r tbl sign,
    h' !! q = Some (OPlan r) /\
    h' !! Plan.twiddle r = Some (OArr tbl) /\
    length tbl = Z.to_nat _nfft /\
    (Plan.direction r = FFT_FORWARD /\ sign = (-1)%R \/
     Plan.direction r = FFT_REVERSE /\ sign = 1%R) /\
    (forall i, (i < Z.to_nat _nfft)%nat ->
       tbl !! i = Some (cis (sign * 2 * PI * INR i / INR (Z.to_nat _nfft)))) /\
    tbl !! O = Some C1 /\
    (forall i w, tbl !! i = Some w -> (Cre w * Cre w + Cim w * Cim w = 1)%R).
Proof.
  intros HN E.
  destruct (create_plan_returns subplan_ok _ _ _ _ _ _ _ _ HN E)
    as (Hc & t0 & t1 & x & sp & tw & F0 & F1 & Hok & _).
  pose proof Hok as [Hrec _ _ _ _ Hdir _ _ _ (tbl & Htw & Hlen & Hval) _ _ _].
  simpl in Hrec, Hdir, Htw, Hlen, Hval.
  set (d := if _dir =? FFT_FORWARD then FFT_FORWARD else FFT_REVERSE) in *.
  assert (Hentry : forall i, (i < Z.to_nat _nfft)%nat ->
            tbl !! i = Some (cis (twiddle_sign d * 2 * PI * INR i / INR (Z.to_nat _nfft)))).
  { intros i Hi. rewrite <- (Nat2Z.id i), (Hval (Z.of_nat i)) by lia.
    rewrite <- (Z2Nat.id _nfft) at 1 by lia. rewrite twiddle_factor_root.
    rewrite Nat2Z.id. reflexivity. }
  eexists _, tbl, (twiddle_sign d). split; [exact Hrec|]. simpl.
  split; [exact Htw|]. split; [lia|]. split; [|split; [exact Hentry|split]].
  - destruct Hdir as [Hd | Hd]; [left | right]; (split; [exact Hd|]).
    + apply twiddle_sign_forward. exact Hd.
    + apply (twiddle_sign_reverse subplan_ok). exact Hd.
  - destruct Hc as (c & Hc & _). rewrite Hentry by lia. f_equal.
    replace (twiddle_sign d * 2 * PI * INR 0 / INR (Z.to_nat _nfft))%R with 0%R
      by (simpl; unfold Rdiv; ring).
    apply cis_0.
  - intros i w Hw. pose proof (lookup_lt_Some _ _ _ Hw) as Hi.
    rewrite Hentry in Hw by lia. injection Hw as <-. apply cis_unit.
Qed.

Lemma builder_twiddle_table_witness :
  0 <= 6 < 2 ^ 32 /\
  @create_plan_mixed_radix reference 6 1%nat 2%nat 1 0 caller_heap
    = Ret 4%nat forward_heap /\
  exists r tbl sign,
    forward_heap !! 4%nat = Some (OPlan r) /\
    forward_heap !! Plan.twiddle r = Some (OArr tbl) /\
    length tbl = Z.to_nat 6 /\
    (Plan.direction r = @FFT_FORWARD reference /\ sign = (-1)%R \/
     Plan.direction r = @FFT_REVERSE reference /\ sign = 1%R) /\
    (forall i, (i < Z.to_nat 6)%nat ->
       tbl !! i = Some (cis (sign * 2 * PI * INR i / INR (Z.to_nat 6)))) /\
    tbl !! O = Some C1 /\
    (forall i w, tbl !! i = Some w -> (Cre w * Cre w + Cim w * Cim w = 1)%R).
Proof.
  assert (HN : 0 <= 6 < 2 ^ 32) by lia.
  split; [exact HN|]. split; [exact create_forward6|].
  exact (@builder_twiddle_table reference dft_plan_ok reference_spec
           6 1%nat 2%nat 1 0 caller_heap 4%nat forward_heap HN create_forward6).
Defined.

(** C10. When the builder returns a plan, the stored direction is
    [FFT_FORWARD] if the argument is [FFT_FORWARD] and [FFT_REVERSE] for
    every other integer; the builder returns a plan for every other value of
    the argument as well; and the sign of the twiddle factors is that of the
    stored direction. *)
Theorem builder_direction `{Liquid} subplan_ok `{!LiquidSpec subplan_ok}
    _nfft _x _y _dir _flags h q h' :
  0 <= _nfft < 2 ^ 32 ->
  create_plan_mixed_radix _nfft _x _y _dir _flags h = Ret q h' ->
  exists r tbl,
    h' !! q = Some (OPlan r) /\
    (_dir = FFT_FORWARD -> Plan.direction r = FFT_FORWARD) /\
    (_dir <> FFT_FORWARD -> Plan.direction r = FFT_REVERSE) /\
    (Plan.direction r = FFT_FORWARD <-> _dir = FFT_FORWARD) /\
    (forall dir', exists q' h'',
       create_plan_mixed_radix _nfft _x _y dir' _flags h = Ret q' h'') /\
    h' !! Plan.twiddle r = Some (OArr tbl) /\
    (forall i, 0 <= i < _nfft ->
       tbl !! Z.to_nat i =
         Some (twiddle_factor (twiddle_sign (Plan.direction r)) i _nfft)) /\
    (_dir = FFT_FORWARD -> twiddle_sign (Plan.direction r) = (-1)%R) /\
    (_dir <> FFT_FORWARD -> twiddle_sign (Plan.direction r) = 1%R).
Proof.
  intros HN E.
  destruct (create_plan_returns subplan_ok _ _ _ _ _ _ _ _ HN E)
    as (Hc & t0 & t1 & x & sp & tw & F0 & F1 & Hok & _).
  pose proof Hok as [Hrec _ _ _ _ _ _ _ _ (tbl & Htw & _ & Hval) _ _ _].
  simpl in Hrec, Htw, Hval.
  eexists _, tbl. split; [exact Hrec|]. simpl.
  pose proof FFT_FORWARD_neq_REVERSE as Hne.
  destruct (Z.eqb_spec _dir FFT_FORWARD) as [Ed | Nd].
  - split; [reflexivity|]. split; [contradiction|]. split; [tauto|].
    split; [|split; [exact Htw|split; [exact Hval|split]]].
    + intros dir'.
      destruct (create_plan_builds subplan_ok _nfft _x _y dir' _flags h HN Hc)
        as (q' & h'' & ? & ? & ? & ? & ? & ? & ? & E' & _).
      exists q', h''. exact E'.
    + intros _. apply twiddle_sign_forward. reflexivity.
    + contradiction.
  - split; [contradiction|]. split; [reflexivity|].
    split; [split; [intros Ebad; exfalso; apply Hne; symmetry; exact Ebad | contradiction]|].
    split; [|split; [exact Htw|split; [exact Hval|split]]].
    + intros dir'.
      destruct (create_plan_builds subplan_ok _nfft _x _y dir' _flags h HN Hc)
        as (q' & h'' & ? & ? & ? & ? & ? & ? & ? & E' & _).
      exists q', h''. exact E'.
    + contradiction.
    + intros _. apply (twiddle_sign_reverse subplan_ok). reflexivity.
Qed.

Lemma builder_direction_witness :
  0 <= 6 < 2 ^ 32 /\
  @create_plan_mixed_radix reference 6 2%nat 3%nat (-1) 0 forward_heap
    = Ret 12%nat round_trip_heap /\
  exists r tbl,
    round_trip_heap !! 12%nat = Some (OPlan r) /\
    (-1 = @FFT_FORWARD reference -> Plan.direction r = @FFT_FORWARD reference) /\
    (-1 <> @FFT_FORWARD reference -> Plan.direction r = @FFT_REVERSE reference) /\
    (Plan.direction r = @FFT_FORWARD reference <-> -1 = @FFT_FORWARD reference) /\
    (forall dir', exists q' h'',
       @create_plan_mixed_radix reference 6 2%nat 3%nat dir' 0 forward_heap
         = Ret q' h'') /\
    round_trip_heap !! Plan.twiddle r = Some (OArr tbl) /\
    (forall i, 0 <= i < 6 ->
       tbl !! Z.to_nat i =
         Some (twiddle_factor (@twiddle_sign reference (Plan.direction r)) i 6)) /\
    (-1 = @FFT_FORWARD reference ->
       @twiddle_sign reference (Plan.direction r) = (-1)%R) /\
    (-1 <> @FFT_FORWARD reference ->
       @twiddle_sign reference (Plan.direction r) = 1%R).
Proof.
  assert (HN : 0 <= 6 < 2 ^ 32) by lia.
  split; [exact HN|]. split; [exact create_inverse6|].
  exact (@builder_direction reference dft_plan_ok reference_spec
           6 2%nat 3%nat (-1) 0 forward_heap 12%nat round_trip_heap HN create_inverse6).
Defined.

(** An argument that is neither constant is stored as [FFT_REVERSE]. *)
Example create_direction_5 :
  exists q h' r,
    @create_plan_mixed_radix reference 6 1%nat 2%nat 5 0 caller_heap = Ret q h' /\
    h' !! q = Some (OPlan r) /\ Plan.direction r = -1.
Proof. eexists _, _, _. split; [vm_compute; reflexivity|]. split; reflexivity. Qed.

(** * The builder: the failure path *)

(** C6, as stated, fails: for the prime size 7 the builder exits with the
    plan record it allocated still in the heap. *)
Lemma builder_exit_keeps_record :
  exists h',
    @create_plan_mixed_radix reference 7 1%nat 2%nat 1 0 caller_heap = Exit 1 h' /\
    caller_heap !! 4%nat = None /\
    h' !! 4%nat = Some (OPlan (@initial_plan reference 7 1%nat 2%nat 1 0)) /\
    h' <> caller_heap.
Proof.
  eexists. split; [vm_compute; reflexivity|]. split; [reflexivity|].
  split; [reflexivity|]. intros E.
  apply (f_equal (fun m : heap => m !! 4%nat)) in E. discriminate E.
Qed.

(** C6, amended. When [N] has no divisor in [[2, N)], the builder exits with
    status 1 from a heap that is the initial one plus one new block, the plan
    record, which it does not release; it has allocated no scratch buffer, no
    staging buffer, no sub-plan and no twiddle table. *)
Theorem builder_exit_allocates_record_only `{Liquid} _nfft _x _y _dir _flags h :
  0 <= _nfft < 2 ^ 32 ->
  ~ composite _nfft ->
  exists q,
    create_plan_mixed_radix _nfft _x _y _dir _flags h =
      Exit 1 (<[q := OPlan (initial_plan _nfft _x _y _dir _flags)]> h) /\
    q <> NULL /\ h !! q = None /\
    dom (<[q := OPlan (initial_plan _nfft _x _y _dir _flags)]> h) = {[ q ]} ∪ dom h.
Proof.
  intros HN Hnc. apply (first_factor_zero _ HN) in Hnc.
  destruct (create_plan_exits _nfft _x _y _dir _flags h Hnc) as (q & E & Hq & Hf).
  exists q. split; [exact E|]. split; [exact Hq|]. split; [exact Hf|].
  apply dom_insert_L.
Qed.

Lemma not_composite_7 : ~ composite 7.
Proof.
  intros (d & Hd & k & Hk).
  assert (d = 2 \/ d = 3 \/ d = 4 \/ d = 5 \/ d = 6) as [-> | [-> | [-> | [-> | ->]]]]
    by lia; lia.
Qed.

Lemma builder_exit_allocates_record_only_witness :
  0 <= 7 < 2 ^ 32 /\ ~ composite 7 /\
  exists q,
    @create_plan_mixed_radix reference 7 1%nat 2%nat 1 0 caller_heap =
      Exit 1 (<[q := OPlan (@initial_plan reference 7 1%nat 2%nat 1 0)]> caller_heap) /\
    q <> NULL /\ caller_heap !! q = None /\
    dom (<[q := OPlan (@initial_plan reference 7 1%nat 2%nat 1 0)]> caller_heap)
      = {[ q ]} ∪ dom caller_heap.
Proof.
  assert (HN : 0 <= 7 < 2 ^ 32) by lia.
  split; [exact HN|]. split; [exact not_composite_7|].
  exact (@builder_exit_allocates_record_only reference 7 1%nat 2%nat 1 0 caller_heap
           HN not_composite_7).
Defined.

(** * The index arithmetic of the two passes *)

(** The index of the twiddle factor at the loop indices [i] and [k] of pass 1
    does not wrap around, is at most [(Q-1)*(P-1)], which is below [P*Q], and
    so is its own remainder modulo [P*Q]; a table of [P*Q] entries has an
    entry there. *)
Lemma twiddle_index_small (P Q i k : Z) (h : heap) (tw : ptr) (tbl : list TC) :
  0 <= i < Q -> 0 <= k < P -> P * Q < 2 ^ 32 ->
  h !! tw = Some (OArr tbl) -> Z.of_nat (length tbl) = P * Q ->
  twiddle_index i k = i * k /\
  0 <= i * k <= (Q - 1) * (P - 1) /\
  (Q - 1) * (P - 1) < P * Q /\
  twiddle_index i k = (i * k) mod (P * Q) /\
  exists w,
    read tw (twiddle_index i k) h = Ret w h /\
    tbl !! Z.to_nat ((i * k) mod (P * Q)) = Some w.
Proof.
  intros Hi Hk Hb Htw Hlen.
  assert (H1 : 0 <= i * k <= (Q - 1) * (P - 1)) by nia.
  assert (H2 : (Q - 1) * (P - 1) < P * Q) by nia.
  assert (E : twiddle_index i k = i * k).
  { unfold twiddle_index, umul. apply uint_small. lia. }
  assert (Em : (i * k) mod (P * Q) = i * k) by (apply Z.mod_small; lia).
  split; [exact E|]. split; [exact H1|]. split; [exact H2|].
  split; [rewrite Em; exact E|].
  destruct (lookup_lt_is_Some_2 tbl (Z.to_nat (i * k)) ltac:(lia)) as [w Hw].
  exists w. rewrite Em, E. split; [|exact Hw].
  apply read_ok with tbl; [exact Htw | lia | exact Hw].
Qed.

Lemma transpose_index_small P Q k i :
  0 <= i < P -> 0 <= k < Q -> P * Q < 2 ^ 32 ->
  transpose_index P k i = k * P + i /\ 0 <= k * P + i < P * Q.
Proof.
  intros Hi Hk Hb. assert (0 <= k * P + i < P * Q) by nia.
  split; [|assumption]. unfold transpose_index, uadd, umul.
  rewrite (uint_small (k * P)) by nia. apply uint_small. lia.
Qed.

(** The list [pass2_writes P Q] has no duplicate and its members are the
    integers of [[0, P*Q)]: the map [(i, k) |-> k*P+i] from
    [[0, P) x [0, Q)] is a bijection onto [[0, P*Q)], without wrap-around. *)
Lemma pass2_writes_bijective (P Q : Z) :
  0 <= P -> 0 <= Q -> P * Q < 2 ^ 32 ->
  NoDup (pass2_writes P Q) /\
  (forall m, m ∈ pass2_writes P Q <-> 0 <= m < P * Q) /\
  (forall i k i' k', 0 <= i < P -> 0 <= k < Q -> 0 <= i' < P -> 0 <= k' < Q ->
     transpose_index P k i = transpose_index P k' i' -> i = i' /\ k = k') /\
  (forall m, 0 <= m < P * Q ->
     exists i k, 0 <= i < P /\ 0 <= k < Q /\ transpose_index P k i = m) /\
  (forall (h : heap) (y : ptr) (b : list TC) (v : TC) i k,
     h !! y = Some (OArr b) -> P * Q <= Z.of_nat (length b) ->
     0 <= i < P -> 0 <= k < Q ->
     write y (transpose_index P k i) v h =
       Ret tt (<[y := OArr (<[Z.to_nat (k * P + i) := v]> b)]> h)).
Proof.
  intros HP HQ Hb.
  assert (Hinj : forall i k i' k', 0 <= i < P -> 0 <= k < Q -> 0 <= i' < P -> 0 <= k' < Q ->
            transpose_index P k i = transpose_index P k' i' -> i = i' /\ k = k').
  { intros i k i' k' Hi Hk Hi' Hk' E.
    destruct (transpose_index_small P Q k i Hi Hk Hb) as [E1 _].
    destruct (transpose_index_small P Q k' i' Hi' Hk' Hb) as [E2 _].
    rewrite E1, E2 in E. clear E1 E2 Hb.
    assert (k = k') by nia. subst k'. split; [lia | reflexivity]. }
  assert (Hsur : forall m, 0 <= m < P * Q ->
            exists i k, 0 <= i < P /\ 0 <= k < Q /\ transpose_index P k i = m).
  { intros m Hm. assert (0 < P) by nia.
    exists (m mod P), (m / P).
    assert (Hi : 0 <= m mod P < P) by (apply Z.mod_pos_bound; lia).
    assert (Hk : 0 <= m / P < Q).
    { split; [apply Z.div_pos; lia|]. apply Z.div_lt_upper_bound; lia. }
    split; [exact Hi|]. split; [exact Hk|].
    destruct (transpose_index_small P Q _ _ Hi Hk Hb) as [-> _].
    rewrite (Z.div_mod m P) at 3 by lia. lia. }
  split; [|split; [|split; [exact Hinj|split; [exact Hsur|]]]].
  3:{ intros h y b v i k Hy Hlen Hi Hk.
      destruct (transpose_index_small P Q k i Hi Hk Hb) as [E Hr].
      rewrite (write_ok y _ v h b Hy) by (rewrite E; lia).
      rewrite E. reflexivity. }
  - unfold pass2_writes. apply NoDup_bind.
    + intros i i' m Hi Hi' Hm Hm'.
      apply elem_of_seqZ in Hi, Hi'.
      apply list_elem_of_fmap in Hm, Hm'.
      destruct Hm as (k & -> & Hk), Hm' as (k' & E & Hk').
      apply elem_of_seqZ in Hk, Hk'.
      apply (Hinj i k i' k'); [lia | lia | lia | lia | exact E].
    + intros i Hi. apply elem_of_seqZ in Hi.
      apply NoDup_fmap_2_strong; [|apply NoDup_seqZ].
      intros k k' Hk Hk' E. apply elem_of_seqZ in Hk, Hk'.
      apply (Hinj i k i k'); [lia | lia | lia | lia | exact E].
    + apply NoDup_seqZ.
  - intros m. unfold pass2_writes. rewrite list_elem_of_bind. split.
    + intros (i & Hm & Hi). apply elem_of_seqZ in Hi.
      apply list_elem_of_fmap in Hm. destruct Hm as (k & -> & Hk).
      apply elem_of_seqZ in Hk.
      destruct (transpose_index_small P Q k i ltac:(lia) ltac:(lia) Hb) as [-> Hr].
      exact Hr.
    + intros Hm. destruct (Hsur m Hm) as (i & k & Hi & Hk & E).
      exists i. split; [|apply elem_of_seqZ; lia].
      apply list_elem_of_fmap. exists k. split; [symmetry; exact E|].
      apply elem_of_seqZ. lia.
Qed.

Example pass2_writes_3_2 : pass2_writes 3 2 = [0; 3; 1; 4; 2; 5].
Proof. reflexivity. Qed.

(** * The destroyer *)

Lemma free_ok b (h : heap) v : h !! b = Some v -> free b h = Ret tt (delete b h).
Proof. intros E. unfold free. rewrite E. reflexivity. Qed.

Lemma NoDup_six_inv (a b c d e f : ptr) :
  NoDup [a; b; c; d; e; f] ->
  (a <> b /\ a <> c /\ a <> d /\ a <> e /\ a <> f) /\
  (b <> c /\ b <> d /\ b <> e /\ b <> f) /\
  (c <> d /\ c <> e /\ c <> f) /\ (d <> e /\ d <> f) /\ e <> f.
Proof.
  intros Hnd.
  repeat match goal with
  | Hx : NoDup (_ :: _) |- _ => apply NoDup_cons in Hx; destruct Hx as [? Hx]
  end.
  repeat match goal with
  | Hx : _ ∉ _ :: _ |- _ => apply not_elem_of_cons in Hx; destruct Hx as [? Hx]
  end.
  repeat split; assumption.
Qed.

(** The six blocks of a built plan are outside what its sub-plans own. *)
Lemma plan_blocks_not_subplans `{Liquid} subplan_ok q r F0 F1 h :
  plan_ok subplan_ok q r F0 F1 h ->
  (q ∉ F0 /\ MixedRadix.t0 (Plan.data r) ∉ F0 /\ MixedRadix.t1 (Plan.data r) ∉ F0 /\
   MixedRadix.x (Plan.data r) ∉ F0 /\ Plan.subplans r ∉ F0 /\ Plan.twiddle r ∉ F0) /\
  (q ∉ F1 /\ MixedRadix.t0 (Plan.data r) ∉ F1 /\ MixedRadix.t1 (Plan.data r) ∉ F1 /\
   MixedRadix.x (Plan.data r) ∉ F1 /\ Plan.subplans r ∉ F1 /\ Plan.twiddle r ∉ F1).
Proof.
  intros Hok. destruct (ok_disjoint _ _ _ _ _ _ Hok) as [_ Hn]. clear Hok.
  assert (Hq := Hn q ltac:(rewrite !elem_of_cons; tauto)).
  assert (H0 := Hn (MixedRadix.t0 (Plan.data r)) ltac:(rewrite !elem_of_cons; tauto)).
  assert (H1 := Hn (MixedRadix.t1 (Plan.data r)) ltac:(rewrite !elem_of_cons; tauto)).
  assert (Hx := Hn (MixedRadix.x (Plan.data r)) ltac:(rewrite !elem_of_cons; tauto)).
  assert (Hs := Hn (Plan.subplans r) ltac:(rewrite !elem_of_cons; tauto)).
  assert (Ht := Hn (Plan.twiddle r) ltac:(rewrite !elem_of_cons; tauto)).
  clear Hn. rewrite not_elem_of_union in Hq, H0, H1, Hx, Hs, Ht. tauto.
Qed.

Lemma elem_of_owned q r F0 F1 b :
  b ∈ owned q r F0 F1 <->
  b = q \/ b = MixedRadix.t0 (Plan.data r) \/ b = MixedRadix.t1 (Plan.data r) \/
  b = MixedRadix.x (Plan.data r) \/ b = Plan.subplans r \/ b = Plan.twiddle r \/
  b ∈ F0 \/ b ∈ F1.
Proof. unfold owned. rewrite !elem_of_union, !elem_of_singleton. tauto. Qed.

(** A field read and a [free] after some blocks were freed. *)
Ltac get_after_free r :=
  match goal with |- context [bind (get ?q ?f) ?k ?g] =>
    rewrite (bind_Ret (get q f) k g (f r) g
               (get_ok q f g r ltac:(rewrite !lookup_delete_ne by ne; assumption)))
  end.

Ltac free_after_free :=
  match goal with |- context [bind (free ?b) ?k ?g] =>
    let v := fresh "v" in
    let Hv := fresh "Hv" in
    assert (exists v, g !! b = Some v) as [v Hv]
      by (eexists; rewrite !lookup_delete_ne by ne; eassumption);
    rewrite (bind_Ret (free b) k g tt (delete b g) (free_ok b g v Hv));
    clear v Hv
  end.

(** What [destroy] does to the heap: the blocks the plan owns are gone, the
    others are as before. *)
Lemma destroy_plan_run `{Liquid} subplan_ok `{!LiquidSpec subplan_ok}
    `{!LiquidDestroySpec subplan_ok} q r F0 F1 h :
  plan_ok subplan_ok q r F0 F1 h ->
  exists h',
    destroy_plan_mixed_radix q h = Ret tt h' /\
    (forall b, b ∈ owned q r F0 F1 -> h' !! b = None) /\
    (forall b, b ∉ owned q r F0 F1 -> h' !! b = h !! b).
Proof.
  intros Hok.
  destruct (plan_blocks_not_subplans _ _ _ _ _ _ Hok)
    as ((HqF0 & H0F0 & H1F0 & HxF0 & HsF0 & HtF0) & (HqF1 & H0F1 & H1F1 & HxF1 & HsF1 & HtF1)).
  destruct Hok as [Hrec _ _ _ _ _ (c0 & Hc0 & _) (c1 & Hc1 & _) (cx & Hcx & _)
                   (tw & Htw & _) (s0 & s1 & Hsp & Hs0 & Hs1) Hnd (Hd01 & _)].
  apply NoDup_six_inv in Hnd.
  destruct Hnd as ((Hq0 & Hq1 & Hqx & Hqs & Hqt) & (H01 & H0x & H0s & H0t) &
                   (H1x & H1s & H1t) & (Hxs & Hxt) & Hst).
  unfold destroy_plan_mixed_radix.
  (* the sub-plan of size P *)
  rewrite (bind_Ret _ _ _ _ _ (get_ok q Plan.subplans h r Hrec)).
  rewrite (bind_Ret _ _ _ _ _ (read_plan_ok _ 0 h [s0; s1] s0 Hsp ltac:(lia) eq_refl)).
  destruct (fft_destroy_plan_spec _ _ _ _ _ _ _ Hs0) as (h1 & E1 & Hgone1 & Hfr1).
  rewrite (bind_Ret _ _ _ _ _ E1). clear E1.
  assert (Hrec1 : h1 !! q = Some (OPlan r)) by (rewrite Hfr1; assumption).
  assert (Hsp1 : h1 !! Plan.subplans r = Some (OPtrs [s0; s1]))
    by (rewrite Hfr1; assumption).
  assert (Hs1' : subplan_ok s1 (MixedRadix.Q (Plan.data r))
            (MixedRadix.t0 (Plan.data r)) (MixedRadix.t1 (Plan.data r))
            (Plan.direction r) F1 h1).
  { eapply subplan_ok_frame; [exact Hs1|]. intros b Hb. apply Hfr1.
    intros Hb0. exact (Hd01 b Hb0 Hb). }
  (* the sub-plan of size Q *)
  rewrite (bind_Ret _ _ _ _ _ (get_ok q Plan.subplans h1 r Hrec1)).
  rewrite (bind_Ret _ _ _ _ _ (read_plan_ok _ 1 h1 [s0; s1] s1 Hsp1 ltac:(lia) eq_refl)).
  destruct (fft_destroy_plan_spec _ _ _ _ _ _ _ Hs1') as (h2 & E2 & Hgone2 & Hfr2).
  rewrite (bind_Ret _ _ _ _ _ E2). clear E2.
  assert (Hkeep : forall b, b ∉ F0 -> b ∉ F1 -> h2 !! b = h !! b).
  { intros b Hb0 Hb1. rewrite Hfr2, Hfr1 by assumption. reflexivity. }
  assert (Hrec2 : h2 !! q = Some (OPlan r)) by (rewrite Hkeep; assumption).
  assert (Hsp2 : h2 !! Plan.subplans r = Some (OPtrs [s0; s1]))
    by (rewrite Hkeep; assumption).
  assert (Hc0_2 : h2 !! MixedRadix.t0 (Plan.data r) = Some (OArr c0))
    by (rewrite Hkeep; assumption).
  assert (Hc1_2 : h2 !! MixedRadix.t1 (Plan.data r) = Some (OArr c1))
    by (rewrite Hkeep; assumption).
  assert (Hcx_2 : h2 !! MixedRadix.x (Plan.data r) = Some (OArr cx))
    by (rewrite Hkeep; assumption).
  assert (Htw_2 : h2 !! Plan.twiddle r = Some (OArr tw))
    by (rewrite Hkeep; assumption).
  (* the table of sub-plans, the buffers, the twiddle factors, the record *)
  rewrite (bind_Ret _ _ _ _ _ (get_ok q Plan.subplans h2 r Hrec2)).
  rewrite (bind_Ret _ _ _ _ _ (free_ok _ h2 _ Hsp2)).
  do 3 (get_after_free r; free_after_free).
  get_after_free r. free_after_free.
  match goal with |- context [free q ?g] =>
    rewrite (free_ok q g (OPlan r)) by (rewrite !lookup_delete_ne by ne; assumption)
  end.
  eexists. split; [reflexivity|]. split.
  - intros b Hb. apply elem_of_owned in Hb. rewrite !lookup_delete_None.
    destruct Hb as [-> | [-> | [-> | [-> | [-> | [-> | [Hb | Hb]]]]]]];
      [tauto .. | |]; do 6 right.
    + destruct (decide (b ∈ F1)) as [Hb1 | Hb1].
      * apply Hgone2, Hb1.
      * rewrite Hfr2 by exact Hb1. apply Hgone1, Hb.
    + apply Hgone2, Hb.
  - intros b Hb. rewrite elem_of_owned in Hb.
    rewrite !lookup_delete_ne by (intros E; apply Hb; rewrite <- E; auto 10).
    apply Hkeep; tauto.
Qed.

(** * The builder: the blocks it allocates *)

(** The domain of the heap a builder run ends in. *)
Lemma dom_after_create (D F0 F1 : gset ptr) (q t0 t1 xs sp tw : ptr) :
  {[tw]} ∪ ({[q]} ∪ ({[tw]} ∪ ({[sp]} ∪ ({[sp]} ∪
     ({[q]} ∪ ({[sp]} ∪ ({[xs]} ∪ ({[t1]} ∪ ({[t0]} ∪ D)))) ∪ F0) ∪ F1))))
  = D ∪ ({[q; t0; t1; xs; sp; tw]} ∪ F0 ∪ F1).
Proof. set_solver. Qed.

(** [create_plan_builds], with the blocks of the new heap counted: under
    [LiquidAllocSpec] the builder allocates what the plan owns and no other
    block, and the plan is not [NULL]. *)
Lemma create_plan_allocates `{Liquid} subplan_ok `{!LiquidSpec subplan_ok}
    `{!LiquidAllocSpec subplan_ok} _nfft _x _y _dir _flags h :
  0 <= _nfft < 2 ^ 32 -> composite _nfft ->
  exists q h' t0 t1 x subplans twiddle F0 F1,
    create_plan_mixed_radix _nfft _x _y _dir _flags h = Ret q h' /\
    plan_ok subplan_ok q
      (built_plan _nfft _x _y _dir _flags t0 t1 x subplans twiddle) F0 F1 h' /\
    owned q (built_plan _nfft _x _y _dir _flags t0 t1 x subplans twiddle) F0 F1
      ## dom h /\
    (forall b, b ∈ dom h -> h' !! b = h !! b) /\
    dom h' =
      dom h ∪ owned q (built_plan _nfft _x _y _dir _flags t0 t1 x subplans twiddle) F0 F1 /\
    q <> NULL.
Proof.
  intros HN Hc.
  destruct (first_factor_composite _ HN Hc) as (HQ & HQd & HQmin & HP & HPQ).
  unfold built_plan.
  set (Q := first_factor _nfft) in *. set (P := _nfft / Q) in *.
  set (dir := if _dir =? FFT_FORWARD then FFT_FORWARD else FFT_REVERSE).
  assert (Hdir : dir = FFT_FORWARD \/ dir = FFT_REVERSE)
    by (unfold dir; destruct (_dir =? FFT_FORWARD); auto).
  unfold create_plan_mixed_radix.
  destruct (malloc_ok (OPlan (initial_plan _nfft _x _y _dir _flags)) h)
    as (q & Eq & Hq & Hhq).
  unfold initial_plan in Eq. rewrite (bind_Ret _ _ _ _ _ Eq). clear Eq. fold dir.
  step (get_insert q Plan.nfft
          (Plan.mk _nfft _x _y _flags LIQUID_FFT_DFT_1D dir LIQUID_FFT_METHOD_MIXED_RADIX
             execute_mixed_radix_fn MixedRadix.zero 0 NULL NULL) h).
  fold Q. destruct (Z.eqb_spec Q 0) as [E0 | _]; [lia|]. fold P.
  rewrite (bind_Ret _ _ _ _ _ (set_insert _ _ _ _)); fields.
  rewrite (bind_Ret _ _ _ _ _ (set_insert _ _ _ _)); fields.
  set (t_len := if Q >? P then Q else P).
  assert (Ht_len : t_len = Z.max P Q) by (unfold t_len; destruct (Z.gtb_spec Q P); lia).
  (* t0 *)
  unfold malloc_TC at 1.
  match goal with |- context [<[q := ?v]> h] =>
    destruct (malloc_insert (OArr (replicate (Z.to_nat t_len) C0)) q v h)
      as (t0 & E & Ht0 & Ht0q & Hht0) end.
  rewrite (bind_Ret _ _ _ _ _ E); fields. clear E.
  rewrite (bind_Ret _ _ _ _ _ (set_insert _ _ _ _)); fields.
  (* t1 *)
  unfold malloc_TC at 1.
  match goal with |- context [<[q := ?v]> ?g] =>
    destruct (malloc_insert (OArr (replicate (Z.to_nat t_len) C0)) q v g)
      as (t1 & E & Ht1 & Ht1q & Hht1) end.
  rewrite (bind_Ret _ _ _ _ _ E); fields. clear E.
  rewrite (bind_Ret _ _ _ _ _ (set_insert _ _ _ _)); fields.
  assert (Ht10 : t1 <> t0) by (intros ->; rewrite lookup_insert_eq in Hht1; discriminate).
  rewrite lookup_insert_ne in Hht1 by ne.
  (* the staging buffer *)
  rewrite (bind_Ret _ _ _ _ _ (get_insert _ _ _ _)); fields.
  unfold malloc_TC at 1.
  match goal with |- context [<[q := ?v]> ?g] =>
    destruct (malloc_insert (OArr (replicate (Z.to_nat _nfft) C0)) q v g)
      as (xs & E & Hxs & Hxsq & Hhxs) end.
  rewrite (bind_Ret _ _ _ _ _ E); fields. clear E.
  rewrite (bind_Ret _ _ _ _ _ (set_insert _ _ _ _)); fields.
  assert (Hxs1 : xs <> t1) by (intros ->; rewrite lookup_insert_eq in Hhxs; discriminate).
  rewrite lookup_insert_ne in Hhxs by ne.
  assert (Hxs0 : xs <> t0) by (intros ->; rewrite lookup_insert_eq in Hhxs; discriminate).
  rewrite lookup_insert_ne in Hhxs by ne.
  (* the table of sub-plans *)
  rewrite (bind_Ret _ _ _ _ _ (set_insert _ _ _ _)); fields.
  rewrite (bind_Ret _ _ _ _ _ (get_insert _ _ _ _)); fields.
  unfold malloc_plans.
  match goal with |- context [<[q := ?v]> ?g] =>
    destruct (malloc_insert (OPtrs (replicate (Z.to_nat 2) NULL)) q v g)
      as (sp & E & Hsp & Hspq & Hhsp) end.
  rewrite (bind_Ret _ _ _ _ _ E); fields. clear E.
  rewrite (bind_Ret _ _ _ _ _ (set_insert _ _ _ _)); fields.
  assert (Hspx : sp <> xs) by (intros ->; rewrite lookup_insert_eq in Hhsp; discriminate).
  rewrite lookup_insert_ne in Hhsp by ne.
  assert (Hsp1 : sp <> t1) by (intros ->; rewrite lookup_insert_eq in Hhsp; discriminate).
  rewrite lookup_insert_ne in Hhsp by ne.
  assert (Hsp0 : sp <> t0) by (intros ->; rewrite lookup_insert_eq in Hhsp; discriminate).
  rewrite lookup_insert_ne in Hhsp by ne.
  change (replicate (Z.to_nat 2) NULL) with [NULL; NULL].
  match goal with |- context [<[q := OPlan ?r]> ?g] =>
    set (rA := r); set (HA := <[q := OPlan r]> g) end.
  assert (HAq : HA !! q = Some (OPlan rA)) by (unfold HA; lk).
  assert (HAt0 : HA !! t0 = Some (OArr (replicate (Z.to_nat t_len) C0))) by (unfold HA; lk).
  assert (HAt1 : HA !! t1 = Some (OArr (replicate (Z.to_nat t_len) C0))) by (unfold HA; lk).
  assert (HAxs : HA !! xs = Some (OArr (replicate (Z.to_nat _nfft) C0))) by (unfold HA; lk).
  assert (HAsp : HA !! sp = Some (OPtrs [NULL; NULL])) by (unfold HA; lk).
  assert (FrA : forall b, b ∈ dom h -> HA !! b = h !! b).
  { unfold HA. repeat (apply preserved_insert; [|assumption]). reflexivity. }
  (* the sub-plan of size P *)
  step (get_ok q Plan.data HA rA HAq).
  step (get_ok q Plan.direction HA rA HAq).
  step (get_ok q Plan.flags HA rA HAq).
  destruct (fft_create_plan_alloc P t0 t1 dir _flags HA)
    as (s0 & h5 & F0 & E & Hs0 & HF0 & Hfr5 & Hdom5);
    [exact HP | exact Hdir | apply elem_of_dom; eexists; exact HAt0
    | apply elem_of_dom; eexists; exact HAt1 |].
  step E. clear E.
  pose proof (preserved_lookup _ _ _ _ Hfr5 HAq) as H5q.
  pose proof (preserved_lookup _ _ _ _ Hfr5 HAt0) as H5t0.
  pose proof (preserved_lookup _ _ _ _ Hfr5 HAt1) as H5t1.
  pose proof (preserved_lookup _ _ _ _ Hfr5 HAxs) as H5xs.
  pose proof (preserved_lookup _ _ _ _ Hfr5 HAsp) as H5sp.
  pose proof (preserved_trans _ _ _ FrA Hfr5) as Fr5.
  step (get_ok q Plan.subplans h5 rA H5q).
  rewrite (bind_Ret _ _ _ _ _ (write_plan_ok sp 0 s0 h5 [NULL; NULL] H5sp ltac:(simpl; lia))).
  change (<[Z.to_nat 0 := s0]> [NULL; NULL]) with [s0; NULL].
  set (h6 := <[sp := OPtrs [s0; NULL]]> h5).
  assert (H6q : h6 !! q = Some (OPlan rA)) by (unfold h6; lk).
  assert (H6t0 : h6 !! t0 = Some (OArr (replicate (Z.to_nat t_len) C0))) by (unfold h6; lk).
  assert (H6t1 : h6 !! t1 = Some (OArr (replicate (Z.to_nat t_len) C0))) by (unfold h6; lk).
  assert (H6xs : h6 !! xs = Some (OArr (replicate (Z.to_nat _nfft) C0))) by (unfold h6; lk).
  assert (H6sp : h6 !! sp = Some (OPtrs [s0; NULL])) by (unfold h6; lk).
  assert (Fr6 : forall b, b ∈ dom h -> h6 !! b = h !! b)
    by (unfold h6; apply preserved_insert; assumption).
  assert (HspF0 : sp ∉ F0) by (eapply disjoint_lookup; eassumption).
  assert (Hs0_6 : subplan_ok s0 P t0 t1 dir F0 h6).
  { eapply subplan_ok_frame; [exact Hs0|]. intros b Hb. unfold h6.
    apply lookup_insert_ne. intros ->. exact (HspF0 Hb). }
  (* the sub-plan of size Q *)
  step (get_ok q Plan.data h6 rA H6q).
  step (get_ok q Plan.direction h6 rA H6q).
  step (get_ok q Plan.flags h6 rA H6q).
  destruct (fft_create_plan_alloc Q t0 t1 dir _flags h6)
    as (s1 & h7 & F1 & E & Hs1 & HF1 & Hfr7 & Hdom7);
    [clear - HQ HN; lia | exact Hdir | apply elem_of_dom; eexists; exact H6t0
    | apply elem_of_dom; eexists; exact H6t1 |].
  step E. clear E.
  pose proof (preserved_lookup _ _ _ _ Hfr7 H6q) as H7q.
  pose proof (preserved_lookup _ _ _ _ Hfr7 H6t0) as H7t0.
  pose proof (preserved_lookup _ _ _ _ Hfr7 H6t1) as H7t1.
  pose proof (preserved_lookup _ _ _ _ Hfr7 H6xs) as H7xs.
  pose proof (preserved_lookup _ _ _ _ Hfr7 H6sp) as H7sp.
  pose proof (preserved_trans _ _ _ Fr6 Hfr7) as Fr7.
  pose proof (subplan_ok_dom _ _ _ _ _ _ _ Hs0_6) as HF0dom.
  assert (Hs0_7 : subplan_ok s0 P t0 t1 dir F0 h7).
  { eapply subplan_ok_frame; [exact Hs0_6|]. intros b Hb. apply Hfr7, HF0dom, Hb. }
  assert (HF01 : F0 ## F1).
  { intros b Hb0 Hb1. apply (HF1 b Hb1). apply HF0dom, Hb0. }
  step (get_ok q Plan.subplans h7 rA H7q).
  rewrite (bind_Ret _ _ _ _ _ (write_plan_ok sp 1 s1 h7 [s0; NULL] H7sp ltac:(simpl; lia))).
  change (<[Z.to_nat 1 := s1]> [s0; NULL]) with [s0; s1].
  set (h8 := <[sp := OPtrs [s0; s1]]> h7).
  assert (H8q : h8 !! q = Some (OPlan rA)) by (unfold h8; lk).
  assert (H8t0 : h8 !! t0 = Some (OArr (replicate (Z.to_nat t_len) C0))) by (unfold h8; lk).
  assert (H8t1 : h8 !! t1 = Some (OArr (replicate (Z.to_nat t_len) C0))) by (unfold h8; lk).
  assert (H8xs : h8 !! xs = Some (OArr (replicate (Z.to_nat _nfft) C0))) by (unfold h8; lk).
  assert (H8sp : h8 !! sp = Some (OPtrs [s0; s1])) by (unfold h8; lk).
  assert (Fr8 : forall b, b ∈ dom h -> h8 !! b = h !! b)
    by (unfold h8; apply preserved_insert; assumption).
  assert (HspF1 : sp ∉ F1) by (eapply disjoint_lookup; eassumption).
  assert (Hs0_8 : subplan_ok s0 P t0 t1 dir F0 h8).
  { eapply subplan_ok_frame; [exact Hs0_7|]. intros b Hb. unfold h8.
    apply lookup_insert_ne. intros ->. exact (HspF0 Hb). }
  assert (Hs1_8 : subplan_ok s1 Q t0 t1 dir F1 h8).
  { eapply subplan_ok_frame; [exact Hs1|]. intros b Hb. unfold h8.
    apply lookup_insert_ne. intros ->. exact (HspF1 Hb). }
  (* the twiddle factors *)
  step (get_ok q Plan.nfft h8 rA H8q).
  unfold malloc_TC.
  destruct (malloc_ok (OArr (replicate (Z.to_nat _nfft) C0)) h8) as (tw & E & Htw & Hh8tw).
  step E. clear E.
  assert (Htwq : tw <> q) by (eapply lookup_None_ne; eassumption).
  assert (Htw0 : tw <> t0) by (eapply lookup_None_ne; eassumption).
  assert (Htw1 : tw <> t1) by (eapply lookup_None_ne; eassumption).
  assert (Htwx : tw <> xs) by (eapply lookup_None_ne; eassumption).
  assert (Htws : tw <> sp) by (eapply lookup_None_ne; eassumption).
  assert (HtwF0 : tw ∉ F0).
  { eapply subset_lookup_None; [|exact Hh8tw]. eapply subplan_ok_dom. exact Hs0_8. }
  assert (HtwF1 : tw ∉ F1).
  { eapply subset_lookup_None; [|exact Hh8tw]. eapply subplan_ok_dom. exact Hs1_8. }
  assert (Hhtw : h !! tw = None).
  { destruct (h !! tw) as [v|] eqn:Ev; [|reflexivity].
    rewrite <- Hh8tw. symmetry. rewrite Fr8 by (apply elem_of_dom; eexists; exact Ev).
    exact Ev. }
  set (h9 := <[tw := OArr (replicate (Z.to_nat _nfft) C0)]> h8).
  assert (H9q : h9 !! q = Some (OPlan rA)) by (unfold h9; lk).
  rewrite (bind_Ret _ _ _ _ _ (set_ok q _ h9 rA H9q)); fields.
  match goal with |- context [<[q := OPlan ?r]> h9] =>
    set (rF := r); set (h10 := <[q := OPlan r]> h9) end.
  assert (H10q : h10 !! q = Some (OPlan rF)) by (unfold h10, h9; lk).
  assert (H10tw : h10 !! tw = Some (OArr (replicate (Z.to_nat _nfft) C0)))
    by (unfold h10, h9; lk).
  step (get_ok q Plan.direction h10 rF H10q).
  step (get_ok q Plan.nfft h10 rF H10q).
  subst rF rA. fields. cbn [Plan.set_twiddle Plan.nfft Plan.x Plan.y Plan.flags
    Plan.kind Plan.direction Plan.method Plan.execute Plan.data Plan.num_subplans
    Plan.subplans Plan.twiddle] in H10q.
  match goal with |- context [bind (for_ 0 _nfft ?body)] =>
    assert (Hbody : forall k l', (k < Z.to_nat _nfft)%nat ->
              length l' = length (replicate (Z.to_nat _nfft) C0) ->
              body (Z.of_nat k) (<[tw := OArr l']> h10) =
              Ret tt (<[tw := OArr (<[k := twiddle_factor (twiddle_sign dir)
                                               (Z.of_nat k) _nfft]> l')]> h10))
  end.
  { intros k l' Hk Hl'. cbv beta.
    pose proof H10q as Hq'.
    rewrite <- (lookup_insert_ne h10 tw q (OArr l')) in Hq' by ne.
    step (get_ok q Plan.twiddle _ _ Hq').
    step (get_ok q Plan.nfft _ _ Hq').
    rewrite (write_ok tw (Z.of_nat k) _ (<[tw := OArr l']> h10) l'
               (lookup_insert_eq h10 tw (OArr l')))
      by (rewrite Hl', length_replicate; clear - Hk; lia).
    rewrite Nat2Z.id, insert_insert_eq. reflexivity. }
  rewrite (bind_Ret _ _ _ _ _
    (for_scatter tw (fun k => k)
       (fun k => twiddle_factor (twiddle_sign dir) (Z.of_nat k) _nfft)
       _ _nfft h10 _ HN H10tw Hbody)).
  set (tbl := scatter _ _ _ _ _).
  exists q, (<[tw := OArr tbl]> h10), t0, t1, xs, sp, tw, F0, F1.
  split; [reflexivity|].
  set (hf := <[tw := OArr tbl]> h10).
  assert (Hfq : hf !! q = Some (OPlan (Plan.mk _nfft _x _y _flags LIQUID_FFT_DFT_1D dir
            LIQUID_FFT_METHOD_MIXED_RADIX execute_mixed_radix_fn
            (MixedRadix.mk Q P t0 t1 xs) 2 sp tw)))
    by (unfold hf, h10; lk).
  assert (Hft0 : hf !! t0 = Some (OArr (replicate (Z.to_nat t_len) C0)))
    by (unfold hf, h10, h9; lk).
  assert (Hft1 : hf !! t1 = Some (OArr (replicate (Z.to_nat t_len) C0)))
    by (unfold hf, h10, h9; lk).
  assert (Hfxs : hf !! xs = Some (OArr (replicate (Z.to_nat _nfft) C0)))
    by (unfold hf, h10, h9; lk).
  assert (Hfsp : hf !! sp = Some (OPtrs [s0; s1])) by (unfold hf, h10, h9; lk).
  assert (Hftw : hf !! tw = Some (OArr tbl)) by (unfold hf; lk).
  assert (HqF0 : q ∉ F0) by (eapply disjoint_lookup; eassumption).
  assert (Ht0F0 : t0 ∉ F0) by (eapply disjoint_lookup; eassumption).
  assert (Ht1F0 : t1 ∉ F0) by (eapply disjoint_lookup; eassumption).
  assert (HxsF0 : xs ∉ F0) by (eapply disjoint_lookup; eassumption).
  assert (HqF1 : q ∉ F1) by (eapply disjoint_lookup; eassumption).
  assert (Ht0F1 : t0 ∉ F1) by (eapply disjoint_lookup; eassumption).
  assert (Ht1F1 : t1 ∉ F1) by (eapply disjoint_lookup; eassumption).
  assert (HxsF1 : xs ∉ F1) by (eapply disjoint_lookup; eassumption).
  assert (Hfr_sub : forall (F : gset ptr) b, q ∉ F -> tw ∉ F -> b ∈ F -> hf !! b = h8 !! b).
  { intros F b HqF HtwF Hb. unfold hf, h10, h9.
    rewrite !lookup_insert_ne; [reflexivity| | |]; intros ->; contradiction. }
  split; [|split; [|split; [|split]]].
  - constructor; fields.
    + exact Hfq.
    + clear - HN. lia.
    + clear - HP. lia.
    + clear - HQ. lia.
    + exact HPQ.
    + exact Hdir.
    + exists (replicate (Z.to_nat t_len) C0). split; [exact Hft0|].
      rewrite length_replicate. clear - HP HQ Ht_len. lia.
    + exists (replicate (Z.to_nat t_len) C0). split; [exact Hft1|].
      rewrite length_replicate. clear - HP HQ Ht_len. lia.
    + exists (replicate (Z.to_nat _nfft) C0). split; [exact Hfxs|].
      rewrite length_replicate. clear - HN. lia.
    + exists tbl. split; [exact Hftw|]. split.
      * unfold tbl. rewrite scatter_length, length_replicate. clear - HN. lia.
      * intros i Hi. apply twiddle_table_lookup. exact Hi.
    + exists s0, s1. split; [exact Hfsp|]. split.
      * eapply subplan_ok_frame; [exact Hs0_8|]. intros b. apply Hfr_sub; assumption.
      * eapply subplan_ok_frame; [exact Hs1_8|]. intros b. apply Hfr_sub; assumption.
    + apply NoDup_six; ne.
    + split; [exact HF01|]. intros b Hb. rewrite !elem_of_cons in Hb.
      rewrite not_elem_of_union.
      destruct Hb as [-> | [-> | [-> | [-> | [-> | [-> | Hb]]]]]];
        [split; assumption .. | inversion Hb].
  - unfold owned; fields. apply elem_of_disjoint. intros b Hb Hdom.
    assert (HbA : HA !! b = h !! b) by (apply FrA, Hdom).
    assert (Hb6 : h6 !! b = h !! b) by (apply Fr6, Hdom).
    apply elem_of_dom in Hdom. destruct Hdom as [v Hv].
    rewrite Hv in HbA, Hb6.
    rewrite !elem_of_union, !elem_of_singleton in Hb.
    destruct Hb as [[[[[[[-> | ->] | ->] | ->] | ->] | ->] | Hb] | Hb];
      try (rewrite Hv in *; discriminate).
    + exact (disjoint_lookup _ _ _ _ HF0 HbA Hb).
    + exact (disjoint_lookup _ _ _ _ HF1 Hb6 Hb).
  - unfold hf, h10, h9. do 3 (apply preserved_insert; [|assumption]). exact Fr8.
  - unfold owned; fields. unfold hf, h10, h9, h8.
    rewrite !dom_insert_L, Hdom7. unfold h6. rewrite dom_insert_L, Hdom5.
    unfold HA. rewrite !dom_insert_L. apply dom_after_create.
  - exact Hq.
Qed.

(** * The reference implementation frees what it allocates *)

Lemma reference_destroy_spec : @LiquidDestroySpec reference dft_plan_ok.
Proof.
  constructor. intros s n i o d F h [-> (fl & Hs)]. simpl. unfold dft_destroy_plan.
  exists (delete s h). split; [exact (free_ok s h _ Hs)|]. split.
  - intros b Hb. apply elem_of_singleton in Hb. subst b. apply lookup_delete_eq.
  - intros b Hb. apply lookup_delete_ne. intros ->. apply Hb.
    apply elem_of_singleton. reflexivity.
Qed.

Lemma reference_alloc_spec : @LiquidAllocSpec reference dft_plan_ok.
Proof.
  constructor. intros n i o d fl h Hn Hd Hi Ho. simpl. unfold dft_create_plan.
  destruct (malloc_ok (OPlan (dft_plan n i o d fl)) h) as (s & E & Hs & Hf).
  exists s, (<[s := OPlan (dft_plan n i o d fl)]> h), {[ s ]}.
  split; [exact E|]. split; [|split; [|split]].
  - split; [reflexivity|]. exists fl. apply lookup_insert_eq.
  - intros b Hb Hdom. apply elem_of_singleton in Hb. subst b.
    apply elem_of_dom in Hdom. rewrite Hf in Hdom. destruct Hdom as [? Hdom].
    discriminate.
  - intros b Hb. apply lookup_insert_ne. intros ->.
    apply elem_of_dom in Hb. rewrite Hf in Hb. destruct Hb as [? Hb]. discriminate.
  - rewrite dom_insert_L. apply union_comm_L.
Qed.

Lemma composite_6 : composite 6.
Proof. exists 2. split; [lia|]. exists 3. reflexivity. Qed.

Lemma caller_heap_in : caller_heap !! 1%nat = Some (OArr impulse6).
Proof. vm_compute. reflexivity. Qed.

Lemma caller_heap_out : caller_heap !! 2%nat = Some (OArr (replicate 6 C0)).
Proof. vm_compute. reflexivity. Qed.

(** * The destroyer: what it frees *)

(** What a returned plan is, with the blocks of the new heap counted. *)
Lemma create_plan_returns_exact `{Liquid} subplan_ok `{!LiquidSpec subplan_ok}
    `{!LiquidAllocSpec subplan_ok} _nfft _x _y _dir _flags h q h' :
  0 <= _nfft < 2 ^ 32 ->
  create_plan_mixed_radix _nfft _x _y _dir _flags h = Ret q h' ->
  exists t0 t1 x subplans twiddle F0 F1,
    plan_ok subplan_ok q
      (built_plan _nfft _x _y _dir _flags t0 t1 x subplans twiddle) F0 F1 h' /\
    owned q (built_plan _nfft _x _y _dir _flags t0 t1 x subplans twiddle) F0 F1
      ## dom h /\
    (forall b, b ∈ dom h -> h' !! b = h !! b) /\
    dom h' =
      dom h ∪ owned q (built_plan _nfft _x _y _dir _flags t0 t1 x subplans twiddle) F0 F1 /\
    q <> NULL.
Proof.
  intros HN E. destruct (composite_or_not _ HN) as [[E0 _] | Hc].
  - destruct (create_plan_exits _nfft _x _y _dir _flags h E0) as (q0 & E' & _).
    rewrite E' in E. discriminate.
  - destruct (create_plan_allocates subplan_ok _nfft _x _y _dir _flags h HN Hc)
      as (q0 & h0 & t0 & t1 & x & sp & tw & F0 & F1 & E' & Hrest).
    rewrite E' in E. injection E as <- <-.
    exists t0, t1, x, sp, tw, F0, F1. exact Hrest.
Qed.

(** X1. On a built plan [destroy] returns; it frees the plan record, the two
    scratch buffers, the staging buffer, the table of sub-plans, the twiddle
    factors and what the two sub-plans own, and no other block: the blocks of
    the heap afterwards are those of before but for what the plan owned, and
    each of them holds what it held. *)
Theorem destroy_frees_owned_blocks `{Liquid} subplan_ok `{!LiquidSpec subplan_ok}
    `{!LiquidDestroySpec subplan_ok} q r F0 F1 h :
  plan_ok subplan_ok q r F0 F1 h ->
  exists h',
    destroy_plan_mixed_radix q h = Ret tt h' /\
    dom h' = dom h ∖ owned q r F0 F1 /\
    (forall b, b ∈ dom h' -> h' !! b = h !! b).
Proof.
  intros Hok.
  destruct (destroy_plan_run subplan_ok q r F0 F1 h Hok) as (h' & E & Hgone & Hkeep).
  exists h'. split; [exact E|].
  assert (Hin : forall b, b ∈ dom h' <-> b ∈ dom h /\ b ∉ owned q r F0 F1).
  { intros b. destruct (decide (b ∈ owned q r F0 F1)) as [Hb | Hb].
    - split; [|tauto]. intros Hd. apply elem_of_dom in Hd.
      rewrite (Hgone b Hb) in Hd. destruct Hd as [? Hd]. discriminate.
    - rewrite !elem_of_dom, (Hkeep b Hb). tauto. }
  split.
  - apply set_eq. intros b. rewrite elem_of_difference. apply Hin.
  - intros b Hb. apply Hkeep. apply Hin in Hb. tauto.
Qed.

Lemma destroy_frees_owned_blocks_witness :
  exists h',
    @destroy_plan_mixed_radix reference 4%nat forward_heap = Ret tt h' /\
    dom h' = dom forward_heap ∖ owned 4%nat forward6 {[ 9%nat ]} {[ 10%nat ]} /\
    (forall b, b ∈ dom h' -> h' !! b = forward_heap !! b).
Proof.
  exact (@destroy_frees_owned_blocks reference dft_plan_ok reference_spec
           reference_destroy_spec 4%nat forward6 {[ 9%nat ]} {[ 10%nat ]} forward_heap
           forward6_ok).
Defined.

(** X2. Destroying the plan the builder has just returned gives back the heap
    of before the builder was called, block for block: a build followed by a
    destroy leaks nothing and changes nothing. *)
Theorem create_then_destroy_restores_heap `{Liquid} subplan_ok
    `{!LiquidSpec subplan_ok} `{!LiquidAllocSpec subplan_ok}
    `{!LiquidDestroySpec subplan_ok} _nfft _x _y _dir _flags h q h' :
  0 <= _nfft < 2 ^ 32 ->
  create_plan_mixed_radix _nfft _x _y _dir _flags h = Ret q h' ->
  destroy_plan_mixed_radix q h' = Ret tt h.
Proof.
  intros HN E.
  destruct (create_plan_returns_exact subplan_ok _ _ _ _ _ _ _ _ HN E)
    as (t0 & t1 & x & sp & tw & F0 & F1 & Hok & Hown & Hfr & Hdom & _).
  destruct (destroy_plan_run subplan_ok _ _ _ _ _ Hok) as (hf & Ed & Hgone & Hkeep).
  rewrite Ed. f_equal. apply map_eq. intros b.
  destruct (decide (b ∈ owned q (built_plan _nfft _x _y _dir _flags t0 t1 x sp tw) F0 F1))
    as [Hb | Hb].
  - rewrite (Hgone b Hb). symmetry. apply not_elem_of_dom. intros Hd.
    exact (Hown b Hb Hd).
  - rewrite (Hkeep b Hb). destruct (decide (b ∈ dom h)) as [Hd | Hd].
    + apply Hfr, Hd.
    + rewrite (not_elem_of_dom_1 h b Hd). apply not_elem_of_dom.
      rewrite Hdom, not_elem_of_union. split; assumption.
Qed.

Lemma create_then_destroy_restores_heap_witness :
  0 <= 6 < 2 ^ 32 /\
  @create_plan_mixed_radix reference 6 1%nat 2%nat 1 0 caller_heap
    = Ret 4%nat forward_heap /\
  @destroy_plan_mixed_radix reference 4%nat forward_heap = Ret tt caller_heap.
Proof.
  assert (HN : 0 <= 6 < 2 ^ 32) by lia.
  split; [exact HN|]. split; [exact create_forward6|].
  exact (@create_then_destroy_restores_heap reference dft_plan_ok reference_spec
           reference_alloc_spec reference_destroy_spec
           6 1%nat 2%nat 1 0 caller_heap 4%nat forward_heap HN create_forward6).
Defined.

(** X3. A whole life of a plan: built on two buffers of the caller of at
    least [N] samples, executed and destroyed, it leaves the heap of before
    the build, but for the output buffer, whose first [N] samples now hold
    the transform of the input. *)
Theorem create_execute_destroy `{Liquid} subplan_ok
    `{!LiquidSpec subplan_ok} `{!LiquidAllocSpec subplan_ok}
    `{!LiquidDestroySpec subplan_ok} _nfft _x _y _dir _flags h q h1 a b :
  0 <= _nfft < 2 ^ 32 ->
  h !! _x = Some (OArr a) -> h !! _y = Some (OArr b) ->
  _nfft <= Z.of_nat (length a) -> _nfft <= Z.of_nat (length b) ->
  create_plan_mixed_radix _nfft _x _y _dir _flags h = Ret q h1 ->
  exists h2 b',
    execute_mixed_radix q h1 = Ret tt h2 /\
    destroy_plan_mixed_radix q h2 = Ret tt (<[_y := OArr b']> h) /\
    length b' = length b /\
    forall m, (m < Z.to_nat _nfft)%nat ->
      b' !! m = Some (dft_direct (if _dir =? FFT_FORWARD then (-1)%R else 1%R)
                        (Z.to_nat _nfft) (elems a) m).
Proof.
  intros HN Hx Hy Hla Hlb E.
  destruct (create_plan_returns_exact subplan_ok _ _ _ _ _ _ _ _ HN E)
    as (t0 & t1 & x & sp & tw & F0 & F1 & Hok & Hown & Hfr & Hdom & _).
  set (r := built_plan _nfft _x _y _dir _flags t0 t1 x sp tw) in *.
  assert (HxO : _x ∉ owned q r F0 F1).
  { intros Hb. apply (Hown _ Hb). apply elem_of_dom. eexists. exact Hx. }
  assert (HyO : _y ∉ owned q r F0 F1).
  { intros Hb. apply (Hown _ Hb). apply elem_of_dom. eexists. exact Hy. }
  assert (Hbuf : buffers_ok q r F0 F1 h1 a b).
  { constructor; try assumption.
    - apply (preserved_lookup h h1 _ _ Hfr Hx).
    - apply (preserved_lookup h h1 _ _ Hfr Hy). }
  destruct (execute_mixed_radix_spec subplan_ok q r F0 F1 h1 a b Hok Hbuf)
    as (h2 & b' & Ee & Hy2 & Hlen & Hval & _ & Hok2 & Hfr2).
  destruct (destroy_plan_run subplan_ok _ _ _ _ _ Hok2) as (hf & Ed & Hgone & Hkeep).
  exists h2, b'. split; [exact Ee|]. split; [|split; [exact Hlen|]].
  - rewrite Ed. f_equal. apply map_eq. intros p.
    destruct (decide (p = _y)) as [-> | Hpy].
    + rewrite lookup_insert_eq, (Hkeep _ HyO). exact Hy2.
    + rewrite lookup_insert_ne by (apply not_eq_sym; exact Hpy).
      destruct (decide (p ∈ owned q r F0 F1)) as [Hp | Hp].
      * rewrite (Hgone p Hp). symmetry. apply not_elem_of_dom. intros Hd.
        exact (Hown p Hp Hd).
      * rewrite (Hkeep p Hp), Hfr2 by (apply not_owned_not_scratch with q; assumption).
        destruct (decide (p ∈ dom h)) as [Hd | Hd].
        -- apply Hfr, Hd.
        -- rewrite (not_elem_of_dom_1 h p Hd). apply not_elem_of_dom.
           rewrite Hdom, not_elem_of_union. split; assumption.
  - intros m Hm. rewrite (Hval m Hm). do 2 f_equal. unfold twiddle_sign. simpl.
    destruct (Z.eqb_spec _dir FFT_FORWARD) as [_ | _].
    + rewrite Z.eqb_refl. reflexivity.
    + destruct (Z.eqb_spec FFT_REVERSE FFT_FORWARD) as [Eq | _]; [|reflexivity].
      exfalso. apply FFT_FORWARD_neq_REVERSE. symmetry. exact Eq.
Qed.

Lemma create_execute_destroy_witness :
  exists h2 b',
    @execute_mixed_radix reference 4%nat forward_heap = Ret tt h2 /\
    @destroy_plan_mixed_radix reference 4%nat h2
      = Ret tt (<[2%nat := OArr b']> caller_heap) /\
    length b' = length (replicate 6 C0) /\
    forall m, (m < Z.to_nat 6)%nat ->
      b' !! m = Some (dft_direct (if 1 =? @FFT_FORWARD reference then (-1)%R else 1%R)
                        (Z.to_nat 6) (elems impulse6) m).
Proof.
  exact (@create_execute_destroy reference dft_plan_ok reference_spec
           reference_alloc_spec reference_destroy_spec
           6 1%nat 2%nat 1 0 caller_heap 4%nat forward_heap impulse6 (replicate 6 C0)
           ltac:(lia) caller_heap_in caller_heap_out ltac:(simpl; lia) ltac:(simpl; lia)
           create_forward6).
Defined.

(** X4. After [destroy] the plan is gone: its record is no longer in the
    heap, so that a later [execute] or a second [destroy] on the same pointer
    is an access to freed memory (the outcome [Fault]), not a transform or a
    second release of the buffers. *)
Theorem destroyed_plan_is_dead `{Liquid} subplan_ok `{!LiquidSpec subplan_ok}
    `{!LiquidDestroySpec subplan_ok} q r F0 F1 h h' :
  plan_ok subplan_ok q r F0 F1 h ->
  destroy_plan_mixed_radix q h = Ret tt h' ->
  h' !! q = None /\
  execute_mixed_radix q h' = Fault /\
  destroy_plan_mixed_radix q h' = Fault.
Proof.
  intros Hok E.
  destruct (destroy_plan_run subplan_ok q r F0 F1 h Hok) as (hf & Ed & Hgone & _).
  rewrite Ed in E. injection E as <-.
  assert (Hq : hf !! q = None).
  { apply Hgone. apply elem_of_owned. left. reflexivity. }
  split; [exact Hq|]. split.
  - unfold execute_mixed_radix, bind, get. rewrite Hq. reflexivity.
  - unfold destroy_plan_mixed_radix, bind, get. rewrite Hq. reflexivity.
Qed.

Lemma destroyed_plan_is_dead_witness :
  @destroy_plan_mixed_radix reference 4%nat forward_heap = Ret tt caller_heap /\
  caller_heap !! 4%nat = None /\
  @execute_mixed_radix reference 4%nat caller_heap = Fault /\
  @destroy_plan_mixed_radix reference 4%nat caller_heap = Fault.
Proof.
  assert (E : @destroy_plan_mixed_radix reference 4%nat forward_heap = Ret tt caller_heap)
    by (vm_compute; reflexivity).
  split; [exact E|].
  exact (@destroyed_plan_is_dead reference dft_plan_ok reference_spec
           reference_destroy_spec 4%nat forward6 {[ 9%nat ]} {[ 10%nat ]}
           forward_heap caller_heap forward6_ok E).
Defined.

(** * The executor: both directions, in place, again and again *)

Example create_inplace6 :
  @create_plan_mixed_radix reference 6 1%nat 1%nat 1 0 caller_heap
  = Ret 4%nat inplace_heap.
Proof. vm_compute. reflexivity. Qed.

Lemma inplace6_ok :
  @plan_ok reference dft_plan_ok 4%nat inplace6 {[ 9%nat ]} {[ 10%nat ]} inplace_heap.
Proof.
  concrete_plan_ok (replicate 3 C0) (replicate 6 C0) (twiddles6 (-1)%R) 9%nat 10%nat.
Qed.

Lemma inplace6_buffers :
  buffers_ok 4%nat inplace6 {[ 9%nat ]} {[ 10%nat ]} inplace_heap impulse6 impulse6.
Proof. concrete_buffers_ok. Qed.

Lemma shifted_ok :
  @plan_ok reference dft_plan_ok 12%nat inverse6 {[ 17%nat ]} {[ 18%nat ]} shifted_heap.
Proof.
  concrete_plan_ok (replicate 3 C0) (replicate 6 C0) (twiddles6 1%R) 17%nat 18%nat.
Qed.

Lemma shifted_buffers :
  buffers_ok 12%nat inverse6 {[ 17%nat ]} {[ 18%nat ]} shifted_heap
    shifted6 (replicate 6 C0).
Proof. concrete_buffers_ok. Qed.

Lemma long_output_ok :
  @plan_ok reference dft_plan_ok 4%nat forward6 {[ 9%nat ]} {[ 10%nat ]} long_output_heap.
Proof.
  concrete_plan_ok (replicate 3 C0) (replicate 6 C0) (twiddles6 (-1)%R) 9%nat 10%nat.
Qed.

Lemma long_output_buffers :
  buffers_ok 4%nat forward6 {[ 9%nat ]} {[ 10%nat ]} long_output_heap
    impulse6 long_output.
Proof. concrete_buffers_ok. Qed.

Lemma ones_ok :
  @plan_ok reference dft_plan_ok 4%nat forward6 {[ 9%nat ]} {[ 10%nat ]} ones_heap.
Proof.
  concrete_plan_ok (replicate 3 C0) (replicate 6 C0) (twiddles6 (-1)%R) 9%nat 10%nat.
Qed.

Lemma ones_buffers :
  buffers_ok 4%nat forward6 {[ 9%nat ]} {[ 10%nat ]} ones_heap
    (replicate 6 C1) (replicate 6 C0).
Proof. concrete_buffers_ok. Qed.

(** The transform of the impulse at position 1 is the sequence of the powers
    of the root of unity of its sign, and the two signs give two sequences. *)
Lemma shifted6_spectrum sign m : dft_direct sign 6 (elems shifted6) m = root sign 6 m.
Proof.
  unfold dft_direct. rewrite (Csum_single 6 1).
  - rewrite Nat.mul_1_r. unfold elems, shifted6. simpl. ring.
  - lia.
  - intros i Hi Hne. unfold elems, shifted6.
    destruct i as [|[|[|[|[|[|i]]]]]]; try lia; simpl; ring.
Qed.

Lemma shifted6_tells_directions m :
  m = 1%nat ->
  dft_direct 1 6 (elems shifted6) m <> dft_direct (-1) 6 (elems shifted6) m.
Proof.
  intros ->. rewrite !shifted6_spectrum. unfold root, cis. intros E.
  apply (f_equal snd) in E. simpl in E.
  replace (-1 * 2 * PI * 1 / (1 + 1 + 1 + 1 + 1 + 1))%R
    with (- (1 * 2 * PI * 1 / (1 + 1 + 1 + 1 + 1 + 1)))%R in E by (unfold Rdiv; ring).
  rewrite sin_neg in E.
  pose proof PI_RGT_0 as Hpi.
  assert (Hs : (0 < sin (1 * 2 * PI * 1 / (1 + 1 + 1 + 1 + 1 + 1)))%R)
    by (apply sin_gt_0; lra).
  lra.
Qed.

(** X5. On a built plan of direction REVERSE, [execute] leaves in the output
    buffer the transform with the positive exponent, without the factor
    [1/N]: [output[m]] is the sum over [n < N] of
    [input[n] * exp(+2 pi i m n / N)]. *)
Theorem execute_reverse_is_direct_dft `{Liquid} subplan_ok `{!LiquidSpec subplan_ok}
    q r F0 F1 h a b :
  plan_ok subplan_ok q r F0 F1 h ->
  buffers_ok q r F0 F1 h a b ->
  Plan.direction r = FFT_REVERSE ->
  exists h' b',
    execute_mixed_radix q h = Ret tt h' /\
    h' !! Plan.y r = Some (OArr b') /\
    forall m, (m < Z.to_nat (Plan.nfft r))%nat ->
      b' !! m = Some (dft_direct 1 (Z.to_nat (Plan.nfft r)) (elems a) m).
Proof.
  intros Hok Hbuf Hdir.
  destruct (execute_mixed_radix_spec subplan_ok q r F0 F1 h a b Hok Hbuf)
    as (h' & b' & E & Hy & _ & Hval & _).
  exists h', b'. rewrite (twiddle_sign_reverse subplan_ok _ Hdir) in Hval.
  repeat split; assumption.
Qed.

Lemma execute_reverse_is_direct_dft_witness :
  exists h' b',
    @execute_mixed_radix reference 12%nat shifted_heap = Ret tt h' /\
    h' !! Plan.y inverse6 = Some (OArr b') /\
    forall m, (m < Z.to_nat (Plan.nfft inverse6))%nat ->
      b' !! m = Some (dft_direct 1 (Z.to_nat (Plan.nfft inverse6)) (elems shifted6) m).
Proof.
  exact (@execute_reverse_is_direct_dft reference dft_plan_ok reference_spec
           12%nat inverse6 {[ 17%nat ]} {[ 18%nat ]} shifted_heap
           shifted6 (replicate 6 C0) shifted_ok shifted_buffers eq_refl).
Defined.

(** On the impulse at position 1 the inverse plan gives the powers of
    [exp(+2 pi i / 6)], which the forward transform does not. *)
Example execute_reverse_shifted6 :
  exists h' b',
    @execute_mixed_radix reference 12%nat shifted_heap = Ret tt h' /\
    h' !! 3%nat = Some (OArr b') /\
    b' !! 1%nat = Some (root 1 6 1) /\
    root 1 6 1 <> dft_direct (-1) 6 (elems shifted6) 1.
Proof.
  destruct (@execute_mixed_radix_spec reference dft_plan_ok reference_spec
              12%nat inverse6 {[ 17%nat ]} {[ 18%nat ]} shifted_heap
              shifted6 (replicate 6 C0) shifted_ok shifted_buffers)
    as (h' & b' & E & Hy & _ & Hv & _).
  exists h', b'. split; [exact E|]. split; [exact Hy|].
  change (Z.to_nat (Plan.nfft inverse6)) with 6%nat in Hv.
  change (@twiddle_sign reference (Plan.direction inverse6)) with 1%R in Hv.
  split.
  - rewrite (Hv 1%nat) by lia. rewrite shifted6_spectrum. reflexivity.
  - rewrite <- (shifted6_spectrum 1 1). apply shifted6_tells_directions. reflexivity.
Qed.

(** X6. [execute] writes the first [N] samples of the output buffer and no
    other: the buffer keeps its length, and a sample at a position [N] or
    above is as before the call. *)
Theorem execute_keeps_output_tail `{Liquid} subplan_ok `{!LiquidSpec subplan_ok}
    q r F0 F1 h a b :
  plan_ok subplan_ok q r F0 F1 h ->
  buffers_ok q r F0 F1 h a b ->
  exists h' b',
    execute_mixed_radix q h = Ret tt h' /\
    h' !! Plan.y r = Some (OArr b') /\
    length b' = length b /\
    drop (Z.to_nat (Plan.nfft r)) b' = drop (Z.to_nat (Plan.nfft r)) b.
Proof.
  intros Hok Hbuf.
  destruct (execute_mixed_radix_spec subplan_ok q r F0 F1 h a b Hok Hbuf)
    as (h' & b' & E & Hy & Hlen & _ & Htail & _).
  exists h', b'. split; [exact E|]. split; [exact Hy|]. split; [exact Hlen|].
  apply list_eq. intros m. rewrite !lookup_drop. apply Htail. lia.
Qed.

Lemma execute_keeps_output_tail_witness :
  exists h' b',
    @execute_mixed_radix reference 4%nat long_output_heap = Ret tt h' /\
    h' !! Plan.y forward6 = Some (OArr b') /\
    length b' = 8%nat /\
    drop (Z.to_nat (Plan.nfft forward6)) b' = [C1; Complex_I].
Proof.
  exact (@execute_keeps_output_tail reference dft_plan_ok reference_spec
           4%nat forward6 {[ 9%nat ]} {[ 10%nat ]} long_output_heap impulse6 long_output
           long_output_ok long_output_buffers).
Defined.

(** X7. A plan may be built with the output buffer equal to the input
    buffer: [execute] copies the input to the staging buffer before it writes
    any output, so that the buffer ends with the transform of what it held
    when the call began. *)
Theorem execute_in_place `{Liquid} subplan_ok `{!LiquidSpec subplan_ok}
    q r F0 F1 h a b :
  plan_ok subplan_ok q r F0 F1 h ->
  buffers_ok q r F0 F1 h a b ->
  Plan.x r = Plan.y r ->
  exists h' a',
    execute_mixed_radix q h = Ret tt h' /\
    h' !! Plan.x r = Some (OArr a') /\
    length a' = length a /\
    forall m, (m < Z.to_nat (Plan.nfft r))%nat ->
      a' !! m = Some (dft_direct (twiddle_sign (Plan.direction r))
                        (Z.to_nat (Plan.nfft r)) (elems a) m).
Proof.
  intros Hok Hbuf Exy.
  assert (Eab : a = b).
  { destruct Hbuf as [Hi Ho _ _ _ _]. rewrite Exy, Ho in Hi. congruence. }
  destruct (execute_mixed_radix_spec subplan_ok q r F0 F1 h a b Hok Hbuf)
    as (h' & b' & E & Hy & Hlen & Hval & _).
  exists h', b'. rewrite Exy, Eab. rewrite Eab in Hval.
  repeat split; assumption.
Qed.

Lemma execute_in_place_witness :
  exists h' a',
    @execute_mixed_radix reference 4%nat inplace_heap = Ret tt h' /\
    h' !! Plan.x inplace6 = Some (OArr a') /\
    length a' = length impulse6 /\
    forall m, (m < Z.to_nat (Plan.nfft inplace6))%nat ->
      a' !! m = Some (dft_direct (@twiddle_sign reference (Plan.direction inplace6))
                        (Z.to_nat (Plan.nfft inplace6)) (elems impulse6) m).
Proof.
  exact (@execute_in_place reference dft_plan_ok reference_spec
           4%nat inplace6 {[ 9%nat ]} {[ 10%nat ]} inplace_heap impulse6 impulse6
           inplace6_ok inplace6_buffers eq_refl).
Defined.

(** After a run on distinct buffers the plan is built and the buffers are
    those of before, with the new output. *)
Lemma execute_again `{Liquid} subplan_ok `{!LiquidSpec subplan_ok}
    q r F0 F1 h a b :
  plan_ok subplan_ok q r F0 F1 h ->
  buffers_ok q r F0 F1 h a b ->
  Plan.x r <> Plan.y r ->
  exists h' b',
    execute_mixed_radix q h = Ret tt h' /\
    plan_ok subplan_ok q r F0 F1 h' /\
    buffers_ok q r F0 F1 h' a b' /\
    length b' = length b /\
    forall m, (m < Z.to_nat (Plan.nfft r))%nat ->
      b' !! m = Some (dft_direct (twiddle_sign (Plan.direction r))
                        (Z.to_nat (Plan.nfft r)) (elems a) m).
Proof.
  intros Hok Hbuf Hxy.
  destruct (execute_mixed_radix_spec subplan_ok q r F0 F1 h a b Hok Hbuf)
    as (h' & b' & E & Hy & Hlen & Hval & _ & Hok' & Hfr).
  exists h', b'. split; [exact E|]. split; [exact Hok'|].
  split; [|split; assumption].
  destruct Hbuf as [Hi Ho Hli Hlo Hic Hoc]. constructor; try assumption.
  - rewrite Hfr; [exact Hi|]. apply not_owned_not_scratch with q; assumption.
  - rewrite Hlen. exact Hlo.
Qed.

(** X8. [execute] may be called any number of times on a plan whose output
    buffer is not its input buffer: every call returns, and after one call or
    more the output buffer holds the transform of the input, which is
    unchanged; the plan keeps no state from one call to the next. *)
Theorem execute_repeatable `{Liquid} subplan_ok `{!LiquidSpec subplan_ok}
    q r F0 F1 a (n : nat) h b :
  plan_ok subplan_ok q r F0 F1 h ->
  buffers_ok q r F0 F1 h a b ->
  Plan.x r <> Plan.y r ->
  exists h' b',
    execute_times (S n) q h = Ret tt h' /\
    h' !! Plan.x r = Some (OArr a) /\
    h' !! Plan.y r = Some (OArr b') /\
    length b' = length b /\
    (forall m, (m < Z.to_nat (Plan.nfft r))%nat ->
       b' !! m = Some (dft_direct (twiddle_sign (Plan.direction r))
                         (Z.to_nat (Plan.nfft r)) (elems a) m)) /\
    plan_ok subplan_ok q r F0 F1 h'.
Proof.
  intros Hok Hbuf Hxy. revert h b Hok Hbuf.
  induction n as [|n IH]; intros h b Hok Hbuf;
    destruct (execute_again subplan_ok q r F0 F1 h a b Hok Hbuf Hxy)
      as (h1 & b1 & E & Hok1 & Hbuf1 & Hlen1 & Hval1).
  - exists h1, b1. split.
    + change (execute_times 1 q) with (execute_mixed_radix q ;;; ret tt).
      rewrite (bind_Ret _ _ _ _ _ E). reflexivity.
    + destruct Hbuf1 as [Hi Ho _ _ _ _].
      split; [exact Hi|]. split; [exact Ho|]. split; [exact Hlen1|].
      split; [exact Hval1 | exact Hok1].
  - destruct (IH h1 b1 Hok1 Hbuf1) as (h2 & b2 & E2 & Hi2 & Ho2 & Hlen2 & Hval2 & Hok2).
    exists h2, b2. split.
    + change (execute_times (S (S n)) q)
        with (execute_mixed_radix q ;;; execute_times (S n) q).
      rewrite (bind_Ret _ _ _ _ _ E). exact E2.
    + rewrite Hlen2, Hlen1.
      split; [exact Hi2|]. split; [exact Ho2|]. split; [reflexivity|].
      split; [exact Hval2 | exact Hok2].
Qed.

Lemma execute_repeatable_witness :
  exists h' b',
    @execute_times reference 3 4%nat forward_heap = Ret tt h' /\
    h' !! Plan.x forward6 = Some (OArr impulse6) /\
    h' !! Plan.y forward6 = Some (OArr b') /\
    length b' = length (replicate 6 C0) /\
    (forall m, (m < Z.to_nat (Plan.nfft forward6))%nat ->
       b' !! m = Some (dft_direct (@twiddle_sign reference (Plan.direction forward6))
                         (Z.to_nat (Plan.nfft forward6)) (elems impulse6) m)) /\
    @plan_ok reference dft_plan_ok 4%nat forward6 {[ 9%nat ]} {[ 10%nat ]} h'.
Proof.
  exact (@execute_repeatable reference dft_plan_ok reference_spec
           4%nat forward6 {[ 9%nat ]} {[ 10%nat ]} impulse6 2 forward_heap
           (replicate 6 C0) forward6_ok forward6_buffers ltac:(discriminate)).
Defined.

(** * The executor as a sub-plan *)

(** X9. A built mixed-radix plan meets what [execute] itself asks of the
    plans of the factory: called on a plan of size [n] from the buffer [i] to
    the buffer [o], both outside what the plan owns, [execute] returns,
    writes the [n]-point transform to the first [n] samples of [o], keeps the
    length of [o], leaves the plan built and changes no block but [o] and
    what the plan owns.  A mixed-radix plan can so be a sub-plan of a
    mixed-radix plan. *)
Theorem execute_meets_subplan_contract `{Liquid} subplan_ok `{!LiquidSpec subplan_ok}
    s n i o d F h a b :
  mixed_radix_ok subplan_ok s n i o d F h ->
  h !! i = Some (OArr a) -> h !! o = Some (OArr b) ->
  i ∉ F -> o ∉ F ->
  (Z.to_nat n <= length a)%nat -> (Z.to_nat n <= length b)%nat ->
  exists h' b',
    execute_mixed_radix s h = Ret tt h' /\
    h' !! o = Some (OArr b') /\
    length b' = length b /\
    (forall k, (k < Z.to_nat n)%nat ->
       b' !! k = Some (dft_direct (twiddle_sign d) (Z.to_nat n) (elems a) k)) /\
    mixed_radix_ok subplan_ok s n i o d F h' /\
    (forall p, p <> o -> p ∉ F -> h' !! p = h !! p).
Proof.
  intros (r & F0 & F1 & Hok & <- & <- & <- & <- & ->) Hi Ho HiF HoF Hla Hlb.
  assert (Hn : 0 <= Plan.nfft r).
  { destruct Hok as [_ _ HP HQ HPQ _ _ _ _ _ _ _ _]. clear - HP HQ HPQ. nia. }
  assert (Hbuf : buffers_ok s r F0 F1 h a b).
  { constructor; try assumption; clear - Hn Hla Hlb; lia. }
  destruct (execute_mixed_radix_spec subplan_ok s r F0 F1 h a b Hok Hbuf)
    as (h' & b' & E & Hy & Hlen & Hval & _ & Hok' & Hfr).
  exists h', b'. split; [exact E|]. split; [exact Hy|]. split; [exact Hlen|].
  split; [exact Hval|]. split.
  - exists r, F0, F1. split; [exact Hok'|]. repeat split; reflexivity.
  - intros p Hp HpF. apply Hfr. apply not_owned_not_scratch with s; assumption.
Qed.

Lemma execute_meets_subplan_contract_witness :
  exists h' b',
    @execute_mixed_radix reference 4%nat forward_heap = Ret tt h' /\
    h' !! 2%nat = Some (OArr b') /\
    length b' = length (replicate 6 C0) /\
    (forall k, (k < Z.to_nat 6)%nat ->
       b' !! k = Some (dft_direct (@twiddle_sign reference 1) (Z.to_nat 6)
                         (elems impulse6) k)) /\
    @mixed_radix_ok reference dft_plan_ok 4%nat 6 1%nat 2%nat 1
      (owned 4%nat forward6 {[ 9%nat ]} {[ 10%nat ]}) h' /\
    (forall p, p <> 2%nat -> p ∉ owned 4%nat forward6 {[ 9%nat ]} {[ 10%nat ]} ->
       h' !! p = forward_heap !! p).
Proof.
  apply (@execute_meets_subplan_contract reference dft_plan_ok reference_spec
           4%nat 6 1%nat 2%nat 1 (owned 4%nat forward6 {[ 9%nat ]} {[ 10%nat ]})
           forward_heap impulse6 (replicate 6 C0)).
  - exists forward6, {[ 9%nat ]}, {[ 10%nat ]}.
    split; [exact forward6_ok|]. repeat split; reflexivity.
  - vm_compute. reflexivity.
  - vm_compute. reflexivity.
  - compute_done.
  - compute_done.
  - simpl. lia.
  - simpl. lia.
Defined.

(** * The transform of two simple signals *)

(** X10. The transform of the unit impulse is flat: when the input holds 1
    at position 0 and 0 at the positions [1, ..., N-1], [execute] leaves 1 in
    each of the first [N] samples of the output, in either direction. *)
Theorem execute_unit_impulse `{Liquid} subplan_ok `{!LiquidSpec subplan_ok}
    q r F0 F1 h a b :
  plan_ok subplan_ok q r F0 F1 h ->
  buffers_ok q r F0 F1 h a b ->
  a !! 0%nat = Some C1 ->
  (forall j, (0 < j < Z.to_nat (Plan.nfft r))%nat -> a !! j = Some C0) ->
  exists h' b',
    execute_mixed_radix q h = Ret tt h' /\
    h' !! Plan.y r = Some (OArr b') /\
    forall m, (m < Z.to_nat (Plan.nfft r))%nat -> b' !! m = Some C1.
Proof.
  intros Hok Hbuf H0 Hz.
  destruct (execute_mixed_radix_spec subplan_ok q r F0 F1 h a b Hok Hbuf)
    as (h' & b' & E & Hy & _ & Hval & _).
  exists h', b'. split; [exact E|]. split; [exact Hy|].
  intros m Hm. rewrite (Hval m Hm). f_equal. unfold dft_direct.
  rewrite (Csum_single _ 0).
  - rewrite Nat.mul_0_r, root_0, (elems_lookup _ _ _ H0). ring.
  - lia.
  - intros j Hj Hne. rewrite (elems_lookup a j C0) by (apply Hz; lia). ring.
Qed.

Lemma execute_unit_impulse_witness :
  exists h' b',
    @execute_mixed_radix reference 4%nat forward_heap = Ret tt h' /\
    h' !! Plan.y forward6 = Some (OArr b') /\
    forall m, (m < Z.to_nat (Plan.nfft forward6))%nat -> b' !! m = Some C1.
Proof.
  apply (@execute_unit_impulse reference dft_plan_ok reference_spec
           4%nat forward6 {[ 9%nat ]} {[ 10%nat ]} forward_heap impulse6 (replicate 6 C0)
           forward6_ok forward6_buffers).
  - reflexivity.
  - intros j Hj. change (Z.to_nat (Plan.nfft forward6)) with 6%nat in Hj.
    destruct j as [|[|[|[|[|[|j]]]]]]; try lia; reflexivity.
Defined.

(** The sum of the powers of a root of unity other than 1 is 0. *)
Lemma root_sum_zero sign n m :
  is_sign sign -> (0 < m < n)%nat -> Csum n (fun j => root sign n (m * j)) = C0.
Proof.
  intros [-> | ->] Hm.
  - rewrite <- (root_orthogonal n 0 m) by lia. apply Csum_ext. intros j Hj.
    rewrite Nat.mul_0_l, root_0, (Nat.mul_comm m j). ring.
  - rewrite <- (root_orthogonal n m 0) by lia. apply Csum_ext. intros j Hj.
    rewrite Nat.mul_0_r, root_0. ring.
Qed.

(** X11. The transform of a constant signal is a single line: when the first
    [N] samples of the input all hold [c], [execute] leaves [N * c] at
    position 0 of the output and 0 at the positions [1, ..., N-1], in either
    direction. *)
Theorem execute_constant `{Liquid} subplan_ok `{!LiquidSpec subplan_ok}
    q r F0 F1 h a b c :
  plan_ok subplan_ok q r F0 F1 h ->
  buffers_ok q r F0 F1 h a b ->
  (forall j, (j < Z.to_nat (Plan.nfft r))%nat -> a !! j = Some c) ->
  exists h' b',
    execute_mixed_radix q h = Ret tt h' /\
    h' !! Plan.y r = Some (OArr b') /\
    b' !! 0%nat = Some (Cmul (Cnat (Z.to_nat (Plan.nfft r))) c) /\
    forall m, (0 < m < Z.to_nat (Plan.nfft r))%nat -> b' !! m = Some C0.
Proof.
  intros Hok Hbuf Hc.
  destruct (execute_mixed_radix_spec subplan_ok q r F0 F1 h a b Hok Hbuf)
    as (h' & b' & E & Hy & _ & Hval & _).
  assert (Hn : (0 < Z.to_nat (Plan.nfft r))%nat).
  { destruct Hok as [_ _ HP HQ HPQ _ _ _ _ _ _ _ _]. clear - HP HQ HPQ. nia. }
  exists h', b'. split; [exact E|]. split; [exact Hy|]. split.
  - rewrite (Hval 0%nat Hn). f_equal. unfold dft_direct.
    rewrite <- Csum_const. apply Csum_ext. intros j Hj.
    rewrite Nat.mul_0_l, root_0, (elems_lookup a j c (Hc j Hj)). ring.
  - intros m Hm. rewrite (Hval m) by (clear - Hm; lia). f_equal. unfold dft_direct.
    rewrite (Csum_ext _ _ (fun j => Cmul c (root (twiddle_sign (Plan.direction r))
                                            (Z.to_nat (Plan.nfft r)) (m * j)))).
    + rewrite Csum_mul_l, root_sum_zero; [ring | apply twiddle_sign_is_sign | exact Hm].
    + intros j Hj. rewrite (elems_lookup a j c (Hc j Hj)). reflexivity.
Qed.

Lemma execute_constant_witness :
  exists h' b',
    @execute_mixed_radix reference 4%nat ones_heap = Ret tt h' /\
    h' !! Plan.y forward6 = Some (OArr b') /\
    b' !! 0%nat = Some (Cmul (Cnat 6) C1) /\
    forall m, (0 < m < 6)%nat -> b' !! m = Some C0.
Proof.
  apply (@execute_constant reference dft_plan_ok reference_spec
           4%nat forward6 {[ 9%nat ]} {[ 10%nat ]} ones_heap
           (replicate 6 C1) (replicate 6 C0) C1 ones_ok ones_buffers).
  intros j Hj. change (Z.to_nat (Plan.nfft forward6)) with 6%nat in Hj.
  apply lookup_replicate_2. exact Hj.
Defined.

(** The line at position 0 is 6, not 0. *)
Example constant_line : Cmul (Cnat 6) C1 <> C0.
Proof.
  unfold Cmul, Cnat, C1, C0, Cre, Cim. simpl. intros E.
  apply (f_equal fst) in E. simpl in E. lra.
Qed.

(** * The builder: sizes, fields and sub-plans *)

(** The least factor is at most its cofactor. *)
Lemma first_factor_le_cofactor N :
  0 <= N < 2 ^ 32 -> composite N -> first_factor N <= N / first_factor N.
Proof.
  intros HN Hc. destruct (first_factor_composite N HN Hc) as (HQ & _ & Hmin & HP & HPQ).
  destruct (Z_le_gt_dec (first_factor N) (N / first_factor N)) as [Hle | Hgt];
    [exact Hle|].
  exfalso. apply (Hmin (N / first_factor N)); [lia|].
  exists (first_factor N). rewrite <- HPQ at 1. apply Z.mul_comm.
Qed.

(** X12. In a plan the builder returns, [Q <= P], that is [Q * Q <= N]:
    the test [Q > P] of the source is never true, and the two scratch buffers
    have exactly [P] samples each; the staging buffer and the table of
    twiddle factors have [N]. *)
Theorem builder_buffer_sizes `{Liquid} subplan_ok `{!LiquidSpec subplan_ok}
    _nfft _x _y _dir _flags h q h' :
  0 <= _nfft < 2 ^ 32 ->
  create_plan_mixed_radix _nfft _x _y _dir _flags h = Ret q h' ->
  exists r c0 c1 cx tw,
    h' !! q = Some (OPlan r) /\
    MixedRadix.Q (Plan.data r) <= MixedRadix.P (Plan.data r) /\
    MixedRadix.Q (Plan.data r) * MixedRadix.Q (Plan.data r) <= _nfft /\
    h' !! MixedRadix.t0 (Plan.data r) = Some (OArr c0) /\
    h' !! MixedRadix.t1 (Plan.data r) = Some (OArr c1) /\
    h' !! MixedRadix.x (Plan.data r) = Some (OArr cx) /\
    h' !! Plan.twiddle r = Some (OArr tw) /\
    Z.of_nat (length c0) = MixedRadix.P (Plan.data r) /\
    Z.of_nat (length c1) = MixedRadix.P (Plan.data r) /\
    Z.of_nat (length cx) = _nfft /\
    Z.of_nat (length tw) = _nfft.
Proof.
  intros HN E.
  destruct (create_plan_returns subplan_ok _ _ _ _ _ _ _ _ HN E)
    as (Hc & t0 & t1 & x & sp & tw & F0 & F1 & Hok & _).
  pose proof (first_factor_le_cofactor _ HN Hc) as Hle.
  destruct (first_factor_composite _ HN Hc) as (HQ & _ & _ & HP & HPQ).
  destruct Hok as [Hrec _ _ _ _ _ (c0 & Hc0 & Hl0) (c1 & Hc1 & Hl1) (cx & Hcx & Hlx)
                   (ctw & Htw & Hltw & _) _ _ _].
  unfold built_plan in *. simpl in *.
  eexists _, c0, c1, cx, ctw. split; [exact Hrec|]. simpl.
  split; [exact Hle|]. split; [clear - Hle HQ HPQ; nia|].
  repeat (split; [assumption|]).
  split; [clear - Hl0 Hle; lia|]. split; [clear - Hl1 Hle; lia|].
  split; assumption.
Qed.

Lemma builder_buffer_sizes_witness :
  exists r c0 c1 cx tw,
    forward_heap !! 4%nat = Some (OPlan r) /\
    MixedRadix.Q (Plan.data r) <= MixedRadix.P (Plan.data r) /\
    MixedRadix.Q (Plan.data r) * MixedRadix.Q (Plan.data r) <= 6 /\
    forward_heap !! MixedRadix.t0 (Plan.data r) = Some (OArr c0) /\
    forward_heap !! MixedRadix.t1 (Plan.data r) = Some (OArr c1) /\
    forward_heap !! MixedRadix.x (Plan.data r) = Some (OArr cx) /\
    forward_heap !! Plan.twiddle r = Some (OArr tw) /\
    Z.of_nat (length c0) = MixedRadix.P (Plan.data r) /\
    Z.of_nat (length c1) = MixedRadix.P (Plan.data r) /\
    Z.of_nat (length cx) = 6 /\
    Z.of_nat (length tw) = 6.
Proof.
  exact (@builder_buffer_sizes reference dft_plan_ok reference_spec
           6 1%nat 2%nat 1 0 caller_heap 4%nat forward_heap ltac:(lia) create_forward6).
Defined.

(** X13. A plan the builder returns records its arguments as they were
    given: the size, the two buffers and the flags; its kind is the 1-D DFT,
    its method the mixed-radix one, and the function it is to be run by is
    [execute_mixed_radix]: none of the later steps of the builder overwrites
    these fields. *)
Theorem builder_record_fields `{Liquid} subplan_ok `{!LiquidSpec subplan_ok}
    _nfft _x _y _dir _flags h q h' :
  0 <= _nfft < 2 ^ 32 ->
  create_plan_mixed_radix _nfft _x _y _dir _flags h = Ret q h' ->
  exists r,
    h' !! q = Some (OPlan r) /\
    Plan.nfft r = _nfft /\ Plan.x r = _x /\ Plan.y r = _y /\
    Plan.flags r = _flags /\
    Plan.kind r = LIQUID_FFT_DFT_1D /\
    Plan.method r = LIQUID_FFT_METHOD_MIXED_RADIX /\
    Plan.execute r = execute_mixed_radix_fn /\
    Plan.num_subplans r = 2.
Proof.
  intros HN E.
  destruct (create_plan_returns subplan_ok _ _ _ _ _ _ _ _ HN E)
    as (_ & t0 & t1 & x & sp & tw & F0 & F1 & Hok & _).
  eexists. split; [apply Hok|]. repeat split; reflexivity.
Qed.

Lemma builder_record_fields_witness :
  exists r,
    forward_heap !! 4%nat = Some (OPlan r) /\
    Plan.nfft r = 6 /\ Plan.x r = 1%nat /\ Plan.y r = 2%nat /\
    Plan.flags r = 0 /\
    Plan.kind r = @LIQUID_FFT_DFT_1D reference /\
    Plan.method r = @LIQUID_FFT_METHOD_MIXED_RADIX reference /\
    Plan.execute r = execute_mixed_radix_fn /\
    Plan.num_subplans r = 2.
Proof.
  exact (@builder_record_fields reference dft_plan_ok reference_spec
           6 1%nat 2%nat 1 0 caller_heap 4%nat forward_heap ltac:(lia) create_forward6).
Defined.

(** X14. The table of sub-plans of a plan the builder returns has two
    entries: the first is a plan of the factory of size [P], the second one
    of size [Q], with [2 <= Q <= P <= N / 2], so both are smaller than the
    plan; both read the first scratch buffer and write the second, which is
    another block, and both have the direction of the plan.  The two own
    disjoint sets of blocks, and neither owns the record, a buffer or a table
    of the plan. *)
Theorem builder_subplans `{Liquid} subplan_ok `{!LiquidSpec subplan_ok}
    _nfft _x _y _dir _flags h q h' :
  0 <= _nfft < 2 ^ 32 ->
  create_plan_mixed_radix _nfft _x _y _dir _flags h = Ret q h' ->
  exists r s0 s1 F0 F1,
    h' !! q = Some (OPlan r) /\
    h' !! Plan.subplans r = Some (OPtrs [s0; s1]) /\
    2 <= MixedRadix.Q (Plan.data r) <= MixedRadix.P (Plan.data r) /\
    MixedRadix.P (Plan.data r) <= _nfft / 2 /\
    subplan_ok s0 (MixedRadix.P (Plan.data r))
      (MixedRadix.t0 (Plan.data r)) (MixedRadix.t1 (Plan.data r))
      (Plan.direction r) F0 h' /\
    subplan_ok s1 (MixedRadix.Q (Plan.data r))
      (MixedRadix.t0 (Plan.data r)) (MixedRadix.t1 (Plan.data r))
      (Plan.direction r) F1 h' /\
    MixedRadix.t0 (Plan.data r) <> MixedRadix.t1 (Plan.data r) /\
    F0 ## F1 /\
    forall b, b ∈ [q; MixedRadix.t0 (Plan.data r); MixedRadix.t1 (Plan.data r);
                   MixedRadix.x (Plan.data r); Plan.subplans r; Plan.twiddle r] ->
              b ∉ F0 /\ b ∉ F1.
Proof.
  intros HN E.
  destruct (create_plan_returns subplan_ok _ _ _ _ _ _ _ _ HN E)
    as (Hc & t0 & t1 & x & sp & tw & F0 & F1 & Hok & _).
  pose proof (first_factor_le_cofactor _ HN Hc) as Hle.
  destruct (first_factor_composite _ HN Hc) as (HQ & _ & _ & HP & HPQ).
  destruct Hok as [Hrec _ _ _ _ _ _ _ _ _ (s0 & s1 & Hsp & Hs0 & Hs1) Hnd (Hd01 & Hdj)].
  apply NoDup_six_inv in Hnd. destruct Hnd as (_ & (H01 & _) & _).
  eexists _, s0, s1, F0, F1. split; [exact Hrec|]. split; [exact Hsp|].
  split; [simpl; clear - HQ Hle; lia|].
  split; [simpl; apply Z.div_le_lower_bound; [lia | clear - HQ HP HPQ; nia]|].
  split; [exact Hs0|]. split; [exact Hs1|]. split; [exact H01|].
  split; [exact Hd01|]. intros b Hb. apply not_elem_of_union. apply Hdj, Hb.
Qed.

Lemma builder_subplans_witness :
  exists r s0 s1 F0 F1,
    forward_heap !! 4%nat = Some (OPlan r) /\
    forward_heap !! Plan.subplans r = Some (OPtrs [s0; s1]) /\
    2 <= MixedRadix.Q (Plan.data r) <= MixedRadix.P (Plan.data r) /\
    MixedRadix.P (Plan.data r) <= 6 / 2 /\
    dft_plan_ok s0 (MixedRadix.P (Plan.data r))
      (MixedRadix.t0 (Plan.data r)) (MixedRadix.t1 (Plan.data r))
      (Plan.direction r) F0 forward_heap /\
    dft_plan_ok s1 (MixedRadix.Q (Plan.data r))
      (MixedRadix.t0 (Plan.data r)) (MixedRadix.t1 (Plan.data r))
      (Plan.direction r) F1 forward_heap /\
    MixedRadix.t0 (Plan.data r) <> MixedRadix.t1 (Plan.data r) /\
    F0 ## F1 /\
    forall b, b ∈ [4%nat; MixedRadix.t0 (Plan.data r); MixedRadix.t1 (Plan.data r);
                   MixedRadix.x (Plan.data r); Plan.subplans r; Plan.twiddle r] ->
              b ∉ F0 /\ b ∉ F1.
Proof.
  exact (@builder_subplans reference dft_plan_ok reference_spec
           6 1%nat 2%nat 1 0 caller_heap 4%nat forward_heap ltac:(lia) create_forward6).
Defined.

(** X15. The builder changes no block that was allocated before the call,
    so the caller's buffers hold what they held; the plan it returns is not
    [NULL], and the blocks it has allocated are those the plan owns, each of
    them new, and no other. *)
Theorem builder_allocates_the_plan `{Liquid} subplan_ok `{!LiquidSpec subplan_ok}
    `{!LiquidAllocSpec subplan_ok} _nfft _x _y _dir _flags h q h' :
  0 <= _nfft < 2 ^ 32 ->
  create_plan_mixed_radix _nfft _x _y _dir _flags h = Ret q h' ->
  q <> NULL /\ q ∉ dom h /\
  (forall b, b ∈ dom h -> h' !! b = h !! b) /\
  exists r F0 F1,
    plan_ok subplan_ok q r F0 F1 h' /\
    owned q r F0 F1 ## dom h /\
    dom h' = dom h ∪ owned q r F0 F1.
Proof.
  intros HN E.
  destruct (create_plan_returns_exact subplan_ok _ _ _ _ _ _ _ _ HN E)
    as (t0 & t1 & x & sp & tw & F0 & F1 & Hok & Hown & Hfr & Hdom & Hq).
  split; [exact Hq|]. split; [|split; [exact Hfr|]].
  - intros Hd. apply (Hown q); [|exact Hd]. apply elem_of_owned. left. reflexivity.
  - eexists _, F0, F1. split; [exact Hok|]. split; [exact Hown | exact Hdom].
Qed.

Lemma builder_allocates_the_plan_witness :
  4%nat <> NULL /\ 4%nat ∉ dom caller_heap /\
  (forall b, b ∈ dom caller_heap -> forward_heap !! b = caller_heap !! b) /\
  exists r F0 F1,
    @plan_ok reference dft_plan_ok 4%nat r F0 F1 forward_heap /\
    owned 4%nat r F0 F1 ## dom caller_heap /\
    dom forward_heap = dom caller_heap ∪ owned 4%nat r F0 F1.
Proof.
  exact (@builder_allocates_the_plan reference dft_plan_ok reference_spec
           reference_alloc_spec
           6 1%nat 2%nat 1 0 caller_heap 4%nat forward_heap ltac:(lia) create_forward6).
Defined.

(** X16. For every even size [N >= 4] the builder returns a plan with
    [Q = 2] and [P = N / 2]. *)
Theorem builder_even_size `{Liquid} subplan_ok `{!LiquidSpec subplan_ok}
    _nfft _x _y _dir _flags h :
  4 <= _nfft < 2 ^ 32 -> (2 | _nfft) ->
  exists q h' r,
    create_plan_mixed_radix _nfft _x _y _dir _flags h = Ret q h' /\
    h' !! q = Some (OPlan r) /\
    MixedRadix.Q (Plan.data r) = 2 /\
    MixedRadix.P (Plan.data r) = _nfft / 2.
Proof.
  intros HN H2.
  assert (HN' : 0 <= _nfft < 2 ^ 32) by lia.
  assert (Hc : composite _nfft) by (exists 2; split; [lia | exact H2]).
  destruct (create_plan_builds subplan_ok _nfft _x _y _dir _flags h HN' Hc)
    as (q & h' & t0 & t1 & x & sp & tw & F0 & F1 & E & Hok & _).
  destruct (first_factor_composite _ HN' Hc) as (HQ & _ & Hmin & _).
  assert (EQ : first_factor _nfft = 2).
  { destruct (Z.eq_dec (first_factor _nfft) 2) as [EQ | Hne]; [exact EQ|].
    exfalso. apply (Hmin 2); [lia | exact H2]. }
  exists q, h'. eexists. split; [exact E|]. split; [apply Hok|]. simpl.
  rewrite EQ. split; reflexivity.
Qed.

Lemma builder_even_size_witness :
  exists q h' r,
    @create_plan_mixed_radix reference 6 1%nat 2%nat 1 0 caller_heap = Ret q h' /\
    h' !! q = Some (OPlan r) /\
    MixedRadix.Q (Plan.data r) = 2 /\
    MixedRadix.P (Plan.data r) = 6 / 2.
Proof.
  apply (@builder_even_size reference dft_plan_ok reference_spec
           6 1%nat 2%nat 1 0 caller_heap); [lia | exists 3; reflexivity].
Defined.

(** * The builder and the executor together *)

(** X17. What the builder returns is what the executor needs: a plan built
    on two buffers of the caller of at least [N] samples, which may be one
    and the same, can be executed at once, and the output then holds the
    [N]-point transform of the input, with the negative exponent when the
    direction asked for is FORWARD and the positive one for any other
    value. *)
Theorem create_then_execute `{Liquid} subplan_ok `{!LiquidSpec subplan_ok}
    _nfft _x _y _dir _flags h q h1 a b :
  0 <= _nfft < 2 ^ 32 ->
  h !! _x = Some (OArr a) -> h !! _y = Some (OArr b) ->
  _nfft <= Z.of_nat (length a) -> _nfft <= Z.of_nat (length b) ->
  create_plan_mixed_radix _nfft _x _y _dir _flags h = Ret q h1 ->
  exists h2 b',
    execute_mixed_radix q h1 = Ret tt h2 /\
    h2 !! _y = Some (OArr b') /\
    length b' = length b /\
    (forall m, (m < Z.to_nat _nfft)%nat ->
       b' !! m = Some (dft_direct (if _dir =? FFT_FORWARD then (-1)%R else 1%R)
                         (Z.to_nat _nfft) (elems a) m)) /\
    forall p, p ∈ dom h -> p <> _y -> h2 !! p = h !! p.
Proof.
  intros HN Hx Hy Hla Hlb E.
  destruct (create_plan_returns subplan_ok _ _ _ _ _ _ _ _ HN E)
    as (_ & t0 & t1 & x & sp & tw & F0 & F1 & Hok & Hown & Hfr).
  set (r := built_plan _nfft _x _y _dir _flags t0 t1 x sp tw) in *.
  assert (HxO : _x ∉ owned q r F0 F1).
  { intros Hb. apply (Hown _ Hb). apply elem_of_dom. eexists. exact Hx. }
  assert (HyO : _y ∉ owned q r F0 F1).
  { intros Hb. apply (Hown _ Hb). apply elem_of_dom. eexists. exact Hy. }
  assert (Hbuf : buffers_ok q r F0 F1 h1 a b).
  { constructor; try assumption.
    - apply (preserved_lookup h h1 _ _ Hfr Hx).
    - apply (preserved_lookup h h1 _ _ Hfr Hy). }
  destruct (execute_mixed_radix_spec subplan_ok q r F0 F1 h1 a b Hok Hbuf)
    as (h2 & b' & Ee & Hy2 & Hlen & Hval & _ & _ & Hfr2).
  exists h2, b'. split; [exact Ee|]. split; [exact Hy2|]. split; [exact Hlen|]. split.
  - intros m Hm. rewrite (Hval m Hm). do 2 f_equal. unfold twiddle_sign. simpl.
    destruct (Z.eqb_spec _dir FFT_FORWARD) as [_ | _].
    + rewrite Z.eqb_refl. reflexivity.
    + destruct (Z.eqb_spec FFT_REVERSE FFT_FORWARD) as [Eq | _]; [|reflexivity].
      exfalso. apply FFT_FORWARD_neq_REVERSE. symmetry. exact Eq.
  - intros p Hp Hpy. rewrite Hfr2; [apply Hfr, Hp|].
    apply not_owned_not_scratch with q; [|exact Hpy].
    intros Hb. exact (Hown p Hb Hp).
Qed.

Lemma create_then_execute_witness :
  exists h2 b',
    @execute_mixed_radix reference 4%nat inplace_heap = Ret tt h2 /\
    h2 !! 1%nat = Some (OArr b') /\
    length b' = length impulse6 /\
    (forall m, (m < Z.to_nat 6)%nat ->
       b' !! m = Some (dft_direct (if 1 =? @FFT_FORWARD reference then (-1)%R else 1%R)
                         (Z.to_nat 6) (elems impulse6) m)) /\
    forall p, p ∈ dom caller_heap -> p <> 1%nat -> h2 !! p = caller_heap !! p.
Proof.
  exact (@create_then_execute reference dft_plan_ok reference_spec
           6 1%nat 1%nat 1 0 caller_heap 4%nat inplace_heap impulse6 impulse6
           ltac:(lia) caller_heap_in caller_heap_in ltac:(simpl; lia) ltac:(simpl; lia)
           create_inplace6).
Defined.

(** * The positions the two passes read *)

Lemma decimate_index_small P Q k i :
  0 <= i < Q -> 0 <= k < P -> P * Q < 2 ^ 32 ->
  decimate_index Q k i = Q * k + i /\ 0 <= Q * k + i < P * Q.
Proof.
  intros Hi Hk Hb. assert (0 <= Q * k + i < P * Q) by nia.
  split; [|assumption]. unfold decimate_index, uadd, umul.
  rewrite (uint_small (Q * k)) by nia. apply uint_small. lia.
Qed.

(** The list [pass1_reads P Q] is a permutation of the integers of
    [[0, P*Q)]: the map [(i, k) |-> Q*k+i] from [[0, Q) x [0, P)] is a
    bijection onto [[0, P*Q)], without wrap-around. *)
Lemma pass1_reads_bijective (P Q : Z) :
  0 <= P -> 0 <= Q -> P * Q < 2 ^ 32 ->
  pass1_reads P Q ≡ₚ seqZ 0 (P * Q) /\
  (forall i k, 0 <= i < Q -> 0 <= k < P ->
     decimate_index Q k i = Q * k + i /\ 0 <= Q * k + i < P * Q) /\
  (forall i k i' k', 0 <= i < Q -> 0 <= k < P -> 0 <= i' < Q -> 0 <= k' < P ->
     decimate_index Q k i = decimate_index Q k' i' -> i = i' /\ k = k').
Proof.
  intros HP HQ Hb.
  assert (Hinj : forall i k i' k', 0 <= i < Q -> 0 <= k < P -> 0 <= i' < Q -> 0 <= k' < P ->
            decimate_index Q k i = decimate_index Q k' i' -> i = i' /\ k = k').
  { intros i k i' k' Hi Hk Hi' Hk' E.
    destruct (decimate_index_small P Q k i Hi Hk Hb) as [E1 _].
    destruct (decimate_index_small P Q k' i' Hi' Hk' Hb) as [E2 _].
    rewrite E1, E2 in E. clear E1 E2 Hb.
    assert (k = k') by nia. subst k'. split; [lia | reflexivity]. }
  split; [|split; [|exact Hinj]].
  2:{ intros i k Hi Hk. apply decimate_index_small; assumption. }
  apply NoDup_Permutation.
  - unfold pass1_reads. apply NoDup_bind.
    + intros i i' m Hi Hi' Hm Hm'.
      apply elem_of_seqZ in Hi, Hi'.
      apply list_elem_of_fmap in Hm, Hm'.
      destruct Hm as (k & -> & Hk), Hm' as (k' & E & Hk').
      apply elem_of_seqZ in Hk, Hk'.
      apply (Hinj i k i' k'); [lia | lia | lia | lia | exact E].
    + intros i Hi. apply elem_of_seqZ in Hi.
      apply NoDup_fmap_2_strong; [|apply NoDup_seqZ].
      intros k k' Hk Hk' E. apply elem_of_seqZ in Hk, Hk'.
      apply (Hinj i k i k'); [lia | lia | lia | lia | exact E].
    + apply NoDup_seqZ.
  - apply NoDup_seqZ.
  - intros m. rewrite elem_of_seqZ. unfold pass1_reads. rewrite list_elem_of_bind. split.
    + intros (i & Hm & Hi). apply elem_of_seqZ in Hi.
      apply list_elem_of_fmap in Hm. destruct Hm as (k & -> & Hk).
      apply elem_of_seqZ in Hk.
      destruct (decimate_index_small P Q k i ltac:(lia) ltac:(lia) Hb) as [-> Hr].
      clear - Hr. lia.
    + intros Hm. assert (HQ0 : 0 < Q) by (clear - Hm HP HQ; nia).
      assert (Hi : 0 <= m mod Q < Q) by (apply Z.mod_pos_bound; exact HQ0).
      assert (Hk : 0 <= m / Q < P).
      { split; [apply Z.div_pos; lia|]. apply Z.div_lt_upper_bound; lia. }
      exists (m mod Q). split; [|apply elem_of_seqZ; lia].
      apply list_elem_of_fmap. exists (m / Q). split; [|apply elem_of_seqZ; lia].
      destruct (decimate_index_small P Q _ _ Hi Hk Hb) as [-> _].
      apply Z.div_mod. lia.
Qed.

Example pass1_reads_3_2 : pass1_reads 3 2 = [0; 2; 4; 1; 3; 5].
Proof. reflexivity. Qed.

Lemma row_index_small P Q i k :
  0 <= i < P -> 0 <= k < Q -> P * Q < 2 ^ 32 -> row_index Q i k = Q * i + k.
Proof.
  intros Hi Hk Hb. destruct (decimate_index_small P Q i k Hk Hi Hb) as [E _]. exact E.
Qed.

Lemma row_reads n P Q :
  (Z.of_nat n <= P) -> 0 <= Q -> P * Q < 2 ^ 32 ->
  seqZ 0 (Z.of_nat n) ≫= (fun i => (fun k => row_index Q i k) <$> seqZ 0 Q)
  = seqZ 0 (Z.of_nat n * Q).
Proof.
  intros Hn HQ Hb. induction n as [|n IH].
  - reflexivity.
  - rewrite Nat2Z.inj_succ, <- Z.add_1_r, seqZ_app by lia.
    rewrite bind_app, IH by lia. change (seqZ (0 + Z.of_nat n) 1) with [0 + Z.of_nat n].
    rewrite bind_singleton, Z.add_0_l, Z.mul_add_distr_r, Z.mul_1_l.
    rewrite seqZ_app by nia. f_equal.
    rewrite <- (Z.add_0_r (0 + Z.of_nat n * Q)), <- fmap_add_seqZ.
    apply list_eq. intros j. rewrite !list_lookup_fmap.
    destruct (seqZ 0 Q !! j) as [k|] eqn:Ek; [|reflexivity]. simpl. f_equal.
    apply lookup_seqZ in Ek. rewrite (row_index_small P Q); lia.
Qed.

(** The list [pass2_reads P Q] is [0, 1, ..., P*Q-1]. *)
Lemma pass2_reads_sequential (P Q : Z) :
  0 <= P -> 0 <= Q -> P * Q < 2 ^ 32 ->
  pass2_reads P Q = seqZ 0 (P * Q).
Proof.
  intros HP HQ Hb. unfold pass2_reads.
  rewrite <- (Z2Nat.id P HP) at 1 2.
  apply (row_reads (Z.to_nat P) P Q); [lia | exact HQ | exact Hb].
Qed.

(** * Several plans in one heap *)

Lemma forward6_inverse6_apart :
  owned 12%nat inverse6 {[ 17%nat ]} {[ 18%nat ]}
    ## owned 4%nat forward6 {[ 9%nat ]} {[ 10%nat ]}.
Proof.
  apply elem_of_disjoint. intros b Hb Hb'. apply elem_of_owned in Hb, Hb'.
  rewrite !elem_of_singleton in Hb, Hb'. simpl in Hb, Hb'. lia.
Qed.

(** X21. Building a plan leaves the plans that exist built: a plan [p] that
    is built before the call is built after it, and the new plan shares no
    block with it. *)
Theorem builder_keeps_other_plans `{Liquid} subplan_ok `{!LiquidSpec subplan_ok}
    p rp G0 G1 _nfft _x _y _dir _flags h q h' :
  plan_ok subplan_ok p rp G0 G1 h ->
  0 <= _nfft < 2 ^ 32 ->
  create_plan_mixed_radix _nfft _x _y _dir _flags h = Ret q h' ->
  plan_ok subplan_ok p rp G0 G1 h' /\
  exists r F0 F1,
    plan_ok subplan_ok q r F0 F1 h' /\
    owned q r F0 F1 ## owned p rp G0 G1.
Proof.
  intros Hp HN E.
  destruct (create_plan_returns subplan_ok _ _ _ _ _ _ _ _ HN E)
    as (_ & t0 & t1 & x & sp & tw & F0 & F1 & Hok & Hown & Hfr).
  pose proof (owned_in_dom subplan_ok _ _ _ _ _ Hp) as Hdom.
  split.
  - apply (plan_ok_frame subplan_ok p rp G0 G1 h h' Hp).
    intros b Hb. apply Hfr, Hdom, Hb.
  - eexists _, F0, F1. split; [exact Hok|].
    intros b Hb Hb'. exact (Hown b Hb (Hdom b Hb')).
Qed.

Lemma builder_keeps_other_plans_witness :
  @plan_ok reference dft_plan_ok 4%nat forward6 {[ 9%nat ]} {[ 10%nat ]} round_trip_heap /\
  exists r F0 F1,
    @plan_ok reference dft_plan_ok 12%nat r F0 F1 round_trip_heap /\
    owned 12%nat r F0 F1 ## owned 4%nat forward6 {[ 9%nat ]} {[ 10%nat ]}.
Proof.
  exact (@builder_keeps_other_plans reference dft_plan_ok reference_spec
           4%nat forward6 {[ 9%nat ]} {[ 10%nat ]} 6 2%nat 3%nat (-1) 0
           forward_heap 12%nat round_trip_heap forward6_ok ltac:(lia) create_inverse6).
Defined.

(** X22. Executing a plan leaves every other plan built, when the two share
    no block and the output buffer of the first is not a block of the second:
    it may well be the input buffer of the second, as when a transform is
    followed by its inverse. *)
Theorem execute_keeps_other_plans `{Liquid} subplan_ok `{!LiquidSpec subplan_ok}
    q r F0 F1 p rp G0 G1 h a b :
  plan_ok subplan_ok q r F0 F1 h ->
  buffers_ok q r F0 F1 h a b ->
  plan_ok subplan_ok p rp G0 G1 h ->
  owned q r F0 F1 ## owned p rp G0 G1 ->
  Plan.y r ∉ owned p rp G0 G1 ->
  exists h',
    execute_mixed_radix q h = Ret tt h' /\
    plan_ok subplan_ok q r F0 F1 h' /\
    plan_ok subplan_ok p rp G0 G1 h'.
Proof.
  intros Hq Hbuf Hp Hdis Hy.
  destruct (execute_mixed_radix_spec subplan_ok q r F0 F1 h a b Hq Hbuf)
    as (h' & b' & E & _ & _ & _ & _ & Hq' & Hfr).
  exists h'. split; [exact E|]. split; [exact Hq'|].
  apply (plan_ok_frame subplan_ok p rp G0 G1 h h' Hp).
  intros c Hc. apply Hfr. apply not_owned_not_scratch with q.
  - intros Hc'. exact (Hdis c Hc' Hc).
  - intros ->. exact (Hy Hc).
Qed.

Lemma execute_keeps_other_plans_witness :
  exists h',
    @execute_mixed_radix reference 12%nat round_trip_heap = Ret tt h' /\
    @plan_ok reference dft_plan_ok 12%nat inverse6 {[ 17%nat ]} {[ 18%nat ]} h' /\
    @plan_ok reference dft_plan_ok 4%nat forward6 {[ 9%nat ]} {[ 10%nat ]} h'.
Proof.
  apply (@execute_keeps_other_plans reference dft_plan_ok reference_spec
           12%nat inverse6 {[ 17%nat ]} {[ 18%nat ]} 4%nat forward6 {[ 9%nat ]} {[ 10%nat ]}
           round_trip_heap (replicate 6 C0) (replicate 6 C0)
           inverse6_ok inverse6_buffers forward6_ok' forward6_inverse6_apart).
  compute_done.
Defined.

(** X23. Destroying a plan leaves every plan that shares no block with it
    built, with all its blocks. *)
Theorem destroy_keeps_other_plans `{Liquid} subplan_ok `{!LiquidSpec subplan_ok}
    `{!LiquidDestroySpec subplan_ok} q r F0 F1 p rp G0 G1 h :
  plan_ok subplan_ok q r F0 F1 h ->
  plan_ok subplan_ok p rp G0 G1 h ->
  owned q r F0 F1 ## owned p rp G0 G1 ->
  exists h',
    destroy_plan_mixed_radix q h = Ret tt h' /\
    plan_ok subplan_ok p rp G0 G1 h'.
Proof.
  intros Hq Hp Hdis.
  destruct (destroy_plan_run subplan_ok q r F0 F1 h Hq) as (h' & E & _ & Hkeep).
  exists h'. split; [exact E|].
  apply (plan_ok_frame subplan_ok p rp G0 G1 h h' Hp).
  intros c Hc. apply Hkeep. intros Hc'. exact (Hdis c Hc' Hc).
Qed.

Lemma destroy_keeps_other_plans_witness :
  exists h',
    @destroy_plan_mixed_radix reference 12%nat round_trip_heap = Ret tt h' /\
    @plan_ok reference dft_plan_ok 4%nat forward6 {[ 9%nat ]} {[ 10%nat ]} h'.
Proof.
  exact (@destroy_keeps_other_plans reference dft_plan_ok reference_spec
           reference_destroy_spec
           12%nat inverse6 {[ 17%nat ]} {[ 18%nat ]} 4%nat forward6 {[ 9%nat ]} {[ 10%nat ]}
           round_trip_heap inverse6_ok forward6_ok' forward6_inverse6_apart).
Defined.

(** * The executor and its trace *)

(** On the operations of [M] the executor over a machine is
    [execute_mixed_radix]. *)
Lemma execute_mixed_radix_on_plain `{Liquid} q :
  execute_mixed_radix q = @execute_mixed_radix_on M plain_machine q.
Proof. reflexivity. Qed.

(** ** The traced run is the run *)

Section Erasure.
Context `{Liquid}.

Lemma erases_bind {A B} (mt : TM A) (kt : A -> TM B) (m : M A) (k : A -> M B) :
  erases mt m -> (forall a, erases (kt a) (k a)) ->
  erases (m_bind (Machine := traced_machine) mt kt) (bind m k).
Proof.
  intros Hm Hk l h.
  change (m_bind (Machine := traced_machine) mt kt l h)
    with (bind (mt l) (fun al => kt (fst al) (snd al)) h).
  unfold bind. rewrite <- (Hm l h).
  destruct (mt l h) as [[a l'] h1 | s h1 |]; simpl; [apply Hk | reflexivity..].
Qed.

(** An operation of [M] that also extends the log. *)
Lemma erases_step {A} (m : M A) (g : list access -> A -> list access) :
  erases (fun l => bind m (fun a => ret (a, g l a))) m.
Proof. intros l h. unfold bind, ret. destruct (m h); reflexivity. Qed.

Lemma erases_for_loop (bt : Z -> TM unit) (b : Z -> M unit) cnt i :
  (forall j, erases (bt j) (b j)) ->
  erases (for_loop_on (mach := traced_machine) cnt i bt) (for_loop cnt i b).
Proof.
  intros Hb. revert i. induction cnt as [|c IH]; intros i.
  - intros l h. reflexivity.
  - change (for_loop_on (mach := traced_machine) (S c) i bt)
      with (m_bind (Machine := traced_machine) (bt i)
              (fun _ => for_loop_on (mach := traced_machine) c (uadd i 1) bt)).
    change (for_loop (S c) i b) with (bind (b i) (fun _ => for_loop c (uadd i 1) b)).
    apply erases_bind; [apply Hb | intros _; apply IH].
Qed.

Ltac erase :=
  first
    [ apply erases_bind; [erase | intros ?; erase]
    | apply erases_for_loop; intros ?; erase
    | exact (erases_step _ (fun l _ => l))
    | exact (erases_step _ (fun l _ => l ++ [_])) ].

(** Whatever the heap and the plan, [execute_traced] ends as
    [execute_mixed_radix] does, in the same heap: the log is all it adds. *)
Lemma execute_traced_erases q h :
  forget (execute_traced q h) = execute_mixed_radix q h.
Proof.
  unfold execute_traced. revert h. generalize (@nil access).
  change (erases (@execute_mixed_radix_on TM traced_machine q) (execute_mixed_radix q)).
  unfold execute_mixed_radix_on, execute_mixed_radix, for_on, for_. cbv zeta.
  erase.
Qed.
End Erasure.

(** ** Rules for [logs] and [traces] *)

Section Logs.
Context `{Liquid}.

Lemma logs_bind {A B} (mt : TM A) (kt : A -> TM B) (m : M A) (k : A -> M B) h w1 w2 :
  logs mt m h w1 ->
  (forall a h1, m h = Ret a h1 -> logs (kt a) (k a) h1 w2) ->
  logs (m_bind (Machine := traced_machine) mt kt) (bind m k) h (w1 ++ w2).
Proof.
  intros Hm Hk l.
  change (m_bind (Machine := traced_machine) mt kt l h)
    with (bind (mt l) (fun al => kt (fst al) (snd al)) h).
  unfold bind. rewrite (Hm l).
  destruct (m h) as [a h1 | s h1 |] eqn:E; [|reflexivity..].
  simpl. rewrite (Hk a h1 eq_refl (l ++ w1)), app_assoc. reflexivity.
Qed.

Lemma traces_bind {A B} I (mt : TM A) (kt : A -> TM B) (m : M A) (k : A -> M B)
    w1 w2 (V : A -> Prop) (V' : B -> Prop) :
  traces I mt m w1 V ->
  (forall a, V a -> traces I (kt a) (k a) w2 V') ->
  traces I (m_bind (Machine := traced_machine) mt kt) (bind m k) (w1 ++ w2) V'.
Proof.
  intros Hm Hk h Hh. destruct (Hm h Hh) as [Hl Hpost]. split.
  - apply logs_bind; [exact Hl|]. intros a h1 E.
    destruct (Hpost a h1 E) as [Hh1 Ha]. apply (Hk a Ha h1 Hh1).
  - intros b h' E. unfold bind in E.
    destruct (m h) as [a h1 | s h1 |] eqn:Em; [|discriminate..].
    destruct (Hpost a h1 eq_refl) as [Hh1 Ha].
    apply (proj2 (Hk a Ha h1 Hh1) b h' E).
Qed.

Lemma traces_value {A} I (mt : TM A) (m : M A) w (V V' : A -> Prop) :
  traces I mt m w V -> (forall a, V a -> V' a) -> traces I mt m w V'.
Proof.
  intros Hm HV h Hh. destruct (Hm h Hh) as [Hl Hpost]. split; [exact Hl|].
  intros a h' E. destruct (Hpost a h' E) as [Hh' Ha]. split; [exact Hh' | exact (HV a Ha)].
Qed.

(** An operation of [M] with the access [e] appended when it returns. *)
Lemma logs_step {A} (m : M A) h e :
  logs (fun l => bind m (fun a => ret (a, l ++ e))) m h e.
Proof. intros l. unfold bind, ret. destruct (m h); reflexivity. Qed.

Lemma logs_silent {A} (m : M A) h :
  logs (fun l => bind m (fun a => ret (a, l))) m h [].
Proof.
  intros l. unfold bind, ret. destruct (m h); [rewrite app_nil_r|..]; reflexivity.
Qed.

Lemma get_inv {A} q (f : Plan.plan_s -> A) h a h' :
  get q f h = Ret a h' -> h' = h /\ exists r, h !! q = Some (OPlan r) /\ a = f r.
Proof.
  unfold get. destruct (h !! q) as [[r | |]|]; try discriminate.
  intros E. injection E as <- <-. split; [reflexivity|]. exists r. split; reflexivity.
Qed.

Lemma read_inv b i h v h' : read b i h = Ret v h' -> h' = h.
Proof.
  unfold read. destruct (h !! b) as [[| c |]|]; try discriminate.
  destruct (0 <=? i); [|discriminate]. destruct (c !! Z.to_nat i); [|discriminate].
  intros E. injection E as _ <-. reflexivity.
Qed.

Lemma read_plan_inv b i h v h' :
  read_plan b i h = Ret v h' ->
  h' = h /\ exists c, h !! b = Some (OPtrs c) /\ 0 <= i /\ c !! Z.to_nat i = Some v.
Proof.
  unfold read_plan. destruct (h !! b) as [[| | c]|]; try discriminate.
  destruct (Z.leb_spec 0 i); [|discriminate].
  destruct (c !! Z.to_nat i) eqn:Ec; [|discriminate].
  intros E. injection E as <- <-. split; [reflexivity|]. exists c. repeat split; assumption.
Qed.

Lemma write_inv b i v h u h' :
  write b i v h = Ret u h' ->
  exists c, h !! b = Some (OArr c) /\ h' = <[b := OArr (<[Z.to_nat i := v]> c)]> h.
Proof.
  unfold write. destruct (h !! b) as [[| c |]|]; try discriminate.
  destruct ((0 <=? i) && (i <? Z.of_nat (length c))); [|discriminate].
  intros E. injection E as _ <-. exists c. split; reflexivity.
Qed.

Lemma memmove_inv dst src n h u h' :
  memmove dst src n h = Ret u h' ->
  exists d, h !! dst = Some (OArr d) /\ exists c, h' = <[dst := OArr c]> h.
Proof.
  unfold memmove. destruct (h !! dst) as [[| d |]|]; try discriminate.
  destruct (h !! src) as [[| s |]|]; try discriminate.
  destruct ((0 <=? n) && (n <=? Z.of_nat (length s)) && (n <=? Z.of_nat (length d)));
    [|discriminate].
  intros E. injection E as _ <-. exists d. split; [reflexivity|]. eexists. reflexivity.
Qed.

Lemma traces_get {A} (I : heap -> Prop) q (f : Plan.plan_s -> A) r :
  (forall h, I h -> h !! q = Some (OPlan r)) ->
  traces I (m_get (Machine := traced_machine) q f) (get q f) [] (fun a => a = f r).
Proof.
  intros Hq h Hh. split; [apply logs_silent|].
  intros a h' E. destruct (get_inv _ _ _ _ _ E) as (-> & r' & Hr' & ->).
  split; [exact Hh|]. rewrite (Hq h Hh) in Hr'. injection Hr' as <-. reflexivity.
Qed.

Lemma traces_read (I : heap -> Prop) b i :
  traces I (m_read (Machine := traced_machine) b i) (read b i) [Load b i] (fun _ => True).
Proof.
  intros h Hh. split; [apply logs_step|].
  intros v h' E. rewrite (read_inv _ _ _ _ _ E). split; [exact Hh | exact Logic.I].
Qed.

Lemma traces_read_plan (I : heap -> Prop) b i c s :
  (forall h, I h -> h !! b = Some (OPtrs c)) -> c !! Z.to_nat i = Some s ->
  traces I (m_read_plan (Machine := traced_machine) b i) (read_plan b i) [Load b i]
    (fun a => a = s).
Proof.
  intros Hb Hs h Hh. split; [apply logs_step|].
  intros v h' E. destruct (read_plan_inv _ _ _ _ _ E) as (-> & c' & Hc' & _ & Hv).
  split; [exact Hh|]. rewrite (Hb h Hh) in Hc'. injection Hc' as <-.
  rewrite Hs in Hv. injection Hv as <-. reflexivity.
Qed.

Lemma traces_write (I : heap -> Prop) b i v :
  (forall h c, I h -> h !! b = Some (OArr c) ->
     I (<[b := OArr (<[Z.to_nat i := v]> c)]> h)) ->
  traces I (m_write (Machine := traced_machine) b i v) (write b i v) [Store b i]
    (fun _ => True).
Proof.
  intros Hb h Hh. split; [apply logs_step|].
  intros u h' E. destruct (write_inv _ _ _ _ _ _ E) as (c & Hc & ->).
  split; [apply Hb; assumption | exact Logic.I].
Qed.

Lemma traces_memmove (I : heap -> Prop) dst src n :
  (forall h c, I h -> I (<[dst := OArr c]> h)) ->
  traces I (m_memmove (Machine := traced_machine) dst src n) (memmove dst src n)
    [Copy dst src n] (fun _ => True).
Proof.
  intros Hb h Hh. split; [apply logs_step|].
  intros u h' E. destruct (memmove_inv _ _ _ _ _ _ E) as (d & _ & c & ->).
  split; [apply Hb; assumption | exact Logic.I].
Qed.

Lemma traces_fft_execute (I : heap -> Prop) s :
  (forall h h', I h -> fft_execute s h = Ret tt h' -> I h') ->
  traces I (m_fft_execute (Machine := traced_machine) s) (fft_execute s) []
    (fun _ => True).
Proof.
  intros Hs h Hh. split; [apply logs_silent|].
  intros [] h' E. split; [exact (Hs h h' Hh E) | exact Logic.I].
Qed.

Lemma traces_for_loop (I : heap -> Prop) (bt : Z -> TM unit) (b : Z -> M unit)
    (w : Z -> list access) cnt j0 :
  Z.of_nat (j0 + cnt) < 2 ^ 32 ->
  (forall j, Z.of_nat j0 <= j < Z.of_nat (j0 + cnt) ->
     traces I (bt j) (b j) (w j) (fun _ => True)) ->
  traces I (for_loop_on (mach := traced_machine) cnt (Z.of_nat j0) bt)
    (for_loop cnt (Z.of_nat j0) b)
    (seqZ (Z.of_nat j0) (Z.of_nat cnt) ≫= w) (fun _ => True).
Proof.
  revert j0. induction cnt as [|c IH]; intros j0 Hb Hstep.
  - intros h Hh. split.
    + intros l. simpl. unfold ret. rewrite app_nil_r. reflexivity.
    + intros a h' E. injection E as _ <-. split; [exact Hh | exact Logic.I].
  - rewrite Nat2Z.inj_succ, seqZ_cons by lia. rewrite bind_cons.
    change (for_loop_on (mach := traced_machine) (S c) (Z.of_nat j0) bt)
      with (m_bind (Machine := traced_machine) (bt (Z.of_nat j0))
              (fun _ => for_loop_on (mach := traced_machine) c (uadd (Z.of_nat j0) 1) bt)).
    change (for_loop (S c) (Z.of_nat j0) b)
      with (bind (b (Z.of_nat j0)) (fun _ => for_loop c (uadd (Z.of_nat j0) 1) b)).
    apply traces_bind with (V := fun _ => True).
    + apply Hstep. lia.
    + intros _ _. unfold uadd. rewrite uint_small by lia.
      replace (Z.of_nat j0 + 1) with (Z.of_nat (S j0)) by lia.
      replace (Z.succ (Z.of_nat j0)) with (Z.of_nat (S j0)) by lia.
      replace (Z.pred (Z.succ (Z.of_nat c))) with (Z.of_nat c) by lia.
      apply IH; [lia|]. intros j Hj. apply Hstep. lia.
Qed.

Lemma traces_for (I : heap -> Prop) (bt : Z -> TM unit) (b : Z -> M unit)
    (w : Z -> list access) hi :
  0 <= hi < 2 ^ 32 ->
  (forall j, 0 <= j < hi -> traces I (bt j) (b j) (w j) (fun _ => True)) ->
  traces I (for_on (mach := traced_machine) 0 hi bt) (for_ 0 hi b)
    (seqZ 0 hi ≫= w) (fun _ => True).
Proof.
  intros Hhi Hstep. unfold for_on, for_. rewrite Z.sub_0_r.
  rewrite <- (Z2Nat.id hi) at 3 by lia.
  apply (traces_for_loop I bt b w (Z.to_nat hi) O); [lia|].
  intros j Hj. apply Hstep. lia.
Qed.
End Logs.

Section LogsMore.
Context `{Liquid}.

Lemma traces_bind_silent {A B} I (mt : TM A) (kt : A -> TM B) (m : M A) (k : A -> M B)
    w (V : A -> Prop) (V' : B -> Prop) :
  traces I mt m [] V ->
  (forall a, V a -> traces I (kt a) (k a) w V') ->
  traces I (m_bind (Machine := traced_machine) mt kt) (bind m k) w V'.
Proof. intros Hm Hk. exact (traces_bind I mt kt m k [] w V V' Hm Hk). Qed.

Lemma traces_bind_step {A B} I (mt : TM A) (kt : A -> TM B) (m : M A) (k : A -> M B)
    e w (V : A -> Prop) (V' : B -> Prop) :
  traces I mt m [e] V ->
  (forall a, V a -> traces I (kt a) (k a) w V') ->
  traces I (m_bind (Machine := traced_machine) mt kt) (bind m k) (e :: w) V'.
Proof. intros Hm Hk. exact (traces_bind I mt kt m k [e] w V V' Hm Hk). Qed.
End LogsMore.

(** ** The trace of a run *)

Section Trace.
Context `{Liquid}.
#[local] Existing Instance traced_machine.
Context (subplan_ok : ptr -> Z -> ptr -> ptr -> Z -> gset ptr -> heap -> Prop).
Context {LS : LiquidSpec subplan_ok}.
Variables (q : ptr) (r : Plan.plan_s) (F0 F1 : gset ptr) (h0 : heap).
Variables (a b : list TC) (s0 s1 : ptr).

Local Abbreviation P := (MixedRadix.P (Plan.data r)).
Local Abbreviation Q := (MixedRadix.Q (Plan.data r)).
Local Abbreviation t0 := (MixedRadix.t0 (Plan.data r)).
Local Abbreviation t1 := (MixedRadix.t1 (Plan.data r)).
Local Abbreviation xs := (MixedRadix.x (Plan.data r)).
Local Abbreviation live := (running subplan_ok r F0 F1 s0 s1 h0).

Hypothesis Hok : plan_ok subplan_ok q r F0 F1 h0.
Hypothesis Hbuf : buffers_ok q r F0 F1 h0 a b.
Hypothesis Hsp : h0 !! Plan.subplans r = Some (OPtrs [s0; s1]).

Lemma live_record h : live h -> h !! q = Some (OPlan r).
Proof.
  intros (cx & ct0 & ct1 & cy & Hs & _).
  exact (state_record subplan_ok q r F0 F1 h0 a b s0 s1 Hok Hbuf _ _ _ _ _ Hs).
Qed.

Lemma live_subplans h : live h -> h !! Plan.subplans r = Some (OPtrs [s0; s1]).
Proof.
  intros (cx & ct0 & ct1 & cy & Hs & _).
  exact (state_subplans subplan_ok q r F0 F1 h0 a b s0 s1 Hok Hbuf Hsp _ _ _ _ _ Hs).
Qed.

Lemma live_store_t0 i v h c :
  live h -> h !! t0 = Some (OArr c) -> live (<[t0 := OArr (<[i := v]> c)]> h).
Proof.
  intros (cx & ct0 & ct1 & cy & Hs & Hl0 & Hl1) Hc.
  assert (c = ct0) as ->.
  { destruct Hs as (_ & H0 & _). rewrite H0 in Hc. injection Hc as <-. reflexivity. }
  exists cx, (<[i := v]> ct0), ct1, cy. split; [|split; [|exact Hl1]].
  - exact (state_store_t0 subplan_ok q r F0 F1 h0 a b s0 s1 Hok Hbuf _ _ _ _ _ _ Hs).
  - rewrite length_insert. exact Hl0.
Qed.

Lemma live_store_x h c : live h -> live (<[xs := OArr c]> h).
Proof.
  intros (cx & ct0 & ct1 & cy & Hs & Hl0 & Hl1).
  exists c, ct0, ct1, cy. split; [|split; assumption].
  exact (state_store_x subplan_ok q r F0 F1 h0 a b s0 s1 Hok Hbuf _ _ _ _ _ _ Hs).
Qed.

Lemma live_store_y h c : live h -> live (<[Plan.y r := OArr c]> h).
Proof.
  intros (cx & ct0 & ct1 & cy & Hs & Hl0 & Hl1).
  exists cx, ct0, ct1, c. split; [|split; assumption].
  exact (state_store_y subplan_ok q r F0 F1 h0 a b s0 s1 Hok Hbuf _ _ _ _ _ _ Hs).
Qed.

Lemma live_execute0 h h' : live h -> fft_execute s0 h = Ret tt h' -> live h'.
Proof.
  intros (cx & ct0 & ct1 & cy & Hs & Hl0 & Hl1) E.
  destruct (exec_sizes subplan_ok q r F0 F1 h0 Hok) as (HP & HQ & _).
  destruct (state_execute0 subplan_ok q r F0 F1 h0 a b s0 s1 Hok Hbuf _ _ _ _ _ Hs)
    as (h'' & ct1' & E' & Hs' & Hl1' & _);
    [clear - Hl0 HP HQ; lia | clear - Hl1 HP HQ; lia |].
  rewrite E' in E. injection E as <-.
  exists cx, ct0, ct1', cy. split; [exact Hs'|]. split; [exact Hl0|].
  rewrite Hl1'. exact Hl1.
Qed.

Lemma live_execute1 h h' : live h -> fft_execute s1 h = Ret tt h' -> live h'.
Proof.
  intros (cx & ct0 & ct1 & cy & Hs & Hl0 & Hl1) E.
  destruct (exec_sizes subplan_ok q r F0 F1 h0 Hok) as (HP & HQ & _).
  destruct (state_execute1 subplan_ok q r F0 F1 h0 a b s0 s1 Hok Hbuf _ _ _ _ _ Hs)
    as (h'' & ct1' & E' & Hs' & Hl1' & _);
    [clear - Hl0 HP HQ; lia | clear - Hl1 HP HQ; lia |].
  rewrite E' in E. injection E as <-.
  exists cx, ct0, ct1', cy. split; [exact Hs'|]. split; [exact Hl0|].
  rewrite Hl1'. exact Hl1.
Qed.

Lemma live_start :
  subplan_ok s0 P t0 t1 (Plan.direction r) F0 h0 ->
  subplan_ok s1 Q t0 t1 (Plan.direction r) F1 h0 ->
  live h0.
Proof.
  intros Hs0 Hs1.
  pose proof Hok as [_ _ _ _ _ _ (ct0 & Ht0 & Hl0) (ct1 & Ht1 & Hl1) (cx & Hx & _) _ _ _ _].
  pose proof Hbuf as [_ Hout _ _ _ _].
  exists cx, ct0, ct1, b. split; [|split; assumption].
  unfold exec_state. repeat split; assumption || reflexivity.
Qed.

(** A loop that gathers from the staging buffer into the first scratch
    buffer. *)
Lemma traces_gather (idx : Z -> Z) n :
  0 <= n < 2 ^ 32 ->
  traces live
    (for_on (mach := traced_machine) 0 n (fun k =>
       m_bind (Machine := traced_machine) (m_read xs (idx k))
         (fun v => m_write t0 k v)))
    (for_ 0 n (fun k => let* v := read xs (idx k) in write t0 k v))
    (seqZ 0 n ≫= (fun k => [Load xs (idx k); Store t0 k]))
    (fun _ => True).
Proof.
  intros Hn.
  apply (traces_for live _ _ (fun k => [Load xs (idx k); Store t0 k]) n Hn).
  intros k Hk. apply traces_bind_step with (V := fun _ => True).
  - apply traces_read.
  - intros v _. apply traces_write. intros h c Hh Hc. apply live_store_t0; assumption.
Qed.

Lemma traces_round1 i :
  0 <= i < Q ->
  traces live
    (m_bind (Machine := traced_machine)
       (for_on (mach := traced_machine) 0 P (fun k =>
          m_bind (Machine := traced_machine) (m_read xs (decimate_index Q k i))
            (fun v => m_write t0 k v)))
       (fun _ =>
        m_bind (Machine := traced_machine) (m_get q Plan.subplans) (fun subplans =>
        m_bind (Machine := traced_machine) (m_read_plan subplans 0) (fun s =>
        m_bind (Machine := traced_machine) (m_fft_execute s) (fun _ =>
        for_on (mach := traced_machine) 0 P (fun k =>
          m_bind (Machine := traced_machine) (m_read t1 k) (fun v =>
          m_bind (Machine := traced_machine)
            (m_read (Plan.twiddle r) (twiddle_index i k)) (fun w =>
          m_write xs (decimate_index Q k i) (Cmul v w)))))))))
    (for_ 0 P (fun k =>
       let* v := read xs (decimate_index Q k i) in
       write t0 k v) ;;;
     let* subplans := get q Plan.subplans in
     let* s := read_plan subplans 0 in
     fft_execute s ;;;
     for_ 0 P (fun k =>
       let* v := read t1 k in
       let* w := read (Plan.twiddle r) (twiddle_index i k) in
       write xs (decimate_index Q k i) (Cmul v w)))
    (round1_trace r i) (fun _ => True).
Proof.
  intros Hi. destruct (exec_sizes subplan_ok q r F0 F1 h0 Hok) as (HP & HQ & _).
  unfold round1_trace. apply traces_bind with (V := fun _ => True).
  - apply traces_gather. clear - HP. lia.
  - intros _ _. apply traces_bind_silent with (V := fun p => p = Plan.subplans r).
    + apply traces_get. exact live_record.
    + intros p ->. apply traces_bind_step with (V := fun s => s = s0).
      * apply traces_read_plan with [s0; s1]; [exact live_subplans | reflexivity].
      * intros s ->. apply traces_bind_silent with (V := fun _ => True).
        -- apply traces_fft_execute. exact live_execute0.
        -- intros _ _.
           apply (traces_for live _ _
                    (fun k => [Load t1 k; Load (Plan.twiddle r) (twiddle_index i k);
                               Store xs (decimate_index Q k i)]) P);
             [clear - HP; lia|].
           intros k Hk. apply traces_bind_step with (V := fun _ => True);
             [apply traces_read|].
           intros v _. apply traces_bind_step with (V := fun _ => True);
             [apply traces_read|].
           intros w _. apply traces_write. intros h c Hh _. apply live_store_x. exact Hh.
Qed.

Lemma traces_round2 i :
  0 <= i < P ->
  traces live
    (m_bind (Machine := traced_machine)
       (for_on (mach := traced_machine) 0 Q (fun k =>
          m_bind (Machine := traced_machine) (m_read xs (row_index Q i k))
            (fun v => m_write t0 k v)))
       (fun _ =>
        m_bind (Machine := traced_machine) (m_get q Plan.subplans) (fun subplans =>
        m_bind (Machine := traced_machine) (m_read_plan subplans 1) (fun s =>
        m_bind (Machine := traced_machine) (m_fft_execute s) (fun _ =>
        for_on (mach := traced_machine) 0 Q (fun k =>
          m_bind (Machine := traced_machine) (m_read t1 k) (fun v =>
          m_bind (Machine := traced_machine) (m_get q Plan.y) (fun _y =>
          m_write _y (transpose_index P k i) v))))))))
    (for_ 0 Q (fun k =>
       let* v := read xs (row_index Q i k) in
       write t0 k v) ;;;
     let* subplans := get q Plan.subplans in
     let* s := read_plan subplans 1 in
     fft_execute s ;;;
     for_ 0 Q (fun k =>
       let* v := read t1 k in
       let* _y := get q Plan.y in
       write _y (transpose_index P k i) v))
    (round2_trace r i) (fun _ => True).
Proof.
  intros Hi. destruct (exec_sizes subplan_ok q r F0 F1 h0 Hok) as (HP & HQ & _).
  unfold round2_trace. apply traces_bind with (V := fun _ => True).
  - apply traces_gather. clear - HQ. lia.
  - intros _ _. apply traces_bind_silent with (V := fun p => p = Plan.subplans r).
    + apply traces_get. exact live_record.
    + intros p ->. apply traces_bind_step with (V := fun s => s = s1).
      * apply traces_read_plan with [s0; s1]; [exact live_subplans | reflexivity].
      * intros s ->. apply traces_bind_silent with (V := fun _ => True).
        -- apply traces_fft_execute. exact live_execute1.
        -- intros _ _.
           apply (traces_for live _ _
                    (fun k => [Load t1 k; Store (Plan.y r) (transpose_index P k i)]) Q);
             [clear - HQ; lia|].
           intros k Hk. apply traces_bind_step with (V := fun _ => True);
             [apply traces_read|].
           intros v _. apply traces_bind_silent with (V := fun y => y = Plan.y r).
           ++ apply traces_get. exact live_record.
           ++ intros y ->. apply traces_write. intros h c Hh _.
              apply live_store_y. exact Hh.
Qed.

(** Every run of [execute] that starts from a heap of a built plan makes the
    accesses of [execute_trace], in this order. *)
Lemma execute_traces :
  traces live (@execute_mixed_radix_on TM traced_machine q) (execute_mixed_radix q)
    (execute_trace r) (fun _ => True).
Proof.
  destruct (exec_sizes subplan_ok q r F0 F1 h0 Hok) as (HP & HQ & _).
  unfold execute_mixed_radix_on, execute_mixed_radix, execute_trace.
  apply traces_bind_silent with (V := fun d => d = Plan.data r);
    [apply traces_get; exact live_record|].
  intros d ->. cbv zeta.
  apply traces_bind_silent with (V := fun p => p = Plan.twiddle r);
    [apply traces_get; exact live_record|].
  intros tw ->.
  apply traces_bind_silent with (V := fun p => p = Plan.x r);
    [apply traces_get; exact live_record|].
  intros x ->.
  apply traces_bind_silent with (V := fun n => n = Plan.nfft r);
    [apply traces_get; exact live_record|].
  intros n ->.
  apply traces_bind_step with (V := fun _ => True).
  - apply traces_memmove. intros h c Hh. apply live_store_x. exact Hh.
  - intros _ _. apply traces_bind with (V := fun _ => True).
    + apply (traces_for live _ _ (round1_trace r) Q); [clear - HQ; lia|].
      intros i Hi. apply traces_round1. exact Hi.
    + intros _ _. apply (traces_for live _ _ (round2_trace r) P); [clear - HP; lia|].
      intros i Hi. apply traces_round2. exact Hi.
Qed.
End Trace.

(** The run of [execute] on a built plan, with its trace. *)
Lemma execute_traced_spec `{Liquid} subplan_ok `{!LiquidSpec subplan_ok}
    q r F0 F1 h a b :
  plan_ok subplan_ok q r F0 F1 h ->
  buffers_ok q r F0 F1 h a b ->
  exists h',
    execute_mixed_radix q h = Ret tt h' /\
    execute_traced q h = Ret (tt, execute_trace r) h'.
Proof.
  intros Hok Hbuf.
  pose proof Hok as [_ _ _ _ _ _ _ _ _ _ (s0 & s1 & Hsp & Hs0 & Hs1) _ _].
  destruct (execute_mixed_radix_spec subplan_ok q r F0 F1 h a b Hok Hbuf)
    as (h' & b' & E & _).
  exists h'. split; [exact E|].
  destruct (execute_traces subplan_ok q r F0 F1 h a b s0 s1 Hok Hbuf Hsp h
              (live_start subplan_ok q r F0 F1 h a b s0 s1 Hok Hbuf Hs0 Hs1))
    as [Hl _].
  unfold execute_traced. rewrite (Hl []), E. reflexivity.
Qed.

(** * The accesses of a run, array by array *)

Lemma omap_bind {A B C} (f : B -> option C) (g : A -> list B) (l : list A) :
  omap f (l ≫= g) = l ≫= (fun x => omap f (g x)).
Proof.
  induction l as [|x l IH]; [reflexivity|].
  rewrite !bind_cons, omap_app, IH. reflexivity.
Qed.

Lemma bind_nothing {A B} (l : list A) : l ≫= (fun _ => @nil B) = [].
Proof. induction l as [|x l IH]; [reflexivity|]. rewrite bind_cons, IH. reflexivity. Qed.

Lemma bind_one {A B} (f : A -> B) (l : list A) : l ≫= (fun x => [f x]) = f <$> l.
Proof.
  induction l as [|x l IH]; [reflexivity|]. rewrite bind_cons, IH. reflexivity.
Qed.

Lemma stores_to_app b l1 l2 : stores_to b (l1 ++ l2) = stores_to b l1 ++ stores_to b l2.
Proof. apply omap_app. Qed.

Lemma loads_from_app b l1 l2 : loads_from b (l1 ++ l2) = loads_from b l1 ++ loads_from b l2.
Proof. apply omap_app. Qed.

Lemma stores_to_bind {A} b (g : A -> list access) l :
  stores_to b (l ≫= g) = l ≫= (fun x => stores_to b (g x)).
Proof. apply omap_bind. Qed.

Lemma loads_from_bind {A} b (g : A -> list access) l :
  loads_from b (l ≫= g) = l ≫= (fun x => loads_from b (g x)).
Proof. apply omap_bind. Qed.

Lemma stores_to_load b b' i l : stores_to b (Load b' i :: l) = stores_to b l.
Proof. reflexivity. Qed.

Lemma stores_to_other b b' i l : b' <> b -> stores_to b (Store b' i :: l) = stores_to b l.
Proof. intros Hne. unfold stores_to. simpl. rewrite decide_False by exact Hne. reflexivity. Qed.

Lemma stores_to_same b i l : stores_to b (Store b i :: l) = i :: stores_to b l.
Proof. unfold stores_to. simpl. rewrite decide_True by reflexivity. reflexivity. Qed.

Lemma loads_from_store b b' i l : loads_from b (Store b' i :: l) = loads_from b l.
Proof. reflexivity. Qed.

Lemma loads_from_other b b' i l : b' <> b -> loads_from b (Load b' i :: l) = loads_from b l.
Proof. intros Hne. unfold loads_from. simpl. rewrite decide_False by exact Hne. reflexivity. Qed.

Lemma loads_from_same b i l : loads_from b (Load b i :: l) = i :: loads_from b l.
Proof. unfold loads_from. simpl. rewrite decide_True by reflexivity. reflexivity. Qed.

Lemma stores_to_nil b : stores_to b [] = [].
Proof. reflexivity. Qed.

Lemma loads_from_nil b : loads_from b [] = [].
Proof. reflexivity. Qed.

Ltac sift :=
  repeat first
    [ rewrite stores_to_nil | rewrite loads_from_nil
    | rewrite stores_to_app | rewrite loads_from_app
    | rewrite stores_to_bind | rewrite loads_from_bind
    | rewrite stores_to_load | rewrite loads_from_store
    | rewrite stores_to_same | rewrite loads_from_same
    | rewrite stores_to_other by ne | rewrite loads_from_other by ne ].

(** The blocks [execute] loads from and stores to are distinct. *)
Lemma plan_blocks_apart `{Liquid} subplan_ok q r F0 F1 h a b :
  plan_ok subplan_ok q r F0 F1 h -> buffers_ok q r F0 F1 h a b ->
  (MixedRadix.t0 (Plan.data r) <> MixedRadix.t1 (Plan.data r) /\
   MixedRadix.t0 (Plan.data r) <> MixedRadix.x (Plan.data r) /\
   MixedRadix.t0 (Plan.data r) <> Plan.subplans r /\
   MixedRadix.t0 (Plan.data r) <> Plan.twiddle r /\
   MixedRadix.t0 (Plan.data r) <> Plan.y r) /\
  (MixedRadix.t1 (Plan.data r) <> MixedRadix.x (Plan.data r) /\
   MixedRadix.t1 (Plan.data r) <> Plan.subplans r /\
   MixedRadix.t1 (Plan.data r) <> Plan.twiddle r /\
   MixedRadix.t1 (Plan.data r) <> Plan.y r) /\
  (MixedRadix.x (Plan.data r) <> Plan.subplans r /\
   MixedRadix.x (Plan.data r) <> Plan.twiddle r /\
   MixedRadix.x (Plan.data r) <> Plan.y r) /\
  (Plan.subplans r <> Plan.twiddle r /\ Plan.subplans r <> Plan.y r) /\
  Plan.twiddle r <> Plan.y r.
Proof.
  intros Hok Hbuf. destruct (plan_separate _ _ _ _ _ _ _ _ Hok Hbuf) as (Hnd & _).
  apply NoDup_cons in Hnd. destruct Hnd as [_ Hnd].
  repeat match goal with
  | Hx : NoDup (_ :: _) |- _ => apply NoDup_cons in Hx; destruct Hx as [? Hx]
  end.
  repeat match goal with
  | Hx : _ ∉ _ :: _ |- _ => apply not_elem_of_cons in Hx; destruct Hx as [? Hx]
  end.
  repeat split; assumption.
Qed.

Section Sift.
Variable r : Plan.plan_s.

Local Abbreviation P := (MixedRadix.P (Plan.data r)).
Local Abbreviation Q := (MixedRadix.Q (Plan.data r)).
Local Abbreviation t0 := (MixedRadix.t0 (Plan.data r)).
Local Abbreviation t1 := (MixedRadix.t1 (Plan.data r)).
Local Abbreviation xs := (MixedRadix.x (Plan.data r)).

Hypothesis H01 : t0 <> t1.
Hypothesis H0x : t0 <> xs.
Hypothesis H0s : t0 <> Plan.subplans r.
Hypothesis H0t : t0 <> Plan.twiddle r.
Hypothesis H0y : t0 <> Plan.y r.
Hypothesis H1x : t1 <> xs.
Hypothesis H1s : t1 <> Plan.subplans r.
Hypothesis H1t : t1 <> Plan.twiddle r.
Hypothesis H1y : t1 <> Plan.y r.
Hypothesis Hxs : xs <> Plan.subplans r.
Hypothesis Hxt : xs <> Plan.twiddle r.
Hypothesis Hxy : xs <> Plan.y r.
Hypothesis Hst : Plan.subplans r <> Plan.twiddle r.
Hypothesis Hsy : Plan.subplans r <> Plan.y r.
Hypothesis Hty : Plan.twiddle r <> Plan.y r.

(** The stores to the output buffer are those of pass 2. *)
Lemma stores_to_output :
  stores_to (Plan.y r) (execute_trace r) = pass2_writes P Q.
Proof.
  unfold execute_trace, pass2_writes. sift. change (stores_to (Plan.y r) [Copy _ _ _]) with (@nil Z).
  rewrite (list_bind_ext (fun i => stores_to (Plan.y r) (round1_trace r i))
             (fun _ => []) (seqZ 0 Q) (seqZ 0 Q)); [| |reflexivity].
  - rewrite bind_nothing. cbn [app]. apply list_bind_ext; [|reflexivity].
    intros i. unfold round2_trace. sift.
    rewrite (list_bind_ext _ (fun _ => []) (seqZ 0 Q) (seqZ 0 Q)); [| |reflexivity].
    + rewrite bind_nothing. cbn [app]. rewrite <- bind_one.
      apply list_bind_ext; [|reflexivity]. intros k. sift. reflexivity.
    + intros k. sift. reflexivity.
  - intros i. unfold round1_trace. sift.
    rewrite (list_bind_ext _ (fun _ => []) (seqZ 0 P) (seqZ 0 P)); [| |reflexivity].
    + rewrite bind_nothing. cbn [app].
      rewrite (list_bind_ext _ (fun _ => []) (seqZ 0 P) (seqZ 0 P)); [| |reflexivity].
      * apply bind_nothing.
      * intros k. sift. reflexivity.
    + intros k. sift. reflexivity.
Qed.

(** The stores to the staging buffer are those of pass 1. *)
Lemma stores_to_staging :
  stores_to xs (execute_trace r) = pass1_reads P Q.
Proof.
  unfold execute_trace, pass1_reads. sift. change (stores_to xs [Copy _ _ _]) with (@nil Z).
  rewrite (list_bind_ext (fun i => stores_to xs (round2_trace r i))
             (fun _ => []) (seqZ 0 P) (seqZ 0 P)); [| |reflexivity].
  - rewrite bind_nothing, app_nil_r. cbn [app]. apply list_bind_ext; [|reflexivity].
    intros i. unfold round1_trace. sift.
    rewrite (list_bind_ext _ (fun _ => []) (seqZ 0 P) (seqZ 0 P)); [| |reflexivity].
    + rewrite bind_nothing. cbn [app]. rewrite <- bind_one.
      apply list_bind_ext; [|reflexivity]. intros k. sift. reflexivity.
    + intros k. sift. reflexivity.
  - intros i. unfold round2_trace. sift.
    rewrite (list_bind_ext _ (fun _ => []) (seqZ 0 Q) (seqZ 0 Q)); [| |reflexivity].
    + rewrite bind_nothing. cbn [app].
      rewrite (list_bind_ext _ (fun _ => []) (seqZ 0 Q) (seqZ 0 Q)); [| |reflexivity].
      * apply bind_nothing.
      * intros k. sift. reflexivity.
    + intros k. sift. reflexivity.
Qed.

(** The loads from the staging buffer are those of pass 1, then those of
    pass 2. *)
Lemma loads_from_staging :
  loads_from xs (execute_trace r) = pass1_reads P Q ++ pass2_reads P Q.
Proof.
  unfold execute_trace, pass1_reads, pass2_reads. sift.
  change (loads_from xs [Copy _ _ _]) with (@nil Z). cbn [app]. f_equal.
  - apply list_bind_ext; [|reflexivity]. intros i. unfold round1_trace. sift.
    rewrite (list_bind_ext (fun k => loads_from xs [Load t1 k; _; _]) (fun _ => [])
               (seqZ 0 P) (seqZ 0 P)); [| |reflexivity].
    + rewrite bind_nothing, app_nil_r. rewrite <- bind_one.
      apply list_bind_ext; [|reflexivity]. intros k. sift. reflexivity.
    + intros k. sift. reflexivity.
  - apply list_bind_ext; [|reflexivity]. intros i. unfold round2_trace. sift.
    rewrite (list_bind_ext (fun k => loads_from xs [Load t1 k; _]) (fun _ => [])
               (seqZ 0 Q) (seqZ 0 Q)); [| |reflexivity].
    + rewrite bind_nothing, app_nil_r. rewrite <- bind_one.
      apply list_bind_ext; [|reflexivity]. intros k. sift. reflexivity.
    + intros k. sift. reflexivity.
Qed.

(** The loads from the table of twiddle factors are those of pass 1. *)
Lemma loads_from_twiddle :
  loads_from (Plan.twiddle r) (execute_trace r) =
  seqZ 0 Q ≫= (fun i => (fun k => twiddle_index i k) <$> seqZ 0 P).
Proof.
  unfold execute_trace. sift.
  change (loads_from (Plan.twiddle r) [Copy _ _ _]) with (@nil Z).
  rewrite (list_bind_ext (fun i => loads_from (Plan.twiddle r) (round2_trace r i))
             (fun _ => []) (seqZ 0 P) (seqZ 0 P)); [| |reflexivity].
  - rewrite bind_nothing, app_nil_r. cbn [app]. apply list_bind_ext; [|reflexivity].
    intros i. unfold round1_trace. sift.
    rewrite (list_bind_ext _ (fun _ => []) (seqZ 0 P) (seqZ 0 P)); [| |reflexivity].
    + rewrite bind_nothing. cbn [app]. rewrite <- bind_one.
      apply list_bind_ext; [|reflexivity]. intros k. sift. reflexivity.
    + intros k. sift. reflexivity.
  - intros i. unfold round2_trace. sift.
    rewrite (list_bind_ext _ (fun _ => []) (seqZ 0 Q) (seqZ 0 Q)); [| |reflexivity].
    + rewrite bind_nothing. cbn [app].
      rewrite (list_bind_ext _ (fun _ => []) (seqZ 0 Q) (seqZ 0 Q)); [| |reflexivity].
      * apply bind_nothing.
      * intros k. sift. reflexivity.
    + intros k. sift. reflexivity.
Qed.
End Sift.

(** The run of [execute] on a built plan, with what it loads and stores. *)
Lemma execute_accesses `{Liquid} subplan_ok `{!LiquidSpec subplan_ok}
    q r F0 F1 h a b :
  plan_ok subplan_ok q r F0 F1 h ->
  buffers_ok q r F0 F1 h a b ->
  exists h' log,
    execute_mixed_radix q h = Ret tt h' /\
    execute_traced q h = Ret (tt, log) h' /\
    stores_to (Plan.y r) log
      = pass2_writes (MixedRadix.P (Plan.data r)) (MixedRadix.Q (Plan.data r)) /\
    stores_to (MixedRadix.x (Plan.data r)) log
      = pass1_reads (MixedRadix.P (Plan.data r)) (MixedRadix.Q (Plan.data r)) /\
    loads_from (MixedRadix.x (Plan.data r)) log
      = pass1_reads (MixedRadix.P (Plan.data r)) (MixedRadix.Q (Plan.data r))
        ++ pass2_reads (MixedRadix.P (Plan.data r)) (MixedRadix.Q (Plan.data r)) /\
    loads_from (Plan.twiddle r) log
      = seqZ 0 (MixedRadix.Q (Plan.data r)) ≫= (fun i =>
          (fun k => twiddle_index i k) <$> seqZ 0 (MixedRadix.P (Plan.data r))).
Proof.
  intros Hok Hbuf.
  destruct (execute_traced_spec subplan_ok q r F0 F1 h a b Hok Hbuf) as (h' & E & Et).
  destruct (plan_blocks_apart subplan_ok q r F0 F1 h a b Hok Hbuf)
    as ((H01 & H0x & H0s & H0t & H0y) & (H1x & H1s & H1t & H1y) &
        (Hxs & Hxt & Hxy) & (Hst & Hsy) & Hty).
  exists h', (execute_trace r). split; [exact E|]. split; [exact Et|].
  split; [apply stores_to_output; assumption|].
  split; [apply stores_to_staging; assumption|].
  split; [apply loads_from_staging; assumption|].
  apply loads_from_twiddle; assumption.
Qed.

Lemma plan_sizes `{Liquid} subplan_ok q r F0 F1 h :
  plan_ok subplan_ok q r F0 F1 h ->
  0 <= MixedRadix.P (Plan.data r) /\ 0 <= MixedRadix.Q (Plan.data r) /\
  MixedRadix.P (Plan.data r) * MixedRadix.Q (Plan.data r) < 2 ^ 32 /\
  MixedRadix.P (Plan.data r) * MixedRadix.Q (Plan.data r) = Plan.nfft r.
Proof.
  intros Hok. destruct (exec_sizes subplan_ok q r F0 F1 h Hok) as (HP & HQ & Hb & _).
  destruct Hok as [_ _ _ _ HPQ _ _ _ _ _ _ _ _].
  split; [lia|]. split; [lia|]. split; [exact Hb | exact HPQ].
Qed.

(** * The index arithmetic of a run *)

(** C9. In a run of [execute] on a built plan, the stores to the output
    buffer are those of pass 2, at the positions [k*P+i] in the order of its
    two loops; these positions are the integers of [[0, N)], each of them
    once: the map [(i, k) |-> k*P+i] from [[0, P) x [0, Q)] is a bijection
    onto [[0, N)], no position is stored to twice, none is left out and none
    is out of bounds.  The run is that of [execute_mixed_radix], with every
    access to an array recorded. *)
Theorem transpose_is_bijection `{Liquid} subplan_ok `{!LiquidSpec subplan_ok}
    q r F0 F1 h a b :
  plan_ok subplan_ok q r F0 F1 h ->
  buffers_ok q r F0 F1 h a b ->
  exists h' log,
    execute_mixed_radix q h = Ret tt h' /\
    execute_traced q h = Ret (tt, log) h' /\
    stores_to (Plan.y r) log
      = pass2_writes (MixedRadix.P (Plan.data r)) (MixedRadix.Q (Plan.data r)) /\
    NoDup (stores_to (Plan.y r) log) /\
    (forall m, m ∈ stores_to (Plan.y r) log <-> 0 <= m < Plan.nfft r) /\
    Z.of_nat (length (stores_to (Plan.y r) log)) = Plan.nfft r /\
    Plan.nfft r <= Z.of_nat (length b) /\
    (forall i k i' k',
       0 <= i < MixedRadix.P (Plan.data r) -> 0 <= k < MixedRadix.Q (Plan.data r) ->
       0 <= i' < MixedRadix.P (Plan.data r) -> 0 <= k' < MixedRadix.Q (Plan.data r) ->
       transpose_index (MixedRadix.P (Plan.data r)) k i
         = transpose_index (MixedRadix.P (Plan.data r)) k' i' ->
       i = i' /\ k = k') /\
    (forall m, 0 <= m < Plan.nfft r ->
       exists i k,
         0 <= i < MixedRadix.P (Plan.data r) /\ 0 <= k < MixedRadix.Q (Plan.data r) /\
         transpose_index (MixedRadix.P (Plan.data r)) k i = m).
Proof.
  intros Hok Hbuf.
  destruct (execute_accesses subplan_ok q r F0 F1 h a b Hok Hbuf)
    as (h' & log & E & Et & Hy & _).
  destruct (plan_sizes subplan_ok q r F0 F1 h Hok) as (HP & HQ & Hb & HN).
  destruct (pass2_writes_bijective _ _ HP HQ Hb) as (Hnd & Hmem & Hinj & Hsur & _).
  rewrite HN in Hmem, Hsur.
  exists h', log. split; [exact E|]. split; [exact Et|]. split; [exact Hy|].
  rewrite Hy. split; [exact Hnd|]. split; [exact Hmem|]. split; [|split].
  - assert (Hperm : pass2_writes (MixedRadix.P (Plan.data r)) (MixedRadix.Q (Plan.data r))
                    ≡ₚ seqZ 0 (Plan.nfft r)).
    { apply NoDup_Permutation; [exact Hnd | apply NoDup_seqZ|].
      intros m. rewrite Hmem, elem_of_seqZ. clear. lia. }
    rewrite Hperm, length_seqZ. clear - HP HQ HN. nia.
  - apply (ok_out_length _ _ _ _ _ _ _ Hbuf).
  - split; [exact Hinj | exact Hsur].
Qed.

Lemma transpose_is_bijection_witness :
  exists h' log,
    @execute_mixed_radix reference 4%nat forward_heap = Ret tt h' /\
    @execute_traced reference 4%nat forward_heap = Ret (tt, log) h' /\
    stores_to 2%nat log = pass2_writes 3 2 /\
    NoDup (stores_to 2%nat log) /\
    (forall m, m ∈ stores_to 2%nat log <-> 0 <= m < 6) /\
    Z.of_nat (length (stores_to 2%nat log)) = 6 /\
    6 <= Z.of_nat (length (replicate 6 C0)) /\
    (forall i k i' k', 0 <= i < 3 -> 0 <= k < 2 -> 0 <= i' < 3 -> 0 <= k' < 2 ->
       transpose_index 3 k i = transpose_index 3 k' i' -> i = i' /\ k = k') /\
    (forall m, 0 <= m < 6 ->
       exists i k, 0 <= i < 3 /\ 0 <= k < 2 /\ transpose_index 3 k i = m).
Proof.
  exact (@transpose_is_bijection reference dft_plan_ok reference_spec
           4%nat forward6 {[ 9%nat ]} {[ 10%nat ]} forward_heap impulse6 (replicate 6 C0)
           forward6_ok forward6_buffers).
Defined.

(** The stores of the run of the plan of size 6 to its output buffer. *)
Example stores_of_forward6 :
  exists h' log,
    @execute_traced reference 4%nat forward_heap = Ret (tt, log) h' /\
    stores_to 2%nat log = [0; 3; 1; 4; 2; 5].
Proof.
  destruct (@execute_accesses reference dft_plan_ok reference_spec
              4%nat forward6 {[ 9%nat ]} {[ 10%nat ]} forward_heap impulse6 (replicate 6 C0)
              forward6_ok forward6_buffers) as (h' & log & _ & Et & Hy & _).
  exists h', log. split; [exact Et | exact Hy].
Qed.

(** What pass 1 leaves in the staging buffer, which pass 2 does not store
    to. *)
Lemma staging_after_run `{Liquid} subplan_ok `{!LiquidSpec subplan_ok}
    q r F0 F1 h a b :
  plan_ok subplan_ok q r F0 F1 h ->
  buffers_ok q r F0 F1 h a b ->
  exists h' cx,
    execute_mixed_radix q h = Ret tt h' /\
    h' !! MixedRadix.x (Plan.data r) = Some (OArr cx) /\
    forall i k, (i < Z.to_nat (MixedRadix.Q (Plan.data r)))%nat ->
      (k < Z.to_nat (MixedRadix.P (Plan.data r)))%nat ->
      cx !! (Z.to_nat (MixedRadix.Q (Plan.data r)) * k + i)%nat =
      Some (Cmul (dft_direct (twiddle_sign (Plan.direction r))
                    (Z.to_nat (MixedRadix.P (Plan.data r)))
                    (fun j => elems a (Z.to_nat (MixedRadix.Q (Plan.data r)) * j + i)%nat) k)
                 (root (twiddle_sign (Plan.direction r))
                    (Z.to_nat (MixedRadix.P (Plan.data r)) *
                     Z.to_nat (MixedRadix.Q (Plan.data r))) (i * k))).
Proof.
  intros Hok Hbuf.
  pose proof Hok as [_ _ _ _ _ _ _ _ _ (atw & Htw & _ & Htwv)
                     (s0 & s1 & Hsp & Hs0 & Hs1) _ _].
  destruct (execute_run subplan_ok q r F0 F1 h a b atw s0 s1 Hok Hbuf Hsp Htw Htwv Hs0 Hs1)
    as (h' & E & cx & ct0 & ct1 & cy & Hst & Hlx & _ & _ & _ & Hcx & _).
  exists h', cx. split; [exact E|]. split; [apply Hst|].
  intros i k Hi Hk.
  rewrite Hcx by (clear - Hi Hk; nia). unfold stage1.
  destruct (divmod_strided (Z.to_nat (MixedRadix.Q (Plan.data r))) k i Hi) as [-> ->].
  destruct (Nat.ltb_spec i (Z.to_nat (MixedRadix.Q (Plan.data r)))) as [_ | Hbad];
    [reflexivity | clear - Hi Hbad; lia].
Qed.

(** C8. In a run of [execute] on a built plan, the loads from the table of
    twiddle factors are those of pass 1, at the indices [i*k] for [i] in
    [[0, Q)] and [k] in [[0, P)]: the product does not wrap around, is at
    most [(Q-1)*(P-1)], which is below [N], and so is its own remainder
    modulo [N]; every load is within the [N] entries of the table.  The
    factor applied is the entry [(i*k) mod N]: after the run, position
    [Q*k+i] of the staging buffer holds the [k]-th coefficient of the
    [P]-point transform of column [i] of the input, times that entry. *)
Theorem twiddle_index_in_bounds `{Liquid} subplan_ok `{!LiquidSpec subplan_ok}
    q r F0 F1 h a b tbl :
  plan_ok subplan_ok q r F0 F1 h ->
  buffers_ok q r F0 F1 h a b ->
  h !! Plan.twiddle r = Some (OArr tbl) ->
  (forall i k,
     0 <= i < MixedRadix.Q (Plan.data r) -> 0 <= k < MixedRadix.P (Plan.data r) ->
     twiddle_index i k = i * k /\
     0 <= i * k <= (MixedRadix.Q (Plan.data r) - 1) * (MixedRadix.P (Plan.data r) - 1) /\
     (MixedRadix.Q (Plan.data r) - 1) * (MixedRadix.P (Plan.data r) - 1) < Plan.nfft r /\
     twiddle_index i k = (i * k) mod Plan.nfft r) /\
  exists h' log cx,
    execute_mixed_radix q h = Ret tt h' /\
    execute_traced q h = Ret (tt, log) h' /\
    loads_from (Plan.twiddle r) log
      = seqZ 0 (MixedRadix.Q (Plan.data r)) ≫= (fun i =>
          (fun k => (i * k) mod Plan.nfft r) <$> seqZ 0 (MixedRadix.P (Plan.data r))) /\
    Forall (fun e => 0 <= e < Z.of_nat (length tbl)) (loads_from (Plan.twiddle r) log) /\
    h' !! MixedRadix.x (Plan.data r) = Some (OArr cx) /\
    forall i k,
      0 <= i < MixedRadix.Q (Plan.data r) -> 0 <= k < MixedRadix.P (Plan.data r) ->
      exists w,
        tbl !! Z.to_nat ((i * k) mod Plan.nfft r) = Some w /\
        cx !! Z.to_nat (MixedRadix.Q (Plan.data r) * k + i) =
        Some (Cmul (dft_direct (twiddle_sign (Plan.direction r))
                      (Z.to_nat (MixedRadix.P (Plan.data r)))
                      (fun j => elems a (Z.to_nat (MixedRadix.Q (Plan.data r)) * j
                                         + Z.to_nat i)%nat)
                      (Z.to_nat k))
                   w).
Proof.
  intros Hok Hbuf Htbl.
  destruct (plan_sizes subplan_ok q r F0 F1 h Hok) as (HP & HQ & Hb & HN).
  pose proof Hok as [_ _ _ _ _ _ _ _ _ (atw & Htw & Hltw & Htwv) _ _ _].
  rewrite Htbl in Htw. injection Htw as <-.
  assert (Hidx : forall i k,
     0 <= i < MixedRadix.Q (Plan.data r) -> 0 <= k < MixedRadix.P (Plan.data r) ->
     twiddle_index i k = i * k /\
     0 <= i * k <= (MixedRadix.Q (Plan.data r) - 1) * (MixedRadix.P (Plan.data r) - 1) /\
     (MixedRadix.Q (Plan.data r) - 1) * (MixedRadix.P (Plan.data r) - 1) < Plan.nfft r /\
     twiddle_index i k = (i * k) mod Plan.nfft r).
  { intros i k Hi Hk. rewrite <- HN.
    destruct (twiddle_index_small _ _ i k h _ tbl Hi Hk Hb Htbl)
      as (E1 & E2 & E3 & E4 & _); [rewrite Hltw; symmetry; exact HN|].
    repeat split; assumption || apply E2. }
  split; [exact Hidx|].
  destruct (execute_accesses subplan_ok q r F0 F1 h a b Hok Hbuf)
    as (h' & log & E & Et & _ & _ & _ & Htwl).
  destruct (staging_after_run subplan_ok q r F0 F1 h a b Hok Hbuf)
    as (h'' & cx & E' & Hx & Hcx).
  rewrite E in E'. injection E' as <-.
  assert (Hloads : loads_from (Plan.twiddle r) log
      = seqZ 0 (MixedRadix.Q (Plan.data r)) ≫= (fun i =>
          (fun k => (i * k) mod Plan.nfft r) <$> seqZ 0 (MixedRadix.P (Plan.data r)))).
  { rewrite Htwl. apply Forall_bind_ext. apply Forall_forall. intros i Hi.
    apply elem_of_seqZ in Hi. apply list_eq. intros j. rewrite !list_lookup_fmap.
    destruct (seqZ 0 (MixedRadix.P (Plan.data r)) !! j) as [k|] eqn:Ek; [|reflexivity].
    apply lookup_seqZ in Ek. simpl. f_equal.
    apply (Hidx i k); clear - Hi Ek; lia. }
  exists h', log, cx. split; [exact E|]. split; [exact Et|]. split; [exact Hloads|].
  split; [|split; [exact Hx|]].
  - rewrite Hloads. apply Forall_forall. intros e He.
    apply list_elem_of_bind in He. destruct He as (i & He & Hi).
    apply list_elem_of_fmap in He. destruct He as (k & -> & Hk).
    apply elem_of_seqZ in Hi, Hk. rewrite Hltw. apply Z.mod_pos_bound.
    clear - HP HQ HN Hi Hk. nia.
  - intros i k Hi Hk.
    destruct (Hidx i k Hi Hk) as (E1 & E2 & E3 & E4).
    exists (root (twiddle_sign (Plan.direction r))
              (Z.to_nat (MixedRadix.P (Plan.data r)) *
               Z.to_nat (MixedRadix.Q (Plan.data r))) (Z.to_nat i * Z.to_nat k)).
    split.
    + rewrite <- E4, E1, Htwv by (clear - E2 E3; lia).
      replace (Plan.nfft r)
        with (Z.of_nat (Z.to_nat (MixedRadix.P (Plan.data r)) *
                        Z.to_nat (MixedRadix.Q (Plan.data r)))) by (clear - HP HQ HN; lia).
      replace (i * k) with (Z.of_nat (Z.to_nat i * Z.to_nat k)) by (clear - Hi Hk; lia).
      rewrite twiddle_factor_root. reflexivity.
    + replace (Z.to_nat (MixedRadix.Q (Plan.data r) * k + i))
        with (Z.to_nat (MixedRadix.Q (Plan.data r)) * Z.to_nat k + Z.to_nat i)%nat
        by (clear - Hi Hk HQ; lia).
      apply Hcx; clear - Hi Hk; lia.
Qed.

Lemma twiddle_index_in_bounds_witness :
  (forall i k, 0 <= i < 2 -> 0 <= k < 3 ->
     twiddle_index i k = i * k /\
     0 <= i * k <= (2 - 1) * (3 - 1) /\
     (2 - 1) * (3 - 1) < 6 /\
     twiddle_index i k = (i * k) mod 6) /\
  exists h' log cx,
    @execute_mixed_radix reference 4%nat forward_heap = Ret tt h' /\
    @execute_traced reference 4%nat forward_heap = Ret (tt, log) h' /\
    loads_from 11%nat log
      = seqZ 0 2 ≫= (fun i => (fun k => (i * k) mod 6) <$> seqZ 0 3) /\
    Forall (fun e => 0 <= e < Z.of_nat (length (twiddles6 (-1)%R))) (loads_from 11%nat log) /\
    h' !! 7%nat = Some (OArr cx) /\
    forall i k, 0 <= i < 2 -> 0 <= k < 3 ->
      exists w,
        twiddles6 (-1)%R !! Z.to_nat ((i * k) mod 6) = Some w /\
        cx !! Z.to_nat (2 * k + i) =
        Some (Cmul (dft_direct (@twiddle_sign reference 1) (Z.to_nat 3)
                      (fun j => elems impulse6 (Z.to_nat 2 * j + Z.to_nat i)%nat)
                      (Z.to_nat k))
                   w).
Proof.
  apply (@twiddle_index_in_bounds reference dft_plan_ok reference_spec
           4%nat forward6 {[ 9%nat ]} {[ 10%nat ]} forward_heap impulse6 (replicate 6 C0)
           (twiddles6 (-1)%R) forward6_ok forward6_buffers).
  vm_compute. reflexivity.
Defined.

(** The loads of the run of the plan of size 6 from its twiddle factors. *)
Example twiddle_loads_of_forward6 :
  exists h' log,
    @execute_traced reference 4%nat forward_heap = Ret (tt, log) h' /\
    loads_from 11%nat log = [0; 0; 0; 0; 1; 2].
Proof.
  destruct (@execute_accesses reference dft_plan_ok reference_spec
              4%nat forward6 {[ 9%nat ]} {[ 10%nat ]} forward_heap impulse6 (replicate 6 C0)
              forward6_ok forward6_buffers) as (h' & log & _ & Et & _ & _ & _ & Ht).
  exists h', log. split; [exact Et | exact Ht].
Qed.



(** X19. In a run of [execute] on a built plan, the loads from the staging
    buffer that follow the [N] loads of pass 1 are those of pass 2, and they
    go from the first sample to the [N]-th in this order, each of them once:
    the [i]-th transform of size [Q] takes the samples
    [Q*i, ..., Q*i+Q-1]. *)
Theorem pass2_reads_in_order `{Liquid} subplan_ok `{!LiquidSpec subplan_ok}
    q r F0 F1 h a b :
  plan_ok subplan_ok q r F0 F1 h ->
  buffers_ok q r F0 F1 h a b ->
  exists h' log,
    execute_mixed_radix q h = Ret tt h' /\
    execute_traced q h = Ret (tt, log) h' /\
    loads_from (MixedRadix.x (Plan.data r)) log
      = pass1_reads (MixedRadix.P (Plan.data r)) (MixedRadix.Q (Plan.data r))
        ++ pass2_reads (MixedRadix.P (Plan.data r)) (MixedRadix.Q (Plan.data r)) /\
    drop (Z.to_nat (Plan.nfft r)) (loads_from (MixedRadix.x (Plan.data r)) log)
      = seqZ 0 (Plan.nfft r).
Proof.
  intros Hok Hbuf.
  destruct (execute_accesses subplan_ok q r F0 F1 h a b Hok Hbuf)
    as (h' & log & E & Et & _ & _ & Hld & _).
  destruct (plan_sizes subplan_ok q r F0 F1 h Hok) as (HP & HQ & Hb & HN).
  destruct (pass1_reads_bijective _ _ HP HQ Hb) as (Hperm & _).
  exists h', log. split; [exact E|]. split; [exact Et|]. split; [exact Hld|].
  rewrite Hld, drop_app_length'.
  - rewrite (pass2_reads_sequential _ _ HP HQ Hb), HN. reflexivity.
  - rewrite Hperm, length_seqZ, HN. reflexivity.
Qed.

Lemma pass2_reads_in_order_witness :
  exists h' log,
    @execute_mixed_radix reference 4%nat forward_heap = Ret tt h' /\
    @execute_traced reference 4%nat forward_heap = Ret (tt, log) h' /\
    loads_from 7%nat log = pass1_reads 3 2 ++ pass2_reads 3 2 /\
    drop (Z.to_nat 6) (loads_from 7%nat log) = seqZ 0 6.
Proof.
  exact (@pass2_reads_in_order reference dft_plan_ok reference_spec
           4%nat forward6 {[ 9%nat ]} {[ 10%nat ]} forward_heap impulse6 (replicate 6 C0)
           forward6_ok forward6_buffers).
Defined.
